(** * Font de-obfuscation crawler: the rasteriser, its caches, the mapping
      assembler and the decoders, embedded from [parse_woff_font.py] and the
      Dongchedi crawler script.

    Python values are modelled as follows.
    - [int] is [Z]; [//] on a positive divisor is [Z.div] (both floor).
    - [str] is a list of code points ([list N]); [py] reads a literal.
    - a [dict] whose iteration order matters (the character map) is the list
      of its items in iteration order; a [dict] that is only looked up and
      assigned is a [gmap].
    - a function that raises returns [exn + A]; a function that also touches
      the file system, the memo table or the log runs in the monad [M]. *)

From Stdlib Require Import ZArith NArith List Lia Ascii String.
From stdpp Require Import gmap list.

Local Open Scope Z_scope.

(** ** Python strings *)

Abbreviation str := (list N).

Definition py (s : string) : list N :=
  List.map N_of_ascii (list_ascii_of_string s).

Arguments py : simpl never.

(** Replaces every literal by the list of its code points. *)
Ltac py_eval :=
  repeat match goal with
         | |- context [py ?s] =>
             let v := eval vm_compute in (py s) in change (py s) with v
         end.

Fixpoint uint_chars (u : Decimal.uint) : list N :=
  match u with
  | Decimal.Nil => []
  | Decimal.D0 u => 48%N :: uint_chars u
  | Decimal.D1 u => 49%N :: uint_chars u
  | Decimal.D2 u => 50%N :: uint_chars u
  | Decimal.D3 u => 51%N :: uint_chars u
  | Decimal.D4 u => 52%N :: uint_chars u
  | Decimal.D5 u => 53%N :: uint_chars u
  | Decimal.D6 u => 54%N :: uint_chars u
  | Decimal.D7 u => 55%N :: uint_chars u
  | Decimal.D8 u => 56%N :: uint_chars u
  | Decimal.D9 u => 57%N :: uint_chars u
  end.

(** [f"{n}"] for an [int]: decimal digits, with a minus sign when negative. *)
Definition format_int (n : Z) : list N :=
  match Z.to_int n with
  | Decimal.Pos u => uint_chars u
  | Decimal.Neg u => 45%N :: uint_chars u
  end.

Definition is_digit (c : N) : bool := ((48 <=? c) && (c <=? 57))%N.

(** ** Exceptions *)

Inductive value_error :=
| invalid_codepoint (cmap_code : Z)   (* raised by hand when cmap_code < 0 *)
| cannot_load_font                    (* ImageFont.truetype failed *)
| cannot_parse_font                   (* TTFont / getBestCmap failed *)
| negative_image_size                 (* Image.new with a negative side *)
| chr_out_of_range.                   (* chr() arg not in range(0x110000) *)

(** Every constructor is a subclass of Python's [Exception], so a bare
    [except Exception] catches all of them. *)
Inductive exn :=
| FileNotFoundError (path : list N)
| FileExistsError (path : list N)
| NotADirectoryError (path : list N)
| IsADirectoryError (path : list N)
| ValueError (why : value_error)
| TypeError
| KeyError (key : N)
| OverflowError                       (* int too large to convert to C int *)
| LibraryError (tag : N).             (* raised inside an external library *)

(** ** Crop geometry of [convert_cmap_to_image] (source lines 71-85) *)

Module Crop.

(** A PIL box: (left, top, right, bottom). *)
Definition box : Type := Z * Z * Z * Z.

Definition crop_box (img_size : Z) (bbox : box) : box :=
  let temp_size := img_size * 2 in
  let padding := img_size / 10 in
  let '(lft, top, rgt, bottom) := bbox in
  let width := rgt - lft in
  let height := bottom - top in
  let center_x := (lft + rgt) / 2 in
  let center_y := (top + bottom) / 2 in
  let half_size := Z.max width height / 2 + padding in
  let crop_left := Z.max 0 (center_x - half_size) in
  let crop_top := Z.max 0 (center_y - half_size) in
  let crop_right := Z.min temp_size (center_x + half_size) in
  let crop_bottom := Z.min temp_size (center_y + half_size) in
  (crop_left, crop_top, crop_right, crop_bottom).

(** *** Vocabulary of the geometric statements *)

Definition width (b : box) : Z := let '(lft, _, rgt, _) := b in rgt - lft.
Definition height (b : box) : Z := let '(_, top, _, bottom) := b in bottom - top.

(** A non-empty bounding box lying on the oversized canvas. *)
Definition on_canvas (img_size : Z) (b : box) : Prop :=
  let '(lft, top, rgt, bottom) := b in
  0 <= lft /\ lft < rgt /\ rgt <= img_size * 2 /\
  0 <= top /\ top < bottom /\ bottom <= img_size * 2.

(** Two boxes have centres at most one pixel apart on each axis (stated on
    doubled coordinates, so that no rounding is involved). *)
Definition centers_within_one (a b : box) : Prop :=
  let '(al, at_, ar, ab) := a in
  let '(bl, bt, br, bb) := b in
  Z.abs ((al + ar) - (bl + br)) <= 2 /\ Z.abs ((at_ + ab) - (bt + bb)) <= 2.

(** The square of half-extent [h] around the rounded centre of [b]. *)
Definition square_around (b : box) (h : Z) : box :=
  let '(lft, top, rgt, bottom) := b in
  ((lft + rgt) / 2 - h, (top + bottom) / 2 - h,
   (lft + rgt) / 2 + h, (top + bottom) / 2 + h).

Definition inside_canvas (img_size : Z) (c : box) : Prop :=
  let '(cl, ct, cr, cb) := c in
  0 <= cl /\ 0 <= ct /\ cr <= img_size * 2 /\ cb <= img_size * 2.

(** Intersection of a box with the half-planes bounding the canvas. *)
Definition clamp (img_size : Z) (c : box) : box :=
  let '(cl, ct, cr, cb) := c in
  (Z.max 0 cl, Z.max 0 ct, Z.min (img_size * 2) cr, Z.min (img_size * 2) cb).

(** The crop-geometry statement as the specification words it: the region
    is the clamped square of half-extent max(w, h)/2 + size/10, its centre
    is the box's centre up to one pixel, and the half-extent is at least
    max(w, h)/2. *)
Definition crop_geometry_spec (img_size : Z) (bbox : box) : Prop :=
  let h := Z.max (width bbox) (height bbox) / 2 + img_size / 10 in
  crop_box img_size bbox = clamp img_size (square_around bbox h) /\
  inside_canvas img_size (crop_box img_size bbox) /\
  centers_within_one (crop_box img_size bbox) bbox /\
  Z.max (width bbox) (height bbox) / 2 <= h.

End Crop.

(** ** String operations used by the decoders *)

(** [s.split(sep)] for a one-character separator. *)
Fixpoint split (sep : N) (s : list N) : list (list N) :=
  match s with
  | [] => [[]]
  | c :: s' =>
      if (c =? sep)%N then [] :: split sep s'
      else match split sep s' with
           | part :: parts => (c :: part) :: parts
           | [] => [[c]]
           end
  end.

Fixpoint startswith (prefix s : list N) : bool :=
  match prefix, s with
  | [], _ => true
  | p :: prefix', c :: s' => (p =? c)%N && startswith prefix' s'
  | _ :: _, [] => false
  end.

(** [s.replace(old, new)] for a non-empty [old]: every non-overlapping
    occurrence, scanning from the left. [skip] counts the characters of a
    matched occurrence that remain to be passed over. *)
Fixpoint replace_from (old new : list N) (skip : nat) (s : list N) : list N :=
  match s with
  | [] => []
  | c :: s' =>
      match skip with
      | S k => replace_from old new k s'
      | O =>
          if startswith old s
          then new ++ replace_from old new (Nat.pred (length old)) s'
          else c :: replace_from old new O s'
      end
  end.

Definition replace (old new s : list N) : list N := replace_from old new O s.

(** The upper-case form of an ASCII character. *)
Definition upper_char (c : N) : N :=
  if ((97 <=? c) && (c <=? 122))%N then (c - 32)%N else c.

(** [s.upper()]: an ASCII string is mapped character by character; in any
    other string every character is replaced by its full upper-case
    mapping in the Unicode database, [ToUpperFull], which may be several
    characters long. *)
Definition upper (ToUpperFull : N -> list N) (s : list N) : list N :=
  if forallb (fun c => (c <? 128)%N) s then List.map upper_char s
  else List.concat (List.map ToUpperFull s).

Definition is_hex_digit (c : N) : bool :=
  (((48 <=? c) && (c <=? 57)) || ((65 <=? c) && (c <=? 70)) ||
   ((97 <=? c) && (c <=? 102)))%N.

(** ** The decoder of [decrypt_webpage_example] (source lines 264-279)

    Step 1 of the example (the extraction) is the argument [font_map]. *)

Definition decrypt_part (ToUpperFull : N -> list N)
    (font_map : gmap (list N) (list N)) (result part : list N) : list N :=
  match part with
  | [] => result                                   (* if not part: continue *)
  | _ =>
      let hex_code := replace (py "&#x") [] part in
      match hex_code with
      | [] => result                               (* if not hex_code: continue *)
      | _ =>
          let unicode_name := py "uni" ++ upper ToUpperFull hex_code in
          match font_map !! unicode_name with
          | Some text => result ++ text
          | None => result ++ py "?"
          end
      end
  end.

Definition decrypt_webpage_example (ToUpperFull : N -> list N)
    (font_map : gmap (list N) (list N)) (encrypted_text : list N) : list N :=
  fold_left (decrypt_part ToUpperFull font_map) (split 59%N encrypted_text) [].

(** A placeholder token [&#x<hex>;]. *)
Definition token (hex : list N) : list N := py "&#x" ++ hex ++ py ";".

(** What the decoder contract substitutes for one token. *)
Definition substitute (ToUpperFull : N -> list N)
    (font_map : gmap (list N) (list N)) (hex : list N) : list N :=
  match font_map !! (py "uni" ++ upper ToUpperFull hex) with
  | Some text => text
  | None => py "?"
  end.

(** ** The crawler's decryption helpers (script lines 32-71) *)

Module dongchedi.

Fixpoint change_price_loop (data_mapping : gmap N (list N))
    (original_price result : list N) : exn + list N :=
  match original_price with
  | [] => inr result
  | item :: rest =>
      if (item =? 46)%N                                 (* item == "." *)
      then change_price_loop data_mapping rest (result ++ [item])
      else match data_mapping !! item with
           | Some v => change_price_loop data_mapping rest (result ++ v)
           | None => inl (KeyError item)
           end
  end.

Definition change_price (original_price : list N)
    (data_mapping : gmap N (list N)) : exn + list N :=
  change_price_loop data_mapping original_price [].

Fixpoint change_sub_title_loop (data_mapping : gmap N (list N))
    (original_sub_title result : list N) : exn + list N :=
  match original_sub_title with
  | [] => inr result
  | i :: rest =>
      if ((i =? 46) || (i =? 124) || (i =? 32))%N       (* ".", "|", " " *)
      then change_sub_title_loop data_mapping rest (result ++ [i])
      else match data_mapping !! i with
           | Some v => change_sub_title_loop data_mapping rest (result ++ v)
           | None => inl (KeyError i)
           end
  end.

Definition change_sub_title (original_sub_title : list N)
    (data_mapping : gmap N (list N)) : exn + list N :=
  change_sub_title_loop data_mapping original_sub_title [].

End dongchedi.

(** ** PIL images

    An image value is the term of PIL operations that built it: PIL is
    deterministic, so two images are bit-identical when their terms are
    equal. The operations are total constructors; pixel contents are only
    observed through the parameters [getbbox] and [png] below. *)

Record FreeTypeFont := { ft_data : list N; ft_size : Z }.

Inductive Image :=
| Image_new (size : Z * Z) (color : Z)
    (* Image.new("1", size, color) *)
| Image_text (im : Image) (xy : Z * Z) (character : N) (font : FreeTypeFont)
    (* im after ImageDraw.Draw(im).text(xy, character, font=font, anchor="mm") *)
| Image_crop (im : Image) (box : Crop.box)
    (* im.crop(box) *)
| Image_resize (im : Image) (size : Z * Z).
    (* im.resize(size, Image.LANCZOS) *)

Fixpoint Image_size (im : Image) : Z * Z :=
  match im with
  | Image_new size _ => size
  | Image_text im _ _ _ => Image_size im
  | Image_crop _ (lft, top, rgt, bottom) => (rgt - lft, bottom - top)
  | Image_resize _ size => size
  end.

(** The blank bitmap of the blank-glyph branch. *)
Definition blank (img_size : Z) : Image := Image_new (img_size, img_size) 255.

(** ** File system

    A path names a node by its spelling (trailing slashes apart); the empty
    path is the working directory when it is used as a parent. Each file
    is taken to be reached under one spelling: components "." and "..",
    doubled slashes and links, which give one file several names, are not
    resolved. *)

Inductive node :=
| Dir
| File (data : list N).

Definition all_slashes (p : list N) : bool := forallb (N.eqb 47) p.

Fixpoint lstrip_slash (p : list N) : list N :=
  match p with
  | c :: p' => if (c =? 47)%N then lstrip_slash p' else p
  | [] => []
  end.

Definition rstrip_slash (p : list N) : list N := rev (lstrip_slash (rev p)).

(** The spelling under which a path is looked up. *)
Definition norm (p : list N) : list N :=
  if all_slashes p then p else rstrip_slash p.

(** [prefix] up to and including the last slash of the path read so far. *)
Fixpoint head_of (seen p : list N) (head : list N) : list N :=
  match p with
  | [] => head
  | c :: p' =>
      if (c =? 47)%N then head_of (seen ++ [c]) p' (seen ++ [c])
      else head_of (seen ++ [c]) p' head
  end.

(** [os.path.dirname] (posixpath). *)
Definition dirname (p : list N) : list N :=
  let head := head_of [] p [] in
  if all_slashes head then head else rstrip_slash head.

(** The proper ancestors of a path, nearest last; the root and the working
    directory are not listed. *)
Fixpoint ancestors_from (seen p : list N) : list (list N) :=
  match p with
  | [] => []
  | c :: p' =>
      let rest := ancestors_from (seen ++ [c]) p' in
      if (c =? 47)%N
      then match seen with
           | [] => rest
           | _ => norm seen :: rest
           end
      else rest
  end.

Definition ancestors (p : list N) : list (list N) := ancestors_from [] p.

(** [os.path.join(a, b)] (posixpath). *)
Definition join (a b : list N) : list N :=
  if startswith [47%N] b then b
  else match a with
       | [] => b
       | _ => if (List.last a 0 =? 47)%N then a ++ b else a ++ [47%N] ++ b
       end.

Definition is_file (n : option node) : bool :=
  match n with Some (File _) => true | _ => false end.

Section FileSystem.

Implicit Type fs : gmap (list N) node.

(** [os.path.exists]: a regular file is not found under a spelling that
    ends in a slash. *)
Definition path_exists fs (p : list N) : bool :=
  match fs !! norm p with
  | Some Dir => true
  | Some (File _) => bool_decide (norm p = p)
  | None => false
  end.

Definition is_dir fs (d : list N) : bool :=
  match d with
  | [] => true
  | _ => match fs !! d with Some Dir => true | _ => false end
  end.

(** [os.mkdir] along the [chain] of ancestors, outermost first, and then
    of [name] itself: a missing directory is created; below a file
    [os.mkdir] raises [NotADirectoryError]; an existing [name] raises
    [FileExistsError]. *)
Fixpoint mkdir_chain fs (chain : list (list N)) (name : list N)
  : exn + gmap (list N) node :=
  match chain with
  | [] =>
      match fs !! norm name with
      | Some _ => inl (FileExistsError name)
      | None => inr (<[norm name := Dir]> fs)
      end
  | d :: rest =>
      match fs !! d with
      | Some (File _) =>
          inl (NotADirectoryError (match rest with next :: _ => next | [] => name end))
      | Some Dir => mkdir_chain fs rest name
      | None => mkdir_chain (<[d := Dir]> fs) rest name
      end
  end.

(** [os.makedirs(name)]. *)
Definition makedirs fs (name : list N) : exn + gmap (list N) node :=
  mkdir_chain fs (ancestors (norm name)) name.

(** Writing [data] to the file at [p], as [Image.save(p, "PNG")] and
    [open(p, "wb")] do: the parent must be a directory and [p] must not
    be one; an existing file is overwritten. *)
Definition write_file fs (p : list N) (data : list N)
  : exn + gmap (list N) node :=
  if is_dir fs (dirname p)
  then match fs !! p with
       | Some Dir => inl (IsADirectoryError p)
       | _ => inr (<[p := File data]> fs)
       end
  else if is_file (fs !! dirname p) then inl (NotADirectoryError p)
  else inl (FileNotFoundError p).

End FileSystem.

(** ** Process state and the effect monad *)

(** The arguments of one [convert_cmap_to_image] call, the key of its memo
    table: (cmap_code, font_path, img_size). *)
Definition key : Type := Z * list N * Z.

Inductive log_record :=
| info_progress (idx total_chars : nat)
| info_done (total_chars : nat)
| warning (cmap_code : Z) (glyph_name : list N) (e : exn).

Record World := mkWorld {
  fs : gmap (list N) node;          (* the file system *)
  memo : list (key * Image);        (* lru_cache table, most recent first *)
  hits : nat;                       (* cache_info().hits *)
  misses : nat;                     (* cache_info().misses *)
  log : list log_record             (* what the logger has emitted *)
}.

Definition set_fs (f : gmap (list N) node) (w : World) : World :=
  mkWorld f (memo w) (hits w) (misses w) (log w).
Definition set_memo (m : list (key * Image)) (w : World) : World :=
  mkWorld (fs w) m (hits w) (misses w) (log w).
Definition add_hit (w : World) : World :=
  mkWorld (fs w) (memo w) (S (hits w)) (misses w) (log w).
Definition add_miss (w : World) : World :=
  mkWorld (fs w) (memo w) (hits w) (S (misses w)) (log w).
Definition emit (r : log_record) (w : World) : World :=
  mkWorld (fs w) (memo w) (hits w) (misses w) (log w ++ [r]).

(** A computation returns a value or raises, and leaves a new state either
    way: what was written before an exception stays written. *)
Definition M (A : Type) : Type := World -> (exn + A) * World.

Definition ret {A} (a : A) : M A := fun w => (inr a, w).
Definition raise {A} (e : exn) : M A := fun w => (inl e, w).
Definition bind {A B} (m : M A) (k : A -> M B) : M B :=
  fun w => match m w with
           | (inr a, w') => k a w'
           | (inl e, w') => (inl e, w')
           end.
Definition lift {A} (r : exn + A) : M A := fun w => (r, w).

Notation "'do' x <- m ; k" := (bind m (fun x => k))
  (at level 10, x name, m at level 100, k at level 200).
Notation "'run' m ; k" := (bind m (fun _ => k))
  (at level 10, m at level 100, k at level 200).

(** [image.save(path, "PNG")] for already encoded [data]. *)
Definition save (path data : list N) : M unit :=
  fun w => match write_file (fs w) path data with
           | inr f => (inr tt, set_fs f w)
           | inl e => (inl e, w)
           end.

(** [chr]. *)
Definition chr (n : Z) : exn + N :=
  if (n <? -2147483648) || (2147483647 <? n) then inl OverflowError
  else if (n <? 0) || (1114111 <? n) then inl (ValueError chr_out_of_range)
  else inr (Z.to_N n).

(** [ord]. *)
Definition ord (c : N) : Z := Z.of_N c.

(** ** The [lru_cache] table *)

Definition maxsize : nat := 128.

Definition key_eqb (a b : key) : bool := bool_decide (a = b).

Fixpoint cache_get (k : key) (table : list (key * Image)) : option Image :=
  match table with
  | [] => None
  | (k', v) :: rest => if key_eqb k k' then Some v else cache_get k rest
  end.

Fixpoint cache_remove (k : key) (table : list (key * Image)) : list (key * Image) :=
  match table with
  | [] => []
  | (k', v) :: rest => if key_eqb k k' then rest else (k', v) :: cache_remove k rest
  end.

(** A hit moves the entry to the most-recent end. *)
Definition cache_touch (k : key) (v : Image) (table : list (key * Image))
  : list (key * Image) :=
  (k, v) :: cache_remove k table.

(** A computed result is stored; a full table first drops its oldest entry. *)
Definition cache_store (k : key) (v : Image) (table : list (key * Image))
  : list (key * Image) :=
  if (maxsize <=? length table)%nat then (k, v) :: removelast table
  else (k, v) :: table.

(** [functools.lru_cache(maxsize=128)] around [f]: a result that was raised
    is not stored. *)
Definition lru_cache (f : key -> M Image) (k : key) : M Image :=
  fun w =>
    match cache_get k (memo w) with
    | Some result => (inr result, add_hit (set_memo (cache_touch k result (memo w)) w))
    | None =>
        match f k (add_miss w) with
        | (inr result, w') => (inr result, set_memo (cache_store k result (memo w')) w')
        | (inl e, w') => (inl e, w')
        end
    end.

(** ** [parse_woff_font.py]

    The external libraries are parameters: fontTools ([TTFont] and
    [getBestCmap] on the bytes of a font file), FreeType through PIL
    ([ImageFont.truetype], and [getbbox] on a drawn canvas), PIL's PNG
    encoder, and the OCR engine. *)

Record Library := {
  (** The error of [Image.new("1", size, 255)] for a size without a
      negative side, if it has one: [OverflowError] for a side beyond the
      range of a C int, the error of the library for a canvas that it
      cannot allocate. *)
  Image_new_error : Z * Z -> option exn;
  (** [TTFont(path).getBestCmap()] on the bytes of the file: raises, or
      returns the items of the best character map in iteration order, or
      [None] when the font has no Unicode subtable. *)
  TTFont_getBestCmap : list N -> exn + option (list (Z * list N));
  (** The error of [ImageFont.truetype(path, size)] on the bytes of the
      file, if it has one. *)
  ImageFont_truetype_error : list N -> Z -> option exn;
  (** [Image.getbbox]. *)
  getbbox : Image -> option Crop.box;
  (** The PNG encoding written by [Image.save(_, "PNG")]. *)
  png : Image -> list N;
  (** [ddddocr.DdddOcr(beta=True, show_ad=False)]: raises, or returns the
      engine, given by its [classification] method. *)
  DdddOcr : exn + (list N -> exn + list N)
}.

Section parse_woff_font.

Variable lib : Library.

Definition read_file (f : gmap (list N) node) (p : list N) : exn + list N :=
  match f !! norm p with
  | Some (File data) =>
      if bool_decide (norm p = p) then inr data else inl (NotADirectoryError p)
  | Some Dir => inl (IsADirectoryError p)
  | None => inl (FileNotFoundError p)
  end.

(** [Image.new("1", size, color)] refuses a negative side, and then the
    sizes the library cannot make a canvas of. *)
Definition new_image (size : Z * Z) (color : Z) : exn + Image :=
  if (fst size <? 0) || (snd size <? 0)
  then inl (ValueError negative_image_size)
  else match Image_new_error lib size with
       | Some e => inl e
       | None => inr (Image_new size color)
       end.

(** Source lines 50-53: any failure of [truetype] becomes a [ValueError]. *)
Definition truetype (f : gmap (list N) node) (font_path : list N) (img_size : Z)
  : exn + FreeTypeFont :=
  match read_file f font_path with
  | inl _ => inl (ValueError cannot_load_font)
  | inr data =>
      match ImageFont_truetype_error lib data img_size with
      | Some _ => inl (ValueError cannot_load_font)
      | None => inr {| ft_data := data; ft_size := img_size |}
      end
  end.

Definition imgs_path (cmap_code : Z) : list N :=
  py "./imgs/" ++ format_int cmap_code ++ py ".png".

(** Source lines 59-65: the character drawn at the centre of the canvas. *)
Definition draw_text (temp_img : Image) (temp_size : Z) (character : N)
    (font : FreeTypeFont) : Image :=
  let temp_center := temp_size / 2 in
  Image_text temp_img (temp_center, temp_center) character font.

(** Source lines 68-94. *)
Definition finish (img_size : Z) (temp_img : Image) : Image :=
  match getbbox lib temp_img with
  | Some bbox =>
      let cropped_img := Image_crop temp_img (Crop.crop_box img_size bbox) in
      Image_resize cropped_img (img_size, img_size)
  | None => Image_new (img_size, img_size) 255
  end.

(** The undecorated function (source lines 39-97). *)
Definition convert_cmap_to_image_body (k : key) : M Image :=
  let '(cmap_code, font_path, img_size) := k in
  fun w =>
    if negb (path_exists (fs w) font_path)
    then raise (FileNotFoundError font_path) w
    else if cmap_code <? 0
    then raise (ValueError (invalid_codepoint cmap_code)) w
    else
      (let temp_size := img_size * 2 in
       do temp_img <- lift (new_image (temp_size, temp_size) 255);
       do font <- lift (truetype (fs w) font_path img_size);
       do character <- lift (chr cmap_code);
       let temp_img := draw_text temp_img temp_size character font in
       let final_img := finish img_size temp_img in
       run save (imgs_path cmap_code) (png lib final_img);
       ret final_img) w.

(** [@lru_cache(maxsize=128)] (source line 22). *)
Definition convert_cmap_to_image (cmap_code : Z) (font_path : list N) (img_size : Z)
  : M Image :=
  lru_cache convert_cmap_to_image_body (cmap_code, font_path, img_size).

(** *** [extract_text_from_font] *)

Definition truthy (cache_dir : option (list N)) : option (list N) :=
  match cache_dir with
  | Some (c :: d) => Some (c :: d)
  | _ => None
  end.

Definition os_makedirs (name : list N) : M unit :=
  fun w => match makedirs (fs w) name with
           | inr f => (inr tt, set_fs f w)
           | inl e => (inl e, w)
           end.

(** Source lines 128-129. *)
Definition prepare_cache_dir (cache_dir : option (list N)) : M unit :=
  fun w =>
    match truthy cache_dir with
    | Some d => if negb (path_exists (fs w) d) then os_makedirs d w else ret tt w
    | None => ret tt w
    end.

(** Source lines 131-137: any failure of fontTools becomes a [ValueError]. *)
Definition load_cmap (f : gmap (list N) node) (font_path : list N)
  : exn + option (list (Z * list N)) :=
  match read_file f font_path with
  | inr data =>
      match TTFont_getBestCmap lib data with
      | inr cmap => inr cmap
      | inl _ => inl (ValueError cannot_parse_font)
      end
  | inl _ => inl (ValueError cannot_parse_font)
  end.

(** Source lines 124-143: everything before the loop. Returns the items
    of the character map and the engine's [classification]. *)
Definition prologue (font_path : list N) (cache_dir : option (list N))
  : M (list (Z * list N) * (list N -> exn + list N)) :=
  fun w =>
    if negb (path_exists (fs w) font_path)
    then raise (FileNotFoundError font_path) w
    else
      (run prepare_cache_dir cache_dir;
       do cmap <- (fun w' => (load_cmap (fs w') font_path, w'));
       do classification <- lift (DdddOcr lib);
       match cmap with
       | Some items => ret (items, classification)
       | None => raise TypeError                  (* len(None) *)
       end) w.

Definition cache_path (cache_dir : list N) (character : N) (glyph_name : list N)
  : list N :=
  join cache_dir (format_int (ord character) ++ py "_" ++ glyph_name ++ py ".png").

(** Source lines 154-158. *)
Definition cache_write (cache_dir : option (list N)) (cmap_code : Z)
    (glyph_name : list N) (image : Image) : M unit :=
  match truthy cache_dir with
  | Some d =>
      do character <- lift (chr cmap_code);
      fun w =>
        if negb (path_exists (fs w) (cache_path d character glyph_name))
        then save (cache_path d character glyph_name) (png lib image) w
        else ret tt w
  | None => ret tt
  end.

(** The body of the [try] (source lines 150-163); its value is [text]. *)
Definition try_entry (classification : list N -> exn + list N)
    (font_path : list N) (image_size : Z) (cache_dir : option (list N))
    (cmap_code : Z) (glyph_name : list N) : M (list N) :=
  do image <- convert_cmap_to_image cmap_code font_path image_size;
  run cache_write cache_dir cmap_code glyph_name image;
  lift (classification (png lib image)).

(** Source lines 146-147. *)
Definition progress (show_progress : bool) (total_chars idx : nat) (w : World)
  : World :=
  if show_progress && (idx mod (Nat.max 1 (total_chars / 10)) =? 0)%nat
  then emit (info_progress idx total_chars) w else w.

(** One iteration of the loop (source lines 146-170). *)
Definition iteration (classification : list N -> exn + list N)
    (font_path : list N) (image_size : Z) (show_progress : bool)
    (cache_dir : option (list N)) (total_chars idx : nat)
    (item : Z * list N) (st : gmap (list N) (list N) * World)
  : gmap (list N) (list N) * World :=
  let '(cmap_code, glyph_name) := item in
  let '(font_map, w) := st in
  let w := progress show_progress total_chars idx w in
  match try_entry classification font_path image_size cache_dir
                  cmap_code glyph_name w with
  | (inr text, w') => (<[glyph_name := text]> font_map, w')
  | (inl e, w') =>
      (<[glyph_name := []]> font_map, emit (warning cmap_code glyph_name e) w')
  end.

Fixpoint loop (classification : list N -> exn + list N)
    (font_path : list N) (image_size : Z) (show_progress : bool)
    (cache_dir : option (list N)) (total_chars idx : nat)
    (items : list (Z * list N)) (st : gmap (list N) (list N) * World)
  : gmap (list N) (list N) * World :=
  match items with
  | [] => st
  | item :: rest =>
      loop classification font_path image_size show_progress cache_dir
           total_chars (S idx) rest
           (iteration classification font_path image_size show_progress
                      cache_dir total_chars idx item st)
  end.

Definition extract_text_from_font (font_path : list N) (image_size : Z)
    (show_progress use_cache : bool) (cache_dir : option (list N))
  : M (gmap (list N) (list N)) :=
  do setup <- prologue font_path cache_dir;
  fun w =>
    let '(cmap, classification) := setup in
    let total_chars := length cmap in
    let '(font_map, w') :=
      loop classification font_path image_size show_progress cache_dir
           total_chars 0%nat cmap (∅, w) in
    let w' := if show_progress then emit (info_done total_chars) w' else w' in
    (inr font_map, w').

End parse_woff_font.


(** ** Vocabulary of the statements about the decoders *)

Section helper_vocabulary.

Variable data_mapping : gmap N (list N).

(** What one character contributes when its lookup succeeds. *)
Definition price_char (c : N) : list N :=
  if (c =? 46)%N then [c] else default [] (data_mapping !! c).

Definition sub_title_char (c : N) : list N :=
  if ((c =? 46) || (c =? 124) || (c =? 32))%N then [c]
  else default [] (data_mapping !! c).

(** The characters whose lookup raises. *)
Definition price_missing (c : N) : bool :=
  negb (c =? 46)%N && negb (bool_decide (is_Some (data_mapping !! c))).

Definition sub_title_missing (c : N) : bool :=
  negb ((c =? 46) || (c =? 124) || (c =? 32))%N
  && negb (bool_decide (is_Some (data_mapping !! c))).

End helper_vocabulary.

Definition outcome (missing : N -> bool) (char : N -> list N) (s acc : list N)
  : exn + list N :=
  match List.find missing s with
  | Some c => inl (KeyError c)
  | None => inr (acc ++ List.concat (List.map char s))
  end.

(** A non-empty run of hexadecimal digits. *)
Definition hex_ok (hex : list N) : Prop :=
  hex <> [] /\ forallb is_hex_digit hex = true.

Definition example_mapping : gmap (list N) (list N) :=
  <[py "uniE78C" := py "3"]> (<[py "uniE562" := py "5"]> ∅).


(** An upper-case mapping for the examples: the ASCII one. *)
Definition ascii_upper (c : N) : list N := [upper_char c].

(** ** Vocabulary of the statements about the rasteriser and the assembler *)

Section statements.

Variable lib : Library.

(** One call of the decorated rasteriser with the arguments [k]. *)
Definition call (k : key) : M Image :=
  lru_cache (convert_cmap_to_image_body lib) k.

(** The states a process can be in: the memo table starts empty and is
    only touched by calls of the decorated function; everything else
    (files, counters, log) may change in any way in between. *)
Inductive reachable : World -> Prop :=
| reachable_start w : memo w = [] -> reachable w
| reachable_call w k : reachable w -> reachable (snd (call k w))
| reachable_other w w' : reachable w -> memo w' = memo w -> reachable w'.

(** [between ks w w']: from [w] the process makes the calls [ks] in this
    order, with anything that leaves the memo table alone in between, and
    ends in [w']. *)
Inductive between : list key -> World -> World -> Prop :=
| between_done w : between [] w w
| between_call k ks w w' :
    between ks (snd (call k w)) w' -> between (k :: ks) w w'
| between_other ks w w1 w' :
    memo w1 = memo w -> between ks w1 w' -> between ks w w'.

(** The call [k] in [w] returns [img] without rendering anything: no new
    miss is counted and no file is written. *)
Definition served_from_memo (k : key) (img : Image) (w : World) : Prop :=
  fst (call k w) = inr img /\
  misses (snd (call k w)) = misses w /\
  fs (snd (call k w)) = fs w.

(** The memoization statement as the specification words it: whatever
    calls are made in between, a second call with the arguments of a
    first one is served from the memo table with the first bitmap. *)
Definition memoized_idempotence_spec (w0 : World) (k : key) (ks : list key)
  : Prop :=
  forall img w1 wn,
    call k w0 = (inr img, w1) -> between ks w1 wn -> served_from_memo k img wn.

(** Every entry of the memo table has the size its key asks for. *)
Definition memo_sized (table : list (key * Image)) : Prop :=
  Forall (fun e => Image_size (snd e) = (snd (fst e), snd (fst e))) table.

(** The keys more recently used than [k]. *)
Fixpoint newer (k : key) (table : list (key * Image)) : list key :=
  match table with
  | [] => []
  | (k', _) :: rest => if key_eqb k k' then [] else k' :: newer k rest
  end.

(** The entry of [k] holds [img], and every key used more recently than
    [k] is among [recent]. *)
Definition kept (k : key) (img : Image) (recent : list key) (w : World) : Prop :=
  cache_get k (memo w) = Some img /\
  NoDup (memo w).*1 /\
  (forall k', k' ∈ newer k (memo w) -> k' ∈ recent).




(** No character-map entry has been processed between [w] and [w']: the
    rasteriser was not called and nothing was logged. *)
Definition no_entry_processed (w w' : World) : Prop :=
  memo w' = memo w /\ hits w' = hits w /\ misses w' = misses w /\
  log w' = log w.

(** The arguments of a call are valid: the font file is there and loads
    at this size, the canvas of twice this size can be made, and the code
    point is a character. *)
Definition valid_call (k : key) (w : World) : Prop :=
  let '(cmap_code, font_path, img_size) := k in
  path_exists (fs w) font_path = true /\
  0 <= cmap_code <= 1114111 /\
  0 <= img_size /\
  Image_new_error lib (img_size * 2, img_size * 2) = None /\
  exists font, truetype lib (fs w) font_path img_size = inr font.

(** The value the assembler stores for an entry whose [try] ended in [r]. *)
Definition entry_text (r : exn + list N) : list N :=
  match r with
  | inr text => text
  | inl _ => []
  end.

End statements.

(** ** A small concrete library and file system, for the examples

    The font file "digits.ttf" maps 0xE001 to "uniE001"; "empty.ttf" parses
    but has no Unicode character map. The bounding box of the example
    library is that of the ink: every glyph but 0xE001 is blank. (PIL's own
    [getbbox] reports the whole canvas on a canvas filled with 255; the
    theorems hold for every library, this one included.) *)

Definition demo_getbbox (im : Image) : option Crop.box :=
  match im with
  | Image_text _ _ 57345%N _ => Some (6, 4, 10, 12)
  | _ => None
  end.

Definition demo_lib (ocr : exn + (list N -> exn + list N)) : Library := {|
  Image_new_error size :=
    if (2147483647 <? fst size) || (2147483647 <? snd size)
    then Some OverflowError else None;
  TTFont_getBestCmap data :=
    match data with
    | [1%N] => inr (Some [(57345, py "uniE001")])
    | [2%N] => inr None
    | _ => inl (LibraryError 0)
    end;
  ImageFont_truetype_error data size :=
    if size <=? 0 then Some (LibraryError 1) else None;
  getbbox := demo_getbbox;
  png im := [Z.to_N (fst (Image_size im)); Z.to_N (snd (Image_size im))];
  DdddOcr := ocr
|}.

Definition ocr_seven : exn + (list N -> exn + list N) :=
  inr (fun _ => inr (py "7")).
Definition ocr_raising : exn + (list N -> exn + list N) :=
  inr (fun _ => inl (LibraryError 2)).

Definition demo_fs : gmap (list N) node :=
  <[py "digits.ttf" := File [1%N]]>
    (<[py "empty.ttf" := File [2%N]]> (<[py "./imgs" := Dir]> ∅)).

(** A fresh process in a directory that has the fonts and "./imgs". *)
Definition demo_world : World := mkWorld demo_fs [] 0 0 [].

(** The same without the directory "./imgs". *)
Definition bare_world : World :=
  mkWorld (delete (py "./imgs") demo_fs) [] 0 0 [].

(** The same with an older file at the path of the bitmap of 0xE001. *)
Definition stale_world : World :=
  mkWorld (<[py "./imgs/57345.png" := File [9%N]]> demo_fs) [] 0 0 [].

(** The calls [ks] made one after the other. *)
Fixpoint calls (lib : Library) (ks : list key) (w : World) : World :=
  match ks with
  | [] => w
  | k :: ks => calls lib ks (snd (call lib k w))
  end.

(** 128 other glyphs of the same font at the same size. *)
Definition other_keys : list key :=
  List.map (fun c => (Z.of_nat c, py "digits.ttf", 8)) (seq 1 128).

(** The demo directory with a cache that already holds a file for
    (0xE001, "uniE001"). *)
Definition cached_world : World :=
  mkWorld (<[py "cache/57345_uniE001.png" := File [9%N]]>
             (<[py "cache" := Dir]> demo_fs)) [] 0 0 [].

From Stdlib Require DecimalZ.

(** ** Further vocabulary *)

(** The box [outer] covers the box [inner]. *)
Definition box_contains (outer inner : Crop.box) : Prop :=
  let '(ol, ot, or_, ob) := outer in
  let '(il, it, ir, ib) := inner in
  ol <= il /\ ot <= it /\ ir <= or_ /\ ib <= ob.

(** The warning logged for a failed entry. *)
Definition warning_of (failed : Z * list N * exn) : log_record :=
  warning (fst (fst failed)) (snd (fst failed)) (snd failed).

(** The components of a path, without the empty ones and without ".". *)
Definition components (p : list N) : list (list N) :=
  List.filter
    (fun c => negb (bool_decide (c = [])) && negb (bool_decide (c = py ".")))
    (split 47%N p).

(** A relative path that does not lead into the directory "imgs" of the
    working directory: it has no ".." and its first component is not
    "imgs". Such a path names no file "./imgs/<codepoint>.png", however
    that file is spelled. *)
Definition outside_imgs (p : list N) : bool :=
  negb (startswith [47%N] p)
  && forallb (fun c => negb (bool_decide (c = py ".."))) (components p)
  && match components p with
     | first :: _ => negb (bool_decide (first = py "imgs"))
     | [] => true
     end.

(** Every value of the mapping is the empty string. *)
Definition all_unrecognized (font_map : gmap (list N) (list N)) : Prop :=
  forall glyph_name text, font_map !! glyph_name = Some text -> text = [].

(** ** The crawler: [get_data_mapping] (script lines 13-29)

    [int(s, 16)] on a string, as CPython computes it: the string is first
    brought to ASCII ([_PyUnicode_TransformDecimalAndSpaceToASCII]: the
    white space and the decimal digits of other scripts become a space and
    an ASCII digit), and the ASCII text is then read by
    [PyLong_FromString]: optional white space around, an optional sign, an
    optional "0x" prefix, and hexadecimal digits that single underscores
    may separate. The Unicode database is a parameter. *)

Inductive py_error :=
| Exn (e : exn)                       (* an exception of the font module *)
| invalid_literal (s : list N).       (* ValueError: invalid literal for int() *)

Definition is_space (c : N) : bool := (((9 <=? c) && (c <=? 13)) || (c =? 32))%N.

Fixpoint lstrip_space (s : list N) : list N :=
  match s with
  | c :: s' => if is_space c then lstrip_space s' else s
  | [] => []
  end.

Definition hex_value (c : N) : option Z :=
  if ((48 <=? c) && (c <=? 57))%N then Some (Z.of_N c - 48)
  else if ((97 <=? c) && (c <=? 102))%N then Some (Z.of_N c - 87)
  else if ((65 <=? c) && (c <=? 70))%N then Some (Z.of_N c - 55)
  else None.

(** The digits of the literal: reads digits and underscores up to the first
    other character, and returns the value read and the rest; refuses a
    doubled or a closing underscore and a literal without digits. *)
Fixpoint scan16 (s : list N) (acc : Z) (prev_underscore : bool) (digits : nat)
  : option (Z * list N) :=
  let stop :=
    if prev_underscore then None
    else match digits with O => None | S _ => Some (acc, s) end in
  match s with
  | [] => stop
  | c :: s' =>
      if (c =? 95)%N
      then if prev_underscore then None else scan16 s' acc true digits
      else match hex_value c with
           | Some d => scan16 s' (acc * 16 + d) false (S digits)
           | None => stop
           end
  end.

Definition PyLong_FromString (s : list N) : option Z :=
  let body := lstrip_space s in
  let '(sign, body) :=
    match body with
    | c :: rest =>
        if (c =? 43)%N then (1, rest)                       (* "+" *)
        else if (c =? 45)%N then (-1, rest)                 (* "-" *)
        else (1, body)
    | [] => (1, body)
    end in
  let body :=
    match body with
    | zero :: x :: rest =>
        if ((zero =? 48) && ((x =? 120) || (x =? 88)))%N    (* "0x", "0X" *)
        then if startswith [95%N] rest then drop 1 rest else rest
        else body
    | _ => body
    end in
  if startswith [95%N] body then None
  else
    match scan16 body 0 false 0 with
    | Some (value, rest) =>
        match lstrip_space rest with
        | [] => Some (sign * value)
        | _ => None
        end
    | None => None
    end.

Definition chr' (n : Z) : py_error + N :=
  match chr n with
  | inr c => inr c
  | inl e => inl (Exn e)
  end.

Section get_data_mapping.

(** The white space and the decimal digits of Unicode. *)
Variable Py_UNICODE_ISSPACE : N -> bool.
Variable Py_UNICODE_TODECIMAL : N -> option N.

(** The loop of [_PyUnicode_TransformDecimalAndSpaceToASCII]: it stops at
    the first character that is neither, and leaves a "?" there. *)
Fixpoint transform (s : list N) : list N :=
  match s with
  | [] => []
  | ch :: rest =>
      if (ch <? 127)%N then ch :: transform rest
      else if Py_UNICODE_ISSPACE ch then 32%N :: transform rest
      else match Py_UNICODE_TODECIMAL ch with
           | Some decimal => (48 + decimal)%N :: transform rest
           | None => [63%N]
           end
  end.

(** An ASCII string is returned as it is. *)
Definition to_ascii (s : list N) : list N :=
  if forallb (fun ch => (ch <? 128)%N) s then s else transform s.

Definition int16 (s : list N) : py_error + Z :=
  match PyLong_FromString (to_ascii s) with
  | Some n => inr n
  | None => inl (invalid_literal s)
  end.

(** The loop of [get_data_mapping] over [items], the items of the mapping
    that [extract_text_from_font] returned, in the order of the [dict]. *)
Fixpoint get_data_mapping_loop (items : list (list N * list N))
    (data_mapping : gmap N (list N)) : py_error + gmap N (list N) :=
  match items with
  | [] => inr data_mapping
  | (key, value) :: rest =>
      match int16 (drop 3 key) with
      | inl e => inl e
      | inr n =>
          match chr' n with
          | inl e => inl e
          | inr c => get_data_mapping_loop rest (<[c := value]> data_mapping)
          end
      end
  end.

Definition get_data_mapping (items : list (list N * list N))
  : py_error + gmap N (list N) :=
  get_data_mapping_loop items ∅.

End get_data_mapping.

(** A Unicode database without white space or digits beyond ASCII. *)
Definition no_space (ch : N) : bool := false.
Definition no_decimal (ch : N) : option N := None.

(** *** Vocabulary *)

(** The number a run of hexadecimal digits denotes. *)
Definition hex_number (hex : list N) : Z :=
  fold_left (fun acc c => acc * 16 + default 0 (hex_value c)) hex 0.

Definition is_upper_hex (c : N) : bool :=
  (((48 <=? c) && (c <=? 57)) || ((65 <=? c) && (c <=? 70)))%N.

(** A glyph identifier "uniXXXX": the prefix and four upper-case
    hexadecimal digits. *)
Definition uni_name (key : list N) : bool :=
  startswith (py "uni") key
  && (length (drop 3 key) =? 4)%nat
  && forallb is_upper_hex (drop 3 key).

(** The character a glyph identifier "uniXXXX" stands for. *)
Definition uni_char (key : list N) : N := Z.to_N (hex_number (drop 3 key)).

(** The characters [int(_, 16)] can read. *)
Definition literal_char (c : N) : bool :=
  is_hex_digit c || is_space c || (c =? 95)%N || (c =? 43)%N || (c =? 45)%N
  || (c =? 120)%N || (c =? 88)%N.

(** The mapping after the assignments for [items], when none of them raises. *)
Definition rekeyed (items : list (list N * list N)) (data_mapping : gmap N (list N))
  : gmap N (list N) :=
  fold_left (fun m kv => <[uni_char (fst kv) := snd kv]> m) items data_mapping.

(** The placeholder "&#xXXXX;" of the glyph "uniXXXX". *)
Definition entity (key : list N) : list N := token (drop 3 key).

(** ** The crawler: the loop of [get_data_list] (script lines 202-218)

    The request is outside the model: [records] is the list
    [response.json()['data']['search_sh_sku_info_list']]. A record is a
    JSON object, of which the loop reads five keys; a key the object lacks
    is [None]. The three encoded values are strings; the other two are
    passed on as they are, whatever JSON values they are. *)

Record sku (V S : Type) := mk_sku {
  title : V;
  sub_title : S;
  transfer_cnt : V;
  official_price : S;
  sh_price : S
}.

Arguments mk_sku {V S}.
Arguments title {V S}.
Arguments sub_title {V S}.
Arguments transfer_cnt {V S}.
Arguments official_price {V S}.
Arguments sh_price {V S}.

Inductive crawl_error :=
| KeyError_str (key : list N)          (* data[key] on an object without key *)
| Raised (e : exn).                    (* the KeyError of a helper *)

(** [data[key]]. *)
Definition getitem {A} (key : list N) (v : option A) : crawl_error + A :=
  match v with
  | Some a => inr a
  | None => inl (KeyError_str key)
  end.

Definition helper {A} (r : exn + A) : crawl_error + A :=
  match r with
  | inr a => inr a
  | inl e => inl (Raised e)
  end.

Section get_data_list.

Variable J : Type.                     (* the JSON values *)
Variable data_mapping : gmap N (list N).

(** The body of the loop: the record appended for [data]. *)
Definition decoded_record (data : sku (option J) (option (list N)))
  : crawl_error + sku J (list N) :=
  match getitem (py "title") (title data) with
  | inl e => inl e
  | inr title' =>
  match getitem (py "sub_title") (sub_title data) with
  | inl e => inl e
  | inr s =>
  match helper (dongchedi.change_sub_title s data_mapping) with
  | inl e => inl e
  | inr sub_title' =>
  match getitem (py "transfer_cnt") (transfer_cnt data) with
  | inl e => inl e
  | inr transfer_cnt' =>
  match getitem (py "official_price") (official_price data) with
  | inl e => inl e
  | inr s =>
  match helper (dongchedi.change_price s data_mapping) with
  | inl e => inl e
  | inr official_price' =>
  match getitem (py "sh_price") (sh_price data) with
  | inl e => inl e
  | inr s =>
  match helper (dongchedi.change_price s data_mapping) with
  | inl e => inl e
  | inr sh_price' =>
      inr (mk_sku title' sub_title' transfer_cnt' official_price' sh_price')
  end end end end end end end end.

Fixpoint get_data_list_loop (records : list (sku (option J) (option (list N))))
    (data_list : list (sku J (list N))) : crawl_error + list (sku J (list N)) :=
  match records with
  | [] => inr data_list
  | data :: rest =>
      match decoded_record data with
      | inl e => inl e
      | inr record => get_data_list_loop rest (data_list ++ [record])
      end
  end.

(** *** Vocabulary *)

(** Every character of [s] is one the helper keeps or one of the mapping. *)
Definition decodable (kept : list N) (s : option (list N)) : Prop :=
  exists text, s = Some text /\
    forall c, c ∈ text -> c ∈ kept \/ is_Some (data_mapping !! c).

(** A record with its five keys and nothing the mapping lacks. *)
Definition readable (data : sku (option J) (option (list N))) : Prop :=
  is_Some (title data) /\ is_Some (transfer_cnt data) /\
  decodable [46; 124; 32]%N (sub_title data) /\
  decodable [46%N] (official_price data) /\
  decodable [46%N] (sh_price data).

(** The two values of [data] that the loop passes on are those of [record]. *)
Definition passed_on (data : sku (option J) (option (list N)))
    (record : sku J (list N)) : Prop :=
  title data = Some (title record) /\
  transfer_cnt data = Some (transfer_cnt record).

End get_data_list.

(** ** [get_font_info] (source lines 178-202)

    A record of the font's name table, as the loop reads it. *)

Record NameRecord := {
  isUnicode : bool;
  nameID : Z;
  toUnicode : exn + list N
}.

Section get_font_info.

Variable lib : Library.

(** [TTFont(path)] on the bytes of the file, followed by the test
    ['name' in font] and [font['name'].names]: raises, or returns [None]
    for a font without a name table, or the records of the table. *)
Variable TTFont_names : list N -> exn + option (list NameRecord).

(** Source lines 191-196. *)
Fixpoint names_loop (names : list NameRecord) (font_info : gmap Z (list N))
  : exn + gmap Z (list N) :=
  match names with
  | [] => inr font_info
  | record :: rest =>
      if isUnicode record
      then match toUnicode record with
           | inr value => names_loop rest (<[nameID record := value]> font_info)
           | inl e => inl e
           end
      else names_loop rest font_info
  end.

Definition get_font_info (f : gmap (list N) node) (font_path : list N)
  : exn + (gmap Z (list N) * option (list (Z * list N))) :=
  match read_file f font_path with
  | inl e => inl e
  | inr data =>
      match TTFont_names data with
      | inl e => inl e
      | inr names =>
          match names_loop (default [] names) ∅ with
          | inl e => inl e
          | inr font_info =>
              match TTFont_getBestCmap lib data with
              | inl e => inl e
              | inr cmap => inr (font_info, cmap)
              end
          end
      end
  end.

End get_font_info.

(** The texts of the Unicode records of [names] that carry [id], in the
    order of the table. *)
Definition unicode_values (id : Z) (names : list NameRecord)
  : list (exn + list N) :=
  toUnicode <$> List.filter (fun r => isUnicode r && (nameID r =? id)) names.

(** A name table with two Unicode records and one other record for the
    name 1. *)
Definition demo_names (data : list N) : exn + option (list NameRecord) :=
  inr (Some [ {| isUnicode := true; nameID := 1; toUnicode := inr (py "Old") |};
              {| isUnicode := true; nameID := 1; toUnicode := inr (py "New") |};
              {| isUnicode := false; nameID := 1;
                 toUnicode := inl (LibraryError 3) |} ]).

(** The state [w] with the log [l] in place of its own. *)
Definition with_log (l : list log_record) (w : World) : World :=
  mkWorld (fs w) (memo w) (hits w) (misses w) l.
(** * Properties *)

(** ** Crop geometry *)

Section crop_facts.

Import Crop.

Lemma floor_center_near (a b : Z) : 0 <= (a + b) - 2 * ((a + b) / 2) <= 1.
Proof.
  pose proof (Z.div_mod (a + b) 2 ltac:(lia)).
  pose proof (Z.mod_pos_bound (a + b) 2 ltac:(lia)). lia.
Qed.

Lemma crop_box_is_clamped_square (img_size : Z) (bbox : box) :
  crop_box img_size bbox
  = clamp img_size
      (square_around bbox (Z.max (width bbox) (height bbox) / 2 + img_size / 10)).
Proof. destruct bbox as [[[l t] r] b]. reflexivity. Qed.

Lemma clamp_inside (img_size : Z) (c : box) :
  inside_canvas img_size c -> clamp img_size c = c.
Proof.
  destruct c as [[[cl ct] cr] cb]. simpl. intros (? & ? & ? & ?).
  rewrite !Z.max_r, !Z.min_r by lia. reflexivity.
Qed.

Lemma clamp_is_inside (img_size : Z) (c : box) :
  inside_canvas img_size (clamp img_size c).
Proof. destruct c as [[[cl ct] cr] cb]. simpl. lia. Qed.

Lemma half_size_lower_bound (img_size : Z) (bbox : box) :
  0 <= img_size ->
  Z.max (width bbox) (height bbox) / 2
  <= Z.max (width bbox) (height bbox) / 2 + img_size / 10.
Proof. intros. pose proof (Z.div_pos img_size 10). lia. Qed.

Lemma square_center_near (bbox : box) (h : Z) :
  centers_within_one (square_around bbox h) bbox.
Proof.
  destruct bbox as [[[l t] r] b]. simpl.
  pose proof (floor_center_near l r). pose proof (floor_center_near t b).
  lia.
Qed.

(** C6, the statement as written fails: a tall glyph at the left edge of
    a 200-pixel canvas is clamped on the left only, and the centre of the
    crop region lies 27 pixels from the centre of the box. *)
Lemma crop_center_shifts_when_clamped :
  on_canvas 100 (0, 0, 10, 100) /\ ~ crop_geometry_spec 100 (0, 0, 10, 100).
Proof.
  split.
  - unfold on_canvas. lia.
  - intros (_ & _ & Hc & _). vm_compute in Hc. destruct Hc as [Hx _].
    apply Hx. reflexivity.
Qed.

(** C6 (amended): for a non-empty bounding box on the canvas, the crop
    region is the square of half-extent max(w, h)//2 + size//10 around
    the rounded centre of the box, intersected with the canvas; the
    half-extent is at least max(w, h)//2; and whenever that square lies
    inside the canvas, the region is the square itself and its centre is
    the box's centre up to one pixel. *)
Theorem crop_geometry (img_size : Z) (bbox : box) :
  on_canvas img_size bbox ->
  let h := Z.max (width bbox) (height bbox) / 2 + img_size / 10 in
  crop_box img_size bbox = clamp img_size (square_around bbox h) /\
  inside_canvas img_size (crop_box img_size bbox) /\
  Z.max (width bbox) (height bbox) / 2 <= h /\
  (inside_canvas img_size (square_around bbox h) ->
   crop_box img_size bbox = square_around bbox h /\
   centers_within_one (crop_box img_size bbox) bbox).
Proof.
  intros Hb h. rewrite crop_box_is_clamped_square. fold h.
  split; [reflexivity|]. split; [apply clamp_is_inside|]. split.
  - apply half_size_lower_bound.
    destruct bbox as [[[l t] r] b]. simpl in Hb. lia.
  - intros Hin. rewrite (clamp_inside _ _ Hin).
    split; [reflexivity | apply square_center_near].
Qed.

Lemma crop_geometry_witness :
  on_canvas 100 (90, 80, 110, 120) /\
  crop_box 100 (90, 80, 110, 120) = (70, 70, 130, 130) /\
  centers_within_one (crop_box 100 (90, 80, 110, 120)) (90, 80, 110, 120).
Proof.
  assert (H : on_canvas 100 (90, 80, 110, 120)) by (unfold on_canvas; lia).
  split; [exact H|].
  destruct (crop_geometry 100 (90, 80, 110, 120) H) as (_ & _ & _ & Hc).
  destruct Hc as [Heq Hnear]; [vm_compute; intuition discriminate|].
  split; [exact Heq | exact Hnear].
Defined.

End crop_facts.

(** ** The crawler's decryption helpers *)

Section helper_facts.

Import dongchedi.

Variable data_mapping : gmap N (list N).

Lemma change_price_loop_outcome (s acc : list N) :
  change_price_loop data_mapping s acc = outcome (price_missing data_mapping) (price_char data_mapping) s acc.
Proof.
  revert acc. induction s as [|c s IH]; intros acc; unfold outcome; simpl.
  - by rewrite app_nil_r.
  - unfold price_missing at 1, price_char at 1.
    destruct (c =? 46)%N eqn:Hdot; simpl.
    + rewrite IH. unfold outcome. destruct (List.find _ s); [done|].
      by rewrite <- app_assoc.
    + destruct (data_mapping !! c) as [v|] eqn:Hc; simpl.
      * rewrite IH. unfold outcome. destruct (List.find _ s); [done|].
        by rewrite <- app_assoc.
      * done.
Qed.

Lemma change_sub_title_loop_outcome (s acc : list N) :
  change_sub_title_loop data_mapping s acc
  = outcome (sub_title_missing data_mapping) (sub_title_char data_mapping) s acc.
Proof.
  revert acc. induction s as [|c s IH]; intros acc; unfold outcome; simpl.
  - by rewrite app_nil_r.
  - unfold sub_title_missing at 1, sub_title_char at 1.
    destruct ((c =? 46) || (c =? 124) || (c =? 32))%N eqn:Hkeep; simpl.
    + rewrite IH. unfold outcome. destruct (List.find _ s); [done|].
      by rewrite <- app_assoc.
    + destruct (data_mapping !! c) as [v|] eqn:Hc; simpl.
      * rewrite IH. unfold outcome. destruct (List.find _ s); [done|].
        by rewrite <- app_assoc.
      * done.
Qed.

(** C10: [change_price] copies "." and replaces every other character by
    its entry of the mapping; [change_sub_title] does the same and also
    copies "|" and " ". Neither has a fallback: the first character that
    is to be replaced and is absent from the mapping raises [KeyError]
    for that character. *)
Theorem helpers_have_no_fallback (s : list N) :
  change_price s data_mapping
  = match List.find (price_missing data_mapping) s with
    | Some c => inl (KeyError c)
    | None => inr (List.concat (List.map (price_char data_mapping) s))
    end
  /\
  change_sub_title s data_mapping
  = match List.find (sub_title_missing data_mapping) s with
    | Some c => inl (KeyError c)
    | None => inr (List.concat (List.map (sub_title_char data_mapping) s))
    end.
Proof.
  split.
  - unfold change_price. by rewrite change_price_loop_outcome.
  - unfold change_sub_title. by rewrite change_sub_title_loop_outcome.
Qed.

End helper_facts.

(** ** The decoder *)

Section decoder_facts.

Variable ToUpperFull : N -> list N.
Variable font_map : gmap (list N) (list N).

Lemma hex_digit_ascii (c : N) : is_hex_digit c = true -> (c <? 128)%N = true.
Proof.
  unfold is_hex_digit. intros H. apply N.ltb_lt.
  apply orb_prop in H as [H|H]; [apply orb_prop in H as [H|H]|];
    apply andb_prop in H as [_ H]; apply N.leb_le in H; lia.
Qed.

Lemma hex_ascii (hex : list N) :
  forallb is_hex_digit hex = true ->
  forallb (fun c => (c <? 128)%N) hex = true.
Proof.
  induction hex as [|c hex IH]; [done|]. cbn [forallb]. intros H.
  apply andb_prop in H as [Hc Hh]. by rewrite (hex_digit_ascii c Hc), IH.
Qed.

(** On hexadecimal digits [upper] is the ASCII mapping. *)
Lemma upper_hex (hex : list N) :
  forallb is_hex_digit hex = true ->
  upper ToUpperFull hex = List.map upper_char hex.
Proof. intros H. unfold upper. by rewrite (hex_ascii hex H). Qed.

Lemma split_part (sep : N) (part rest : list N) :
  forallb (fun c => negb (c =? sep)%N) part = true ->
  split sep (part ++ sep :: rest) = part :: split sep rest.
Proof.
  induction part as [|c part IH]; simpl; intros H.
  - by rewrite N.eqb_refl.
  - apply andb_prop in H as [Hc Hp]. rewrite IH by done.
    destruct (c =? sep)%N; [discriminate | done].
Qed.


Lemma replace_absent (old new s : list N) (c0 : N) :
  startswith [c0] old = true ->
  forallb (fun c => negb (c =? c0)%N) s = true ->
  replace_from old new O s = s.
Proof.
  intros Hold. induction s as [|c s IH]; simpl; [done|].
  intros H. apply andb_prop in H as [Hc Hs].
  destruct old as [|o old]; [discriminate|]. simpl in Hold |- *.
  rewrite andb_true_r in Hold. apply N.eqb_eq in Hold. subst o.
  rewrite N.eqb_sym in Hc. destruct (c0 =? c)%N; [discriminate|].
  simpl. by rewrite IH.
Qed.

Lemma hex_digit_plain (c : N) :
  is_hex_digit c = true -> negb (c =? 59)%N = true /\ negb (c =? 38)%N = true.
Proof.
  unfold is_hex_digit. intros H.
  destruct (N.eqb_spec c 59) as [->|_]; [discriminate|].
  destruct (N.eqb_spec c 38) as [->|_]; [discriminate|]. done.
Qed.

Lemma hex_plain (hex : list N) :
  forallb is_hex_digit hex = true ->
  forallb (fun c => negb (c =? 59)%N) hex = true /\
  forallb (fun c => negb (c =? 38)%N) hex = true.
Proof.
  induction hex as [|c hex IH]; simpl; [done|].
  intros H. apply andb_prop in H as [Hc Hh].
  destruct (hex_digit_plain c Hc) as [-> ->]. by apply IH.
Qed.

Lemma split_token (hex rest : list N) :
  forallb is_hex_digit hex = true ->
  split 59%N (token hex ++ rest) = (py "&#x" ++ hex) :: split 59%N rest.
Proof.
  intros Hh. destruct (hex_plain hex Hh) as [Hsemi _].
  unfold token. replace (py ";") with [59%N] by reflexivity.
  rewrite app_assoc, <- (app_assoc _ [59%N] rest). cbn [app].
  apply split_part. rewrite forallb_app, Hsemi. reflexivity.
Qed.

Lemma decrypt_part_token (result hex : list N) :
  hex_ok hex ->
  decrypt_part ToUpperFull font_map result (py "&#x" ++ hex)
  = result ++ substitute ToUpperFull font_map hex.
Proof.
  intros [Hne Hhex]. destruct (hex_plain hex Hhex) as [_ Hamp].
  unfold decrypt_part, replace, substitute. py_eval. simpl.
  rewrite (replace_absent _ _ hex 38%N) by done.
  destruct hex as [|c hex]; [done|].
  by destruct (font_map !! _).
Qed.

Lemma decrypt_tokens (hexes : list (list N)) (result : list N) :
  Forall hex_ok hexes ->
  fold_left (decrypt_part ToUpperFull font_map)
            (split 59%N (List.concat (List.map token hexes))) result
  = result ++ List.concat (List.map (substitute ToUpperFull font_map) hexes).
Proof.
  intros H. revert result. induction H as [|hex hexes Hhex _ IH]; intros result.
  - simpl. by rewrite app_nil_r.
  - cbn [List.map List.concat]. rewrite split_token by apply Hhex.
    cbn [fold_left]. rewrite decrypt_part_token by done.
    rewrite IH. by rewrite <- app_assoc.
Qed.

End decoder_facts.



(** ** Paths *)

(** Refutes membership of a character in a literal. *)
Ltac not_in_literal H :=
  repeat (apply elem_of_cons in H as [H|H]; [discriminate H|]);
  by apply elem_of_nil in H.

Section path_facts.

Lemma uint_chars_digits (u : Decimal.uint) :
  Forall (fun c => is_digit c = true) (uint_chars u).
Proof. induction u; simpl; constructor; done. Qed.

Lemma format_int_chars (n : Z) :
  Forall (fun c => is_digit c = true \/ c = 45%N) (format_int n).
Proof.
  unfold format_int. destruct (Z.to_int n) as [u|u].
  - eapply Forall_impl; [apply uint_chars_digits|]. intros c Hc. by left.
  - constructor; [by right|].
    eapply Forall_impl; [apply uint_chars_digits|]. intros c Hc. by left.
Qed.

(** A decimal number has no slash and no underscore in it. *)
Lemma format_int_plain (n : Z) (c : N) :
  c ∈ format_int n -> c <> 47%N /\ c <> 95%N.
Proof.
  intros Hin. pose proof (format_int_chars n) as H.
  rewrite Forall_forall in H. destruct (H c Hin) as [Hd | ->]; [|done].
  unfold is_digit in Hd. apply andb_prop in Hd as [H1 H2].
  apply N.leb_le in H1, H2. lia.
Qed.

Lemma head_of_no_slash (p seen head : list N) :
  47%N ∉ p -> head_of seen p head = head.
Proof.
  revert seen. induction p as [|c p IH]; intros seen Hp; simpl; [done|].
  apply not_elem_of_cons in Hp as [Hc Hp].
  destruct (N.eqb_spec c 47) as [->|_]; [done|]. by apply IH.
Qed.

Lemma imgs_path_eq (cmap_code : Z) :
  imgs_path cmap_code
  = [46; 47; 105; 109; 103; 115; 47]%N ++ format_int cmap_code ++ [46; 112; 110; 103]%N.
Proof. reflexivity. Qed.

Lemma dirname_imgs_path (cmap_code : Z) :
  dirname (imgs_path cmap_code) = py "./imgs".
Proof.
  rewrite imgs_path_eq. unfold dirname. cbn [app head_of N.eqb Pos.eqb].
  rewrite head_of_no_slash; [reflexivity|].
  intros Hin. apply elem_of_app in Hin as [Hin|Hin].
  - by apply format_int_plain in Hin as [? _].
  - not_in_literal Hin.
Qed.

Lemma imgs_path_no_underscore (cmap_code : Z) : 95%N ∉ imgs_path cmap_code.
Proof.
  rewrite imgs_path_eq. intros Hin.
  apply elem_of_app in Hin as [Hin|Hin]; [not_in_literal Hin|].
  apply elem_of_app in Hin as [Hin|Hin]; [|not_in_literal Hin].
  by apply format_int_plain in Hin as [_ ?].
Qed.

End path_facts.

(** ** The rasteriser *)

Section render_facts.

Variable lib : Library.

Lemma finish_size (img_size : Z) (temp_img : Image) :
  Image_size (finish lib img_size temp_img) = (img_size, img_size).
Proof. unfold finish. by destruct (getbbox lib temp_img). Qed.

Lemma finish_blank (img_size : Z) (temp_img : Image) :
  getbbox lib temp_img = None -> finish lib img_size temp_img = blank img_size.
Proof. unfold finish. by intros ->. Qed.

(** A call of the undecorated function either raises and leaves the state
    as it was, or returns [finish _ _] of some canvas after writing its
    encoding to the fixed path. *)
Lemma body_cases (cmap_code : Z) (font_path : list N) (img_size : Z) (w : World) :
  (exists e, convert_cmap_to_image_body lib (cmap_code, font_path, img_size) w
             = (inl e, w)) \/
  (exists temp_img f,
     write_file (fs w) (imgs_path cmap_code)
                (png lib (finish lib img_size temp_img)) = inr f /\
     convert_cmap_to_image_body lib (cmap_code, font_path, img_size) w
     = (inr (finish lib img_size temp_img), set_fs f w)).
Proof.
  unfold convert_cmap_to_image_body.
  destruct (negb (path_exists (fs w) font_path)); [left; eexists; reflexivity|].
  destruct (cmap_code <? 0); [left; eexists; reflexivity|].
  unfold bind, lift, ret, save.
  destruct (new_image lib _ 255) as [e|temp_img]; [left; eexists; reflexivity|].
  destruct (truetype lib (fs w) font_path img_size) as [e|font];
    [left; eexists; reflexivity|].
  destruct (chr cmap_code) as [e|character]; [left; eexists; reflexivity|].
  destruct (write_file _ _ _) as [e|f] eqn:Hw; [left; eexists; reflexivity|].
  right. eexists _, f. split; [exact Hw | reflexivity].
Qed.

Lemma body_valid (cmap_code : Z) (font_path : list N) (img_size : Z)
    (w : World) (font : FreeTypeFont) :
  path_exists (fs w) font_path = true ->
  0 <= cmap_code <= 1114111 ->
  0 <= img_size ->
  Image_new_error lib (img_size * 2, img_size * 2) = None ->
  truetype lib (fs w) font_path img_size = inr font ->
  let temp_size := img_size * 2 in
  let temp_img :=
    draw_text (Image_new (temp_size, temp_size) 255) temp_size
              (Z.to_N cmap_code) font in
  let final_img := finish lib img_size temp_img in
  convert_cmap_to_image_body lib (cmap_code, font_path, img_size) w
  = match write_file (fs w) (imgs_path cmap_code) (png lib final_img) with
    | inr f => (inr final_img, set_fs f w)
    | inl e => (inl e, w)
    end.
Proof.
  intros Hex Hc Hs Hnew Hf. unfold convert_cmap_to_image_body.
  rewrite Hex. cbn [negb].
  destruct (Z.ltb_spec cmap_code 0) as [|_]; [lia|].
  unfold bind, lift, ret, save, new_image, chr. cbn [fst snd].
  destruct (Z.ltb_spec (img_size * 2) 0) as [|_]; [lia|]. cbn [orb].
  rewrite Hnew, Hf.
  destruct (Z.ltb_spec cmap_code (-2147483648)) as [|_]; [lia|].
  destruct (Z.ltb_spec 2147483647 cmap_code) as [|_]; [lia|]. cbn [orb].
  destruct (Z.ltb_spec cmap_code 0) as [|_]; [lia|].
  destruct (Z.ltb_spec 1114111 cmap_code) as [|_]; [lia|]. cbn [orb].
  by destruct (write_file _ _ _).
Qed.

Lemma write_file_needs_parent (f : gmap (list N) node) (p data : list N) :
  dirname p <> [] -> f !! dirname p <> Some Dir ->
  exists e, write_file f p data = inl e.
Proof.
  intros Hne Hd. unfold write_file, is_dir.
  destruct (dirname p) as [|c d]; [done|].
  destruct (f !! (c :: d)) as [[|?]|]; [done| |]; cbn [is_file].
  all: eexists; reflexivity.
Qed.

Lemma write_file_no_parent (f : gmap (list N) node) (p data : list N) :
  dirname p <> [] -> f !! dirname p = None ->
  write_file f p data = inl (FileNotFoundError p).
Proof.
  intros Hne Hd. unfold write_file, is_dir.
  destruct (dirname p) as [|c d]; [done|]. by rewrite Hd.
Qed.

Lemma write_file_ok (f f' : gmap (list N) node) (p data : list N) :
  write_file f p data = inr f' -> f' = <[p := File data]> f.
Proof.
  unfold write_file. destruct (is_dir f (dirname p)).
  - destruct (f !! p) as [[|?]|]; congruence.
  - by destruct (is_file _).
Qed.

End render_facts.

(** ** The memo table *)

Section lru_facts.

Variable lib : Library.

Lemma key_eqb_eq (a b : key) : key_eqb a b = true <-> a = b.
Proof. unfold key_eqb. apply bool_decide_eq_true. Qed.

Lemma key_eqb_refl (a : key) : key_eqb a a = true.
Proof. by apply key_eqb_eq. Qed.

Lemma key_eqb_neq (a b : key) : a <> b -> key_eqb a b = false.
Proof. unfold key_eqb. apply bool_decide_eq_false_2. Qed.

Lemma call_hit (k : key) (w : World) (img : Image) :
  cache_get k (memo w) = Some img ->
  call lib k w = (inr img, add_hit (set_memo (cache_touch k img (memo w)) w)).
Proof. unfold call, lru_cache. by intros ->. Qed.

Lemma call_miss (k : key) (w : World) :
  cache_get k (memo w) = None ->
  call lib k w
  = match convert_cmap_to_image_body lib k (add_miss w) with
    | (inr result, w') =>
        (inr result, set_memo (cache_store k result (memo w')) w')
    | (inl e, w') => (inl e, w')
    end.
Proof. unfold call, lru_cache. by intros ->. Qed.

(** What a call does to the state, case by case. *)
Lemma call_cases (k : key) (w : World) :
  (exists img, cache_get k (memo w) = Some img /\
     call lib k w = (inr img, add_hit (set_memo (cache_touch k img (memo w)) w))) \/
  (exists e, cache_get k (memo w) = None /\ call lib k w = (inl e, add_miss w)) \/
  (exists temp_img f,
     let img := finish lib (snd k) temp_img in
     cache_get k (memo w) = None /\
     write_file (fs w) (imgs_path (fst (fst k))) (png lib img) = inr f /\
     call lib k w
     = (inr img, set_memo (cache_store k img (memo w)) (set_fs f (add_miss w)))).
Proof.
  destruct (cache_get k (memo w)) as [img|] eqn:Hget.
  - left. exists img. split; [done|]. by apply call_hit.
  - right. rewrite (call_miss _ _ Hget). destruct k as [[c p] s].
    destruct (body_cases lib c p s (add_miss w)) as [[e ->]|(t & f & Hw & ->)].
    + left. by exists e.
    + right. by exists t, f.
Qed.

End lru_facts.

(** ** Invariants of the memo table *)

Section memo_invariants.

Variable lib : Library.

Lemma cache_get_elem (k : key) (table : list (key * Image)) (img : Image) :
  cache_get k table = Some img -> (k, img) ∈ table.
Proof.
  induction table as [|[k' v] rest IH]; simpl; [done|].
  destruct (key_eqb k k') eqn:Hk.
  - apply key_eqb_eq in Hk as ->. intros [= ->]. apply elem_of_cons. by left.
  - intros H. apply elem_of_cons. right. by apply IH.
Qed.

Lemma cache_get_None (k : key) (table : list (key * Image)) :
  cache_get k table = None <-> k ∉ table.*1.
Proof.
  induction table as [|[k' v] rest IH]; simpl.
  - split; [intros _; apply not_elem_of_nil | done].
  - destruct (key_eqb k k') eqn:Hk.
    + apply key_eqb_eq in Hk as ->. split; [done|].
      intros H. exfalso. apply H. apply elem_of_cons. by left.
    + rewrite IH. rewrite not_elem_of_cons. split; [|tauto].
      intros H. split; [|done]. intros ->. by rewrite key_eqb_refl in Hk.
Qed.

Lemma cache_remove_sublist (k : key) (table : list (key * Image)) :
  cache_remove k table ⊆ table.
Proof.
  induction table as [|[k' v] rest IH]; simpl; [done|].
  destruct (key_eqb k k').
  - intros x Hx. apply elem_of_cons. by right.
  - intros x Hx. apply elem_of_cons in Hx as [->|Hx]; apply elem_of_cons;
      [by left | right; by apply IH].
Qed.

Lemma cache_remove_keys (k k' : key) (table : list (key * Image)) :
  k' ∈ (cache_remove k table).*1 -> k' ∈ table.*1.
Proof.
  intros H. apply list_elem_of_fmap in H as ([k1 v] & -> & H).
  apply list_elem_of_fmap. exists (k1, v). split; [done|].
  by apply cache_remove_sublist in H.
Qed.

Lemma cache_remove_NoDup (k : key) (table : list (key * Image)) :
  NoDup table.*1 -> NoDup (cache_remove k table).*1 /\ k ∉ (cache_remove k table).*1.
Proof.
  induction table as [|[k' v] rest IH]; simpl.
  - intros _. split; [constructor | apply not_elem_of_nil].
  - intros Hnd. apply NoDup_cons in Hnd as [Hk' Hrest].
    destruct (key_eqb k k') eqn:Hk.
    + apply key_eqb_eq in Hk as ->. done.
    + destruct (IH Hrest) as [Hnd' Hk1]. simpl. split.
      * apply NoDup_cons. split; [|done].
        intros H. by apply cache_remove_keys in H.
      * apply not_elem_of_cons. split; [|done].
        intros ->. by rewrite key_eqb_refl in Hk.
Qed.

Lemma removelast_sublist {A} (l : list A) : removelast l ⊆ l.
Proof.
  induction l as [|x l IH]; [done|]. simpl. destruct l as [|y l].
  - intros z Hz. by apply elem_of_nil in Hz.
  - intros z Hz. apply elem_of_cons in Hz as [->|Hz]; apply elem_of_cons;
      [by left | right; by apply IH].
Qed.

Lemma removelast_fmap {A B} (f : A -> B) (l : list A) :
  removelast (f <$> l) = f <$> removelast l.
Proof.
  induction l as [|x l IH]; [done|]. simpl. destruct l as [|y l]; [done|].
  simpl in IH |- *. by rewrite IH.
Qed.

Lemma removelast_NoDup {A} (l : list A) : NoDup l -> NoDup (removelast l).
Proof.
  induction l as [|x l IH]; [done|]. intros Hnd.
  apply NoDup_cons in Hnd as [Hx Hl]. simpl. destruct l as [|y l]; [constructor|].
  apply NoDup_cons. split; [|by apply IH].
  intros H. apply Hx. by apply (removelast_sublist (y :: l)).
Qed.

Lemma cache_store_sized (k : key) (img : Image) (table : list (key * Image)) :
  Image_size img = (snd k, snd k) -> memo_sized table ->
  memo_sized (cache_store k img table).
Proof.
  intros Himg Ht. unfold cache_store, memo_sized.
  destruct (maxsize <=? length table)%nat; constructor; try done.
  apply Forall_forall. intros e He.
  apply (removelast_sublist table) in He. revert e He. by apply Forall_forall.
Qed.

Lemma cache_touch_sized (k : key) (img : Image) (table : list (key * Image)) :
  cache_get k table = Some img -> memo_sized table ->
  memo_sized (cache_touch k img table).
Proof.
  intros Hget Ht. unfold cache_touch, memo_sized. constructor.
  - apply cache_get_elem in Hget. unfold memo_sized in Ht.
    rewrite Forall_forall in Ht. by apply (Ht (k, img)).
  - apply Forall_forall. intros e He. apply cache_remove_sublist in He.
    revert e He. by apply Forall_forall.
Qed.

Lemma cache_store_NoDup (k : key) (img : Image) (table : list (key * Image)) :
  cache_get k table = None -> NoDup table.*1 ->
  NoDup (cache_store k img table).*1.
Proof.
  intros Hget Hnd. apply cache_get_None in Hget. unfold cache_store.
  destruct (maxsize <=? length table)%nat; simpl; apply NoDup_cons.
  - rewrite <- removelast_fmap. split; [|by apply removelast_NoDup].
    intros H. apply Hget. by apply (removelast_sublist (table.*1)).
  - done.
Qed.

(** After a call the memo table still has the right sizes and no key
    twice. *)
Lemma call_preserves (k : key) (w : World) :
  memo_sized (memo w) /\ NoDup (memo w).*1 ->
  memo_sized (memo (snd (call lib k w))) /\ NoDup (memo (snd (call lib k w))).*1.
Proof.
  intros [Hs Hnd].
  destruct (call_cases lib k w)
    as [(img & Hget & ->)|[(e & Hget & ->)|(t & f & Hget & Hw & ->)]]; simpl.
  - split; [by apply cache_touch_sized|].
    destruct (cache_remove_NoDup k (memo w) Hnd) as [H1 H2].
    apply NoDup_cons. done.
  - done.
  - split; [apply cache_store_sized; [apply finish_size | done]|].
    by apply cache_store_NoDup.
Qed.

Lemma call_NoDup (k : key) (w : World) :
  NoDup (memo w).*1 -> NoDup (memo (snd (call lib k w))).*1.
Proof.
  intros Hnd.
  destruct (call_cases lib k w)
    as [(img & Hget & ->)|[(e & Hget & ->)|(t & f & Hget & Hw & ->)]]; simpl.
  - destruct (cache_remove_NoDup k (memo w) Hnd) as [H1 H2].
    apply NoDup_cons. done.
  - done.
  - by apply cache_store_NoDup.
Qed.

Lemma reachable_invariant (w : World) :
  reachable lib w -> memo_sized (memo w) /\ NoDup (memo w).*1.
Proof.
  induction 1 as [w Hw|w k _ IH|w w' _ IH Hm].
  - rewrite Hw. split; constructor.
  - by apply call_preserves.
  - by rewrite Hm.
Qed.

End memo_invariants.

(** ** Output of the rasteriser *)

Section rasteriser_claims.

Variable lib : Library.

Lemma imgs_dir_nonempty : py "./imgs" <> [].
Proof. discriminate. Qed.

(** C9: a call that is not served from the memo table returns only after
    writing the final bitmap to "./imgs/<codepoint>.png", replacing what
    was there; with valid arguments and the directory "./imgs" in place it
    does return, and the file then holds the encoding of the bitmap
    returned, whatever file was there before; it raises when "./imgs" is
    not a directory, whatever the arguments; and for valid arguments -
    blank glyph or not - it raises [FileNotFoundError] for that path when
    "./imgs" does not exist. *)
Theorem render_depends_on_imgs (w : World) (cmap_code : Z) (font_path : list N)
    (img_size : Z) :
  cache_get (cmap_code, font_path, img_size) (memo w) = None ->
  (forall img w',
     convert_cmap_to_image lib cmap_code font_path img_size w = (inr img, w') ->
     fs w' = <[imgs_path cmap_code := File (png lib img)]> (fs w)) /\
  (valid_call lib (cmap_code, font_path, img_size) w ->
   fs w !! py "./imgs" = Some Dir ->
   fs w !! imgs_path cmap_code <> Some Dir ->
   exists img w',
     convert_cmap_to_image lib cmap_code font_path img_size w = (inr img, w') /\
     fs w' = <[imgs_path cmap_code := File (png lib img)]> (fs w)) /\
  (fs w !! py "./imgs" <> Some Dir ->
   exists e,
     convert_cmap_to_image lib cmap_code font_path img_size w
     = (inl e, add_miss w)) /\
  (valid_call lib (cmap_code, font_path, img_size) w ->
   fs w !! py "./imgs" = None ->
   convert_cmap_to_image lib cmap_code font_path img_size w
   = (inl (FileNotFoundError (imgs_path cmap_code)), add_miss w)).
Proof.
  intros Hmiss.
  change (convert_cmap_to_image lib cmap_code font_path img_size)
    with (call lib (cmap_code, font_path, img_size)).
  split; [|split; [|split]].
  - intros img w' Hcall.
    destruct (call_cases lib (cmap_code, font_path, img_size) w)
      as [(i & Hget & _)|[(e & _ & He)|(t & f & _ & Hw & Hr)]].
    + congruence.
    + congruence.
    + rewrite Hr in Hcall. injection Hcall as <- <-. simpl.
      by apply write_file_ok in Hw.
  - intros (Hex & Hc & Hs & Hnew & font & Hf) Hdir Hfile.
    rewrite (call_miss _ _ _ Hmiss).
    rewrite (body_valid lib cmap_code font_path img_size (add_miss w) font)
      by done.
    cbn [fs add_miss]. unfold write_file, is_dir. rewrite dirname_imgs_path.
    change (py "./imgs") with [46; 47; 105; 109; 103; 115]%N in *.
    rewrite Hdir.
    destruct (fs w !! imgs_path cmap_code) as [[|old]|]; [done| |];
      eexists _, _; (split; [reflexivity|done]).
  - intros Hdir.
    destruct (call_cases lib (cmap_code, font_path, img_size) w)
      as [(i & Hget & _)|[(e & _ & He)|(t & f & _ & Hw & Hr)]].
    + congruence.
    + by exists e.
    + exfalso. simpl in Hw.
      destruct (write_file_needs_parent (fs w) (imgs_path cmap_code)
                  (png lib (finish lib img_size t))) as [e He].
      * rewrite dirname_imgs_path. apply imgs_dir_nonempty.
      * by rewrite dirname_imgs_path.
      * congruence.
  - intros (Hex & Hc & Hs & Hnew & font & Hf) Hdir.
    rewrite (call_miss _ _ _ Hmiss).
    rewrite (body_valid lib cmap_code font_path img_size (add_miss w) font)
      by done.
    cbn [fs add_miss]. rewrite write_file_no_parent; [done| |].
    + rewrite dirname_imgs_path. apply imgs_dir_nonempty.
    + by rewrite dirname_imgs_path.
Qed.

(** With "./imgs" in place, a valid call on a blank glyph returns the
    blank bitmap. *)
Lemma blank_glyph_with_imgs (w : World) (cmap_code : Z) (font_path : list N)
    (img_size : Z) (font : FreeTypeFont) :
  path_exists (fs w) font_path = true ->
  0 <= cmap_code <= 1114111 ->
  0 <= img_size ->
  Image_new_error lib (img_size * 2, img_size * 2) = None ->
  truetype lib (fs w) font_path img_size = inr font ->
  getbbox lib (draw_text (Image_new (img_size * 2, img_size * 2) 255)
                         (img_size * 2) (Z.to_N cmap_code) font) = None ->
  fs w !! py "./imgs" = Some Dir ->
  fs w !! imgs_path cmap_code <> Some Dir ->
  fst (convert_cmap_to_image_body lib (cmap_code, font_path, img_size) w)
  = inr (blank img_size).
Proof.
  intros Hex Hc Hs Hnew Hf Hbb Hdir Hp.
  rewrite (body_valid lib cmap_code font_path img_size w font) by done.
  rewrite (finish_blank lib _ _ Hbb).
  unfold write_file, is_dir. rewrite dirname_imgs_path.
  change (py "./imgs") with [46; 47; 105; 109; 103; 115]%N in *.
  rewrite Hdir. by destruct (fs w !! imgs_path cmap_code) as [[|?]|].
Qed.

(** C4: the bitmap has the requested size in both branches of the
    rasteriser; hence every bitmap a call of the undecorated function
    returns is size x size, and so is every bitmap a call of the
    memoized function returns in a state the process can reach. *)
Theorem output_dimensions :
  (forall img_size temp_img,
     Image_size (finish lib img_size temp_img) = (img_size, img_size)) /\
  (forall cmap_code font_path img_size w img w',
     convert_cmap_to_image_body lib (cmap_code, font_path, img_size) w
     = (inr img, w') ->
     Image_size img = (img_size, img_size)) /\
  (forall cmap_code font_path img_size w img w',
     reachable lib w ->
     convert_cmap_to_image lib cmap_code font_path img_size w = (inr img, w') ->
     Image_size img = (img_size, img_size)).
Proof.
  split; [apply finish_size|]. split.
  - intros c p s w img w' H.
    destruct (body_cases lib c p s w) as [[e He]|(t & f & _ & Hr)]; [congruence|].
    rewrite Hr in H. injection H as <- _. apply finish_size.
  - intros c p s w img w' Hreach H.
    change (convert_cmap_to_image lib c p s) with (call lib (c, p, s)) in H.
    destruct (reachable_invariant lib w Hreach) as [Hsized _].
    destruct (call_cases lib (c, p, s) w)
      as [(i & Hget & Hr)|[(e & _ & He)|(t & f & _ & _ & Hr)]].
    + rewrite Hr in H. injection H as <- _.
      apply cache_get_elem in Hget. unfold memo_sized in Hsized.
      rewrite Forall_forall in Hsized. by apply (Hsized ((c, p, s), i)).
    + congruence.
    + rewrite Hr in H. injection H as <- _. apply finish_size.
Qed.

End rasteriser_claims.

Lemma demo_valid (cmap_code : Z) :
  0 <= cmap_code <= 1114111 ->
  valid_call (demo_lib ocr_seven) (cmap_code, py "digits.ttf", 8) demo_world /\
  valid_call (demo_lib ocr_seven) (cmap_code, py "digits.ttf", 8) bare_world.
Proof.
  intros H. split; (split; [by vm_compute|]); (split; [done|]);
    (split; [done|]); (split; [done|]); eexists; by vm_compute.
Qed.

Lemma stale_valid :
  valid_call (demo_lib ocr_seven) (57345, py "digits.ttf", 8) stale_world.
Proof.
  split; [by vm_compute|]. split; [done|]. split; [done|]. split; [done|].
  eexists. by vm_compute.
Qed.

Lemma render_depends_on_imgs_witness :
  (fs stale_world !! py "./imgs/57345.png" = Some (File [9%N]) /\
   exists img w',
     convert_cmap_to_image (demo_lib ocr_seven) 57345 (py "digits.ttf") 8
                           stale_world = (inr img, w') /\
     fs w' = <[py "./imgs/57345.png" := File (png (demo_lib ocr_seven) img)]>
               (fs stale_world)) /\
  convert_cmap_to_image (demo_lib ocr_seven) 57345 (py "digits.ttf") 8 bare_world
  = (inl (FileNotFoundError (py "./imgs/57345.png")), add_miss bare_world).
Proof.
  split; [split; [by vm_compute|]|].
  - refine (proj1 (proj2 (render_depends_on_imgs (demo_lib ocr_seven) stale_world
                            57345 (py "digits.ttf") 8 _)) _ _ _).
    + reflexivity.
    + apply stale_valid.
    + by vm_compute.
    + by vm_compute.
  - refine (proj2 (proj2 (proj2 (render_depends_on_imgs (demo_lib ocr_seven)
                                   bare_world 57345 (py "digits.ttf") 8 _)))
                  _ _).
    + reflexivity.
    + apply demo_valid. lia.
    + by vm_compute.
Defined.

(** C3, on a valid code point whose canvas has an empty bounding box: with
    no directory "./imgs" the call raises instead of returning the blank
    bitmap. *)
Lemma blank_glyph_raises_without_imgs :
  valid_call (demo_lib ocr_seven) (57346, py "digits.ttf", 8) bare_world /\
  getbbox (demo_lib ocr_seven)
    (draw_text (Image_new (16, 16) 255) 16 57346%N
               {| ft_data := [1%N]; ft_size := 8 |}) = None /\
  convert_cmap_to_image (demo_lib ocr_seven) 57346 (py "digits.ttf") 8 bare_world
  = (inl (FileNotFoundError (py "./imgs/57346.png")), add_miss bare_world).
Proof.
  split; [apply demo_valid; lia|]. split; by vm_compute.
Qed.

Lemma output_dimensions_witness :
  exists img,
    fst (convert_cmap_to_image (demo_lib ocr_seven) 57345 (py "digits.ttf") 8
                               demo_world) = inr img /\
    Image_size img = (8, 8).
Proof.
  destruct (convert_cmap_to_image (demo_lib ocr_seven) 57345 (py "digits.ttf") 8
                                  demo_world) as [[e|img] w'] eqn:Hcall.
  - exfalso. vm_compute in Hcall. discriminate Hcall.
  - exists img. split; [reflexivity|].
    refine (proj2 (proj2 (output_dimensions (demo_lib ocr_seven)))
                  57345 (py "digits.ttf") 8 demo_world img w' _ Hcall).
    by apply reachable_start.
Defined.

(** ** Memoization *)

Section memoization.

Variable lib : Library.

Lemma newer_length (k : key) (table : list (key * Image)) (img : Image) :
  cache_get k table = Some img -> (length (newer k table) < length table)%nat.
Proof.
  induction table as [|[k1 v1] rest IH]; simpl; [done|].
  destruct (key_eqb k k1); simpl; [lia|]. intros H. apply IH in H. lia.
Qed.

Lemma newer_keys (k k' : key) (table : list (key * Image)) :
  k' ∈ newer k table -> k' ∈ table.*1.
Proof.
  induction table as [|[k1 v1] rest IH]; simpl; [done|].
  destruct (key_eqb k k1); [intros H; by apply elem_of_nil in H|].
  intros H. apply elem_of_cons in H as [->|H]; apply elem_of_cons;
    [by left | right; by apply IH].
Qed.

Lemma newer_NoDup (k : key) (table : list (key * Image)) :
  NoDup table.*1 -> NoDup (newer k table).
Proof.
  induction table as [|[k1 v1] rest IH]; simpl; [done|].
  intros Hnd. apply NoDup_cons in Hnd as [Hk1 Hrest].
  destruct (key_eqb k k1); [constructor|].
  apply NoDup_cons. split; [|by apply IH].
  intros H. by apply newer_keys in H.
Qed.

Lemma cache_remove_get (k k' : key) (table : list (key * Image)) :
  k <> k' -> cache_get k (cache_remove k' table) = cache_get k table.
Proof.
  intros Hne. induction table as [|[k1 v1] rest IH]; simpl; [done|].
  destruct (key_eqb k' k1) eqn:H1.
  - apply key_eqb_eq in H1 as <-. by rewrite key_eqb_neq.
  - simpl. by rewrite IH.
Qed.

Lemma cache_remove_newer (k k' : key) (table : list (key * Image)) :
  k <> k' -> newer k (cache_remove k' table) ⊆ newer k table.
Proof.
  intros Hne. induction table as [|[k1 v1] rest IH]; simpl; [done|].
  destruct (key_eqb k' k1) eqn:H1.
  - apply key_eqb_eq in H1 as <-. rewrite key_eqb_neq by done.
    intros x Hx. apply elem_of_cons. by right.
  - simpl. destruct (key_eqb k k1); [done|].
    intros x Hx. apply elem_of_cons in Hx as [->|Hx]; apply elem_of_cons;
      [by left | right; by apply IH].
Qed.

Lemma removelast_keeps (k : key) (table : list (key * Image)) (img : Image) :
  cache_get k table = Some img ->
  (length (newer k table) + 1 < length table)%nat ->
  cache_get k (removelast table) = Some img /\
  newer k (removelast table) = newer k table.
Proof.
  induction table as [|[k1 v1] rest IH]; [done|].
  intros Hget Hlen. cbn [cache_get newer] in Hget, Hlen |- *.
  destruct rest as [|e rest].
  - destruct (key_eqb k k1); simpl in Hlen; [lia | done].
  - change (removelast ((k1, v1) :: e :: rest))
      with ((k1, v1) :: removelast (e :: rest)).
    cbn [cache_get newer]. destruct (key_eqb k k1); [done|].
    assert (Hlen' : (length (newer k (e :: rest)) + 1 < length (e :: rest))%nat)
      by (cbn [length] in Hlen |- *; lia).
    destruct (IH Hget Hlen') as [-> ->]. done.
Qed.

Lemma kept_after_call (k : key) (img : Image) (recent : list key) (w w1 : World) :
  NoDup (memo w).*1 -> call lib k w = (inr img, w1) -> kept k img recent w1.
Proof.
  intros Hnd Hcall. pose proof (call_NoDup lib k w Hnd) as Hnd1.
  rewrite Hcall in Hnd1. cbn [snd] in Hnd1.
  split; [|split; [exact Hnd1|]].
  - destruct (call_cases lib k w)
      as [(i & Hget & Hr)|[(e & _ & He)|(t & f & _ & _ & Hr)]]; [|congruence|].
    + rewrite Hr in Hcall. injection Hcall as <- <-. simpl.
      by rewrite key_eqb_refl.
    + rewrite Hr in Hcall. injection Hcall as <- <-. simpl.
      unfold cache_store. destruct (maxsize <=? _)%nat; simpl;
        by rewrite key_eqb_refl.
  - destruct (call_cases lib k w)
      as [(i & Hget & Hr)|[(e & _ & He)|(t & f & _ & _ & Hr)]]; [|congruence|].
    + rewrite Hr in Hcall. injection Hcall as <- <-. simpl.
      rewrite key_eqb_refl. intros k' H. by apply elem_of_nil in H.
    + rewrite Hr in Hcall. injection Hcall as <- <-. simpl.
      unfold cache_store. destruct (maxsize <=? _)%nat; simpl;
        rewrite key_eqb_refl; intros k' H; by apply elem_of_nil in H.
Qed.

(** A full table whose oldest entry is [k] has 127 distinct keys newer
    than [k]; if they all are among fewer than 128 recent keys, every
    recent key is in the table. *)
Lemma recent_all_cached (k k' : key) (img : Image) (recent : list key)
    (table : list (key * Image)) :
  cache_get k table = Some img ->
  NoDup table.*1 ->
  (forall x, x ∈ newer k table -> x ∈ recent) ->
  (length recent < maxsize)%nat ->
  (maxsize <= length table)%nat ->
  ~ (length (newer k table) + 1 < length table)%nat ->
  k' ∈ recent -> k' ∈ table.*1.
Proof.
  intros Hget Hnd Hsub Hrec Hfull Hlast Hk'.
  apply (newer_keys k). apply list_elem_of_In.
  apply (@NoDup_length_incl _ (newer k table) recent).
  - apply NoDup_ListNoDup. by apply newer_NoDup.
  - pose proof (newer_length k table img Hget). lia.
  - intros x Hx. apply list_elem_of_In. apply Hsub. by apply list_elem_of_In.
  - by apply list_elem_of_In.
Qed.

Lemma kept_step (k k' : key) (img : Image) (recent : list key) (w : World) :
  (length recent < maxsize)%nat ->
  k' = k \/ k' ∈ recent ->
  kept k img recent w -> kept k img recent (snd (call lib k' w)).
Proof.
  intros Hrec Hk' (Hget & Hnd & Hsub).
  pose proof (call_NoDup lib k' w Hnd) as Hnd'.
  split; [|split; [exact Hnd'|]];
    destruct (call_cases lib k' w)
      as [(i & Hget' & Hr)|[(e & _ & Hr)|(t & f & Hmiss & _ & Hr)]];
    rewrite Hr; cbn [snd memo set_memo add_hit add_miss set_fs]; try done.
  - (* hit: the entry moves to the front *)
    unfold cache_touch. cbn [cache_get].
    destruct (key_eqb k k') eqn:Hkk.
    + apply key_eqb_eq in Hkk as ->. congruence.
    + rewrite cache_remove_get; [done|].
      intros ->. by rewrite key_eqb_refl in Hkk.
  - (* miss: the result is stored *)
    assert (Hne : k <> k') by (intros ->; congruence).
    unfold cache_store. destruct (maxsize <=? length (memo w))%nat eqn:Hfull;
      cbn [cache_get]; rewrite (key_eqb_neq _ _ Hne); [|done].
    apply Nat.leb_le in Hfull.
    destruct (decide (length (newer k (memo w)) + 1 < length (memo w))%nat)
      as [Hlt|Hlast]; [by apply removelast_keeps|].
    exfalso. destruct Hk' as [->|Hk']; [done|].
    apply cache_get_None in Hmiss. apply Hmiss.
    by apply (recent_all_cached k k' img recent).
  - (* hit *)
    unfold cache_touch. cbn [newer].
    destruct (key_eqb k k') eqn:Hkk.
    + intros x Hx. by apply elem_of_nil in Hx.
    + assert (Hne : k <> k') by (intros ->; by rewrite key_eqb_refl in Hkk).
      intros x Hx. apply elem_of_cons in Hx as [->|Hx].
      * destruct Hk' as [->|Hk']; done.
      * apply Hsub. by apply (cache_remove_newer k k').
  - (* miss *)
    assert (Hne : k <> k') by (intros ->; congruence).
    assert (Hin : k' ∈ recent) by (destruct Hk' as [->|Hk']; done).
    unfold cache_store. destruct (maxsize <=? length (memo w))%nat eqn:Hfull;
      cbn [newer]; rewrite (key_eqb_neq _ _ Hne).
    + apply Nat.leb_le in Hfull.
      destruct (decide (length (newer k (memo w)) + 1 < length (memo w))%nat)
        as [Hlt|Hlast].
      * destruct (removelast_keeps k (memo w) img Hget Hlt) as [_ ->].
        intros x Hx. apply elem_of_cons in Hx as [->|Hx]; [done | by apply Hsub].
      * exfalso. apply cache_get_None in Hmiss. apply Hmiss.
        by apply (recent_all_cached k k' img recent).
    + intros x Hx. apply elem_of_cons in Hx as [->|Hx]; [done | by apply Hsub].
Qed.

Lemma kept_between (k : key) (img : Image) (recent ks : list key) (w w' : World) :
  (length recent < maxsize)%nat ->
  (forall k', k' ∈ ks -> k' <> k -> k' ∈ recent) ->
  between lib ks w w' ->
  kept k img recent w -> kept k img recent w'.
Proof.
  intros Hrec Hks Hb. induction Hb as [w|k' ks w w' _ IH|ks w w1 w' Hm _ IH].
  - done.
  - intros Hk. apply IH.
    + intros x Hx. apply Hks. apply elem_of_cons. by right.
    + apply kept_step; [done| |done].
      destruct (decide (k' = k)) as [->|Hne]; [by left|].
      right. apply Hks; [apply elem_of_cons; by left | done].
  - intros Hk. apply IH; [done|]. unfold kept in *. by rewrite Hm.
Qed.

Lemma kept_served (k : key) (img : Image) (recent : list key) (w : World) :
  kept k img recent w -> served_from_memo lib k img w.
Proof.
  intros (Hget & _ & _). unfold served_from_memo.
  by rewrite (call_hit lib k w img Hget).
Qed.

Lemma between_calls (ks : list key) (w : World) :
  between lib ks w (calls lib ks w).
Proof.
  revert w. induction ks as [|k ks IH]; intros w; simpl.
  - constructor.
  - apply between_call. apply IH.
Qed.

(** C5 (amended): in a state the process can reach, when a call returned
    a bitmap and the calls made since then used at most 127 distinct
    other argument triples, a second call with the same arguments returns
    the same bitmap from the memo table: no new miss is counted and no
    file is written. *)
Theorem memoized_while_recent (w0 : World) (k : key) (ks recent : list key)
    (img : Image) (w1 wn : World) :
  reachable lib w0 ->
  (forall k', k' ∈ ks -> k' <> k -> k' ∈ recent) ->
  (length recent < maxsize)%nat ->
  call lib k w0 = (inr img, w1) ->
  between lib ks w1 wn ->
  served_from_memo lib k img wn.
Proof.
  intros Hreach Hks Hrec Hcall Hb.
  apply (kept_served k img recent).
  apply (kept_between k img recent ks w1 wn); try done.
  apply (kept_after_call k img recent w0); [|done].
  exact (proj2 (reachable_invariant lib w0 Hreach)).
Qed.

End memoization.

(** C5, the statement as written fails: after 128 other glyphs have been
    rendered the first entry has been evicted, and the second call renders
    again (one more miss is counted). *)
Lemma memoization_is_bounded :
  ~ memoized_idempotence_spec (demo_lib ocr_seven) demo_world
      (57345, py "digits.ttf", 8) other_keys.
Proof.
  intros H.
  set (lib := demo_lib ocr_seven). set (k := (57345, py "digits.ttf", 8)).
  set (r := call lib k demo_world).
  assert (Hr : exists img, call lib k demo_world = (inr img, snd r)).
  { eexists. apply injective_projections; [vm_compute; reflexivity | reflexivity]. }
  destruct Hr as [img Hr].
  destruct (H img (snd r) (calls lib other_keys (snd r)) Hr
              (between_calls lib other_keys (snd r))) as (_ & Hm & _).
  vm_compute in Hm. discriminate Hm.
Qed.

Lemma memoized_while_recent_witness :
  served_from_memo (demo_lib ocr_seven) (57345, py "digits.ttf", 8)
    (finish (demo_lib ocr_seven) 8
       (draw_text (Image_new (16, 16) 255) 16 57345%N
                  {| ft_data := [1%N]; ft_size := 8 |}))
    (calls (demo_lib ocr_seven) [(57346, py "digits.ttf", 8)]
       (snd (call (demo_lib ocr_seven) (57345, py "digits.ttf", 8) demo_world))).
Proof.
  apply (memoized_while_recent (demo_lib ocr_seven) demo_world
           (57345, py "digits.ttf", 8) [(57346, py "digits.ttf", 8)]
           [(57346, py "digits.ttf", 8)] _
           (snd (call (demo_lib ocr_seven) (57345, py "digits.ttf", 8) demo_world))).
  - by apply reachable_start.
  - intros k' Hk' _. exact Hk'.
  - vm_compute. lia.
  - by vm_compute.
  - apply between_calls.
Defined.


(** ** The on-disk cache *)

Section disk_cache.

Variable lib : Library.

Lemma norm_snoc (p : list N) (c : N) : c <> 47%N -> norm (p ++ [c]) = p ++ [c].
Proof.
  intros Hc. unfold norm. destruct (all_slashes _); [done|].
  unfold rstrip_slash. rewrite rev_unit. cbn [lstrip_slash].
  destruct (N.eqb_spec c 47) as [|_]; [done|].
  cbn [rev]. by rewrite rev_involutive.
Qed.

Lemma join_suffix (a b : list N) : exists pre, join a b = pre ++ b.
Proof.
  unfold join. destruct (startswith [47%N] b); [by exists []|].
  destruct a as [|c a]; [by exists []|].
  destruct (List.last (c :: a) 0 =? 47)%N.
  - by exists (c :: a).
  - exists ((c :: a) ++ [47%N]). by rewrite <- app_assoc.
Qed.

(** A cache path ends in "_<glyph>.png". *)
Lemma cache_path_shape (d : list N) (character : N) (glyph_name : list N) :
  exists pre,
    cache_path d character glyph_name
    = (pre ++ [95%N] ++ glyph_name ++ [46; 112; 110]%N) ++ [103%N].
Proof.
  unfold cache_path.
  destruct (join_suffix d
              (format_int (ord character) ++ py "_" ++ glyph_name ++ py ".png"))
    as [pre ->].
  exists (pre ++ format_int (ord character)).
  change (py "_") with [95%N]. change (py ".png") with [46; 112; 110; 103]%N.
  rewrite <- !app_assoc. do 3 f_equal.
Qed.

Lemma cache_path_norm (d : list N) (character : N) (glyph_name : list N) :
  norm (cache_path d character glyph_name) = cache_path d character glyph_name.
Proof.
  destruct (cache_path_shape d character glyph_name) as [pre ->].
  by apply norm_snoc.
Qed.

(** A node recorded under a spelling that [norm] leaves alone exists. *)
Lemma path_exists_spelled (f : gmap (list N) node) (p : list N) (n : node) :
  norm p = p -> f !! p = Some n -> path_exists f p = true.
Proof.
  intros Hn Hp. unfold path_exists. rewrite Hn, Hp.
  destruct n; [done|]. by apply bool_decide_eq_true.
Qed.

(** The rasteriser's fixed output path is never a cache path. *)
Lemma cache_path_not_imgs (d : list N) (character : N) (glyph_name : list N)
    (cmap_code : Z) :
  cache_path d character glyph_name <> imgs_path cmap_code.
Proof.
  intros Heq. apply (imgs_path_no_underscore cmap_code). rewrite <- Heq.
  destruct (cache_path_shape d character glyph_name) as [pre ->].
  rewrite !elem_of_app. left. right. left. apply elem_of_cons. by left.
Qed.

(** *** What each step leaves in place *)

Lemma mkdir_chain_frame (chain : list (list N)) (name p : list N)
    (f f' : gmap (list N) node) (n : node) :
  mkdir_chain f chain name = inr f' -> f !! p = Some n -> f' !! p = Some n.
Proof.
  revert f. induction chain as [|d rest IH]; intros f; cbn [mkdir_chain].
  - destruct (f !! norm name) eqn:Hleaf; [done|]. intros [= <-] Hp.
    rewrite lookup_insert_ne; [done|]. intros Heq. congruence.
  - destruct (f !! d) as [[|data]|] eqn:Hd; [apply IH|done|].
    intros Hmk Hp. apply (IH _ Hmk).
    rewrite lookup_insert_ne; [done|]. intros Heq. congruence.
Qed.

Lemma makedirs_frame (f f' : gmap (list N) node) (d p : list N) (n : node) :
  makedirs f d = inr f' -> f !! p = Some n -> f' !! p = Some n.
Proof. apply mkdir_chain_frame. Qed.

Lemma call_frame (k : key) (w : World) (p : list N) :
  p <> imgs_path (fst (fst k)) -> fs (snd (call lib k w)) !! p = fs w !! p.
Proof.
  intros Hp.
  destruct (call_cases lib k w)
    as [(img & _ & ->)|[(e & _ & ->)|(t & f & _ & Hw & ->)]]; simpl; try done.
  apply write_file_ok in Hw as ->. by rewrite lookup_insert_ne.
Qed.

(** Source lines 154-158, case by case: nothing happens when the path
    exists; otherwise the bitmap is saved there. *)
Lemma cache_write_cases (cache_dir : option (list N)) (d : list N)
    (cmap_code : Z) (character : N) (glyph_name : list N) (image : Image)
    (w : World) :
  truthy cache_dir = Some d ->
  chr cmap_code = inr character ->
  (path_exists (fs w) (cache_path d character glyph_name) = true ->
   cache_write lib cache_dir cmap_code glyph_name image w = (inr tt, w)) /\
  (path_exists (fs w) (cache_path d character glyph_name) = false ->
   cache_write lib cache_dir cmap_code glyph_name image w
   = save (cache_path d character glyph_name) (png lib image) w).
Proof.
  intros Hd Hc. unfold cache_write, bind, lift. rewrite Hd, Hc.
  split; intros ->; reflexivity.
Qed.

Lemma cache_write_frame (cache_dir : option (list N)) (cmap_code : Z)
    (glyph_name : list N) (image : Image) (w : World) (p : list N) (n : node) :
  fs w !! p = Some n ->
  fs (snd (cache_write lib cache_dir cmap_code glyph_name image w)) !! p = Some n.
Proof.
  intros Hp. unfold cache_write.
  destruct (truthy cache_dir) as [d|]; [|done].
  unfold bind, lift. destruct (chr cmap_code) as [e|character]; [done|].
  destruct (path_exists (fs w) (cache_path d character glyph_name)) eqn:Hex;
    cbn [negb]; [done|].
  unfold save. destruct (write_file _ _ _) as [e|f] eqn:Hw; [done|].
  apply write_file_ok in Hw as ->. cbn [snd fs set_fs].
  rewrite lookup_insert_ne; [done|]. intros <-.
  rewrite (path_exists_spelled _ _ n (cache_path_norm _ _ _) Hp) in Hex. done.
Qed.

Lemma try_entry_frame (classification : list N -> exn + list N)
    (font_path : list N) (image_size : Z) (cache_dir : option (list N))
    (cmap_code : Z) (glyph_name : list N) (w : World) (p : list N) (n : node) :
  p <> imgs_path cmap_code ->
  fs w !! p = Some n ->
  fs (snd (try_entry lib classification font_path image_size cache_dir
                     cmap_code glyph_name w)) !! p = Some n.
Proof.
  intros Hne Hp. unfold try_entry, bind.
  pose proof (call_frame (cmap_code, font_path, image_size) w p Hne) as Hcall.
  change (convert_cmap_to_image lib cmap_code font_path image_size)
    with (call lib (cmap_code, font_path, image_size)).
  destruct (call lib (cmap_code, font_path, image_size) w) as [[e|image] w1];
    cbn [snd] in Hcall |- *; [by rewrite Hcall|].
  assert (Hp1 : fs w1 !! p = Some n) by (by rewrite Hcall).
  pose proof (cache_write_frame cache_dir cmap_code glyph_name image w1 p n Hp1)
    as Hcw.
  destruct (cache_write lib cache_dir cmap_code glyph_name image w1)
    as [[e|[]] w2]; cbn [snd] in Hcw |- *; [done|].
  unfold lift. done.
Qed.

Lemma progress_fs (show_progress : bool) (total_chars idx : nat) (w : World) :
  fs (progress show_progress total_chars idx w) = fs w.
Proof. unfold progress. by destruct (_ && _). Qed.

Lemma iteration_frame (classification : list N -> exn + list N)
    (font_path : list N) (image_size : Z) (show_progress : bool)
    (cache_dir : option (list N)) (total_chars idx : nat) (item : Z * list N)
    (st : gmap (list N) (list N) * World) (p : list N) (n : node) :
  (forall c, p <> imgs_path c) ->
  fs (snd st) !! p = Some n ->
  fs (snd (iteration lib classification font_path image_size show_progress
                     cache_dir total_chars idx item st)) !! p = Some n.
Proof.
  intros Hne Hp. destruct item as [cmap_code glyph_name], st as [font_map w].
  unfold iteration. cbn [snd] in Hp.
  pose proof (try_entry_frame classification font_path image_size cache_dir
                cmap_code glyph_name
                (progress show_progress total_chars idx w) p n (Hne cmap_code))
    as Ht.
  rewrite progress_fs in Ht. specialize (Ht Hp).
  by destruct (try_entry _ _ _ _ _ _ _ _) as [[e|text] w1].
Qed.

Lemma loop_frame (classification : list N -> exn + list N)
    (font_path : list N) (image_size : Z) (show_progress : bool)
    (cache_dir : option (list N)) (total_chars idx : nat)
    (items : list (Z * list N)) (st : gmap (list N) (list N) * World)
    (p : list N) (n : node) :
  (forall c, p <> imgs_path c) ->
  fs (snd st) !! p = Some n ->
  fs (snd (loop lib classification font_path image_size show_progress
                cache_dir total_chars idx items st)) !! p = Some n.
Proof.
  intros Hne. revert idx st. induction items as [|item items IH];
    intros idx st Hp; simpl; [done|].
  apply IH. by apply iteration_frame.
Qed.

End disk_cache.

(** ** The assembler *)

Section assembler.

Variable lib : Library.

Lemma prepare_cache_dir_cases (cache_dir : option (list N)) (w : World) :
  prepare_cache_dir cache_dir w = (inr tt, w) \/
  (exists d f, truthy cache_dir = Some d /\ path_exists (fs w) d = false /\
     makedirs (fs w) d = inr f /\
     prepare_cache_dir cache_dir w = (inr tt, set_fs f w)) \/
  (exists d e, truthy cache_dir = Some d /\ path_exists (fs w) d = false /\
     makedirs (fs w) d = inl e /\
     prepare_cache_dir cache_dir w = (inl e, w)).
Proof.
  unfold prepare_cache_dir. destruct (truthy cache_dir) as [d|]; [|by left].
  destruct (path_exists (fs w) d) eqn:Hex; cbn [negb]; [by left|].
  unfold os_makedirs. destruct (makedirs (fs w) d) as [e|f] eqn:Hmk.
  - right. right. by exists d, e.
  - right. left. by exists d, f.
Qed.

Lemma prepare_cache_dir_frame (cache_dir : option (list N)) (w : World) :
  no_entry_processed w (snd (prepare_cache_dir cache_dir w)) /\
  (forall p n, fs w !! p = Some n ->
               fs (snd (prepare_cache_dir cache_dir w)) !! p = Some n).
Proof.
  destruct (prepare_cache_dir_cases cache_dir w)
    as [->|[(d & f & _ & _ & Hmk & ->)|(d & e & _ & _ & _ & ->)]];
    cbn [snd]; split; try done.
  intros p n Hp. cbn [fs set_fs]. by apply (makedirs_frame (fs w) f d).
Qed.

Lemma prologue_unfold (font_path : list N) (cache_dir : option (list N))
    (w : World) :
  path_exists (fs w) font_path = true ->
  prologue lib font_path cache_dir w
  = match prepare_cache_dir cache_dir w with
    | (inl e, w1) => (inl e, w1)
    | (inr _, w1) =>
        match load_cmap lib (fs w1) font_path with
        | inl e => (inl e, w1)
        | inr cmap =>
            match DdddOcr lib with
            | inl e => (inl e, w1)
            | inr classification =>
                match cmap with
                | Some items => (inr (items, classification), w1)
                | None => (inl TypeError, w1)
                end
            end
        end
    end.
Proof.
  intros Hex. unfold prologue. rewrite Hex. cbn [negb]. unfold bind, lift.
  destruct (prepare_cache_dir cache_dir w) as [[e|[]] w1]; [done|].
  destruct (load_cmap lib (fs w1) font_path) as [e|cmap]; [done|].
  destruct (DdddOcr lib) as [e|classification]; [done|].
  by destruct cmap.
Qed.



Lemma extract_unfold (font_path : list N) (image_size : Z)
    (show_progress use_cache : bool) (cache_dir : option (list N)) (w : World) :
  extract_text_from_font lib font_path image_size show_progress use_cache
                         cache_dir w
  = match prologue lib font_path cache_dir w with
    | (inl e, w1) => (inl e, w1)
    | (inr (cmap, classification), w1) =>
        let st := loop lib classification font_path image_size show_progress
                       cache_dir (length cmap) 0 cmap (∅, w1) in
        (inr (fst st),
         if show_progress then emit (info_done (length cmap)) (snd st)
         else snd st)
    end.
Proof.
  unfold extract_text_from_font, bind.
  destruct (prologue lib font_path cache_dir w) as [[e|[cmap cl]] w1]; [done|].
  by destruct (loop _ _ _ _ _ _ _ _ _ _) as [fm w'].
Qed.

(** *** The loop *)

Lemma iteration_map (classification : list N -> exn + list N)
    (font_path : list N) (image_size : Z) (show_progress : bool)
    (cache_dir : option (list N)) (total_chars idx : nat)
    (cmap_code : Z) (glyph_name : list N)
    (font_map : gmap (list N) (list N)) (w : World) :
  fst (iteration lib classification font_path image_size show_progress cache_dir
                 total_chars idx (cmap_code, glyph_name) (font_map, w))
  = <[glyph_name :=
        entry_text (fst (try_entry lib classification font_path image_size
                                   cache_dir cmap_code glyph_name
                                   (progress show_progress total_chars idx w)))]>
      font_map.
Proof.
  unfold iteration. by destruct (try_entry _ _ _ _ _ _ _ _) as [[e|text] w1].
Qed.


Lemma loop_dom (classification : list N -> exn + list N)
    (font_path : list N) (image_size : Z) (show_progress : bool)
    (cache_dir : option (list N)) (total_chars idx : nat)
    (items : list (Z * list N)) (st : gmap (list N) (list N) * World) :
  dom (fst (loop lib classification font_path image_size show_progress
                 cache_dir total_chars idx items st))
  = dom (fst st) ∪ list_to_set items.*2.
Proof.
  revert idx st. induction items as [|[c g] items IH]; intros idx [fm w].
  - cbn. by rewrite union_empty_r_L.
  - cbn [loop]. rewrite IH, fmap_cons, list_to_set_cons.
    destruct (iteration _ _ _ _ _ _ _ _ _ _) as [fm' w'] eqn:Hit.
    pose proof (iteration_map classification font_path image_size show_progress
                  cache_dir total_chars idx c g fm w) as Hm.
    rewrite Hit in Hm. cbn [fst snd] in Hm |- *. rewrite Hm, dom_insert_L.
    by rewrite (comm_L (∪) {[g]} (dom fm)), (assoc_L (∪)).
Qed.


End assembler.

(** ** The assembler: coverage, error boundary and disk cache *)

Section assembler_claims.

Variable lib : Library.

Lemma prologue_frame (font_path : list N) (cache_dir : option (list N))
    (w : World) (p : list N) (n : node) :
  fs w !! p = Some n ->
  fs (snd (prologue lib font_path cache_dir w)) !! p = Some n.
Proof.
  intros Hp. destruct (path_exists (fs w) font_path) eqn:Hex.
  - rewrite (prologue_unfold lib _ _ _ Hex).
    pose proof (prepare_cache_dir_frame cache_dir w) as [_ Hf].
    specialize (Hf p n Hp).
    destruct (prepare_cache_dir cache_dir w) as [[e|[]] w1]; [done|].
    cbn [snd] in Hf.
    destruct (load_cmap lib (fs w1) font_path) as [e|cmap]; [done|].
    destruct (DdddOcr lib) as [e|cl]; [done|]. by destruct cmap.
  - unfold prologue. by rewrite Hex.
Qed.

Lemma extract_frame (font_path : list N) (image_size : Z)
    (show_progress use_cache : bool) (cache_dir : option (list N)) (w : World)
    (p : list N) (n : node) :
  (forall c, p <> imgs_path c) ->
  fs w !! p = Some n ->
  fs (snd (extract_text_from_font lib font_path image_size show_progress
                                  use_cache cache_dir w)) !! p = Some n.
Proof.
  intros Hne Hp. rewrite extract_unfold.
  pose proof (prologue_frame font_path cache_dir w p n Hp) as Hpro.
  destruct (prologue lib font_path cache_dir w) as [[e|[cmap cl]] w1];
    cbn [snd] in Hpro |- *; [done|].
  assert (Hl : fs (snd (loop lib cl font_path image_size show_progress cache_dir
                             (length cmap) 0 cmap (∅, w1))) !! p = Some n)
    by (by apply loop_frame).
  by destruct show_progress.
Qed.

(** C8: with a cache directory configured, the cache step of an entry
    does nothing when a file named from its (codepoint, glyph identifier)
    pair exists, and saves the rendered bitmap under that name otherwise;
    and whatever is stored under such a name before the extraction call
    is still there, unchanged, after it. *)
Theorem disk_cache_is_write_once (font_path : list N) (image_size : Z)
    (show_progress use_cache : bool) (cache_dir : option (list N))
    (d : list N) (w : World) :
  truthy cache_dir = Some d ->
  (forall cmap_code character glyph_name image w0,
     chr cmap_code = inr character ->
     (path_exists (fs w0) (cache_path d character glyph_name) = true ->
      cache_write lib cache_dir cmap_code glyph_name image w0 = (inr tt, w0)) /\
     (path_exists (fs w0) (cache_path d character glyph_name) = false ->
      cache_write lib cache_dir cmap_code glyph_name image w0
      = save (cache_path d character glyph_name) (png lib image) w0)) /\
  (forall character glyph_name n,
     fs w !! cache_path d character glyph_name = Some n ->
     fs (snd (extract_text_from_font lib font_path image_size show_progress
                                     use_cache cache_dir w))
       !! cache_path d character glyph_name = Some n).
Proof.
  intros Hd. split.
  - intros cmap_code character glyph_name image w0 Hc.
    by apply cache_write_cases.
  - intros character glyph_name n Hp. apply extract_frame; [|done].
    intros c. apply cache_path_not_imgs.
Qed.



End assembler_claims.

(** ** The claims on the demo font *)

Lemma disk_cache_is_write_once_witness :
  fs cached_world !! py "cache/57345_uniE001.png" = Some (File [9%N]) /\
  fs (snd (extract_text_from_font (demo_lib ocr_seven) (py "digits.ttf") 8 false
                                  true (Some (py "cache")) cached_world))
    !! py "cache/57345_uniE001.png" = Some (File [9%N]).
Proof.
  assert (H : fs cached_world !! cache_path (py "cache") 57345%N (py "uniE001")
              = Some (File [9%N])) by (by vm_compute).
  split; [exact H|].
  exact (proj2 (disk_cache_is_write_once (demo_lib ocr_seven) (py "digits.ttf") 8
                  false true (Some (py "cache")) (py "cache") cached_world
                  eq_refl)
               57345%N (py "uniE001") (File [9%N]) H).
Defined.

Lemma demo_prologue (ocr : list N -> exn + list N) :
  prologue (demo_lib (inr ocr)) (py "digits.ttf") None demo_world
  = (inr ([(57345, py "uniE001")], ocr), demo_world).
Proof. reflexivity. Qed.


(** The example of the specification: with a classifier that answers "7"
    the mapping sends "uniE001" to "7"; with one that always raises it
    sends "uniE001" to the empty string. *)
Example extract_digits :
  fst (extract_text_from_font (demo_lib ocr_seven) (py "digits.ttf") 8 false
                              true None demo_world)
  = inr {[py "uniE001" := py "7"]} /\
  fst (extract_text_from_font (demo_lib ocr_raising) (py "digits.ttf") 8 false
                              true None demo_world)
  = inr {[py "uniE001" := []]}.
Proof. split; by vm_compute. Qed.





(** * Further properties *)

(** ** Crop geometry *)

(** X1: from size 10 on, the crop region covers the whole bounding box of
    the glyph, so no inked pixel is cut off; below size 10 the padding is
    zero and a one-pixel glyph at the corner is cropped to an empty
    region. *)
Theorem crop_keeps_glyph :
  (forall img_size bbox,
     10 <= img_size -> Crop.on_canvas img_size bbox ->
     box_contains (Crop.crop_box img_size bbox) bbox) /\
  (forall img_size,
     0 < img_size < 10 ->
     Crop.on_canvas img_size (0, 0, 1, 1) /\
     Crop.crop_box img_size (0, 0, 1, 1) = (0, 0, 0, 0)).
Proof.
  split.
  - intros img_size [[[l t] r] b] Hs (Hl & Hlr & Hr & Ht & Htb & Hb).
    unfold box_contains, Crop.crop_box.
    assert (Hp : 1 <= img_size / 10) by (apply Z.div_le_lower_bound; lia).
    pose proof (floor_center_near l r). pose proof (floor_center_near t b).
    pose proof (Z.div_mod (Z.max (r - l) (b - t)) 2 ltac:(lia)).
    pose proof (Z.mod_pos_bound (Z.max (r - l) (b - t)) 2 ltac:(lia)).
    lia.
  - intros img_size Hs. split; [unfold Crop.on_canvas; lia|].
    unfold Crop.crop_box.
    assert (Hp : img_size / 10 = 0) by (apply Z.div_small; lia).
    rewrite Hp. change ((0 + 1) / 2) with 0.
    change (Z.max (1 - 0) (1 - 0) / 2 + 0) with 0.
    change (Z.max 0 (0 - 0)) with 0. change (0 + 0) with 0.
    by rewrite Z.min_r by lia.
Qed.

Lemma crop_keeps_glyph_witness :
  box_contains (Crop.crop_box 100 (0, 0, 10, 100)) (0, 0, 10, 100).
Proof.
  apply (proj1 crop_keeps_glyph); [lia | unfold Crop.on_canvas; lia].
Defined.

(** ** The decoder *)

Section decoder_more.

Variable ToUpperFull : N -> list N.
Variable font_map : gmap (list N) (list N).

Lemma split_nonempty (sep : N) (s : list N) : split sep s <> [].
Proof.
  destruct s as [|c s]; simpl; [done|].
  destruct (c =? sep)%N; [done|]. by destruct (split sep s).
Qed.

Lemma split_app_sep (sep : N) (s1 s2 : list N) :
  split sep (s1 ++ sep :: s2) = split sep s1 ++ split sep s2.
Proof.
  induction s1 as [|c s1 IH]; simpl.
  - by rewrite N.eqb_refl.
  - rewrite IH. destruct (c =? sep)%N; [done|].
    pose proof (split_nonempty sep s1) as Hne.
    by destruct (split sep s1).
Qed.

Lemma decrypt_part_acc (result part : list N) :
  decrypt_part ToUpperFull font_map result part
  = result ++ decrypt_part ToUpperFull font_map [] part.
Proof.
  unfold decrypt_part. destruct part as [|c part]; [by rewrite app_nil_r|].
  destruct (replace _ _ _); [by rewrite app_nil_r|].
  by destruct (font_map !! _).
Qed.

Lemma decrypt_fold_acc (parts : list (list N)) (result : list N) :
  fold_left (decrypt_part ToUpperFull font_map) parts result
  = result ++ fold_left (decrypt_part ToUpperFull font_map) parts [].
Proof.
  revert result. induction parts as [|part parts IH]; intros result; simpl.
  - by rewrite app_nil_r.
  - rewrite IH, (IH (decrypt_part ToUpperFull font_map [] part)), decrypt_part_acc.
    by rewrite app_assoc.
Qed.

(** X2: the decoder works part by part: decoding two texts joined by a
    semicolon gives the two decodings one after the other. Hence a closing
    semicolon after the last token is optional, a leading or doubled
    semicolon adds nothing, and the empty text decodes to the empty text. *)
Theorem decoder_is_piecewise (s1 s2 : list N) :
  decrypt_webpage_example ToUpperFull font_map (s1 ++ py ";" ++ s2)
  = decrypt_webpage_example ToUpperFull font_map s1
    ++ decrypt_webpage_example ToUpperFull font_map s2
  /\ decrypt_webpage_example ToUpperFull font_map (s1 ++ py ";")
     = decrypt_webpage_example ToUpperFull font_map s1
  /\ decrypt_webpage_example ToUpperFull font_map (py ";" ++ s2)
     = decrypt_webpage_example ToUpperFull font_map s2
  /\ decrypt_webpage_example ToUpperFull font_map [] = [].
Proof.
  assert (Hcat : forall a b,
             decrypt_webpage_example ToUpperFull font_map (a ++ py ";" ++ b)
             = decrypt_webpage_example ToUpperFull font_map a
               ++ decrypt_webpage_example ToUpperFull font_map b).
  { intros a b. unfold decrypt_webpage_example.
    change (py ";" ++ b) with (59%N :: b).
    rewrite split_app_sep, fold_left_app. apply decrypt_fold_acc. }
  split; [apply Hcat|]. split; [|split; [|done]].
  - rewrite <- (app_nil_r (py ";")), Hcat. apply app_nil_r.
  - apply (Hcat [] s2).
Qed.

Lemma upper_char_idem (c : N) : upper_char (upper_char c) = upper_char c.
Proof.
  unfold upper_char.
  destruct ((97 <=? c) && (c <=? 122))%N eqn:Hc; [|by rewrite Hc].
  apply andb_prop in Hc as [H1 H2]. apply N.leb_le in H1, H2.
  destruct (N.leb_spec 97 (c - 32)) as [H|_]; [lia|done].
Qed.


Lemma upper_char_hex (c : N) :
  is_hex_digit c = true -> is_hex_digit (upper_char c) = true.
Proof.
  unfold is_hex_digit, upper_char. intros H.
  destruct ((97 <=? c) && (c <=? 122))%N eqn:Hc; [|done].
  apply andb_prop in Hc as [H1 H2]. apply N.leb_le in H1, H2.
  apply orb_prop in H as [H|H].
  - apply orb_prop in H as [H|H]; apply andb_prop in H as [H3 H4];
      apply N.leb_le in H3, H4; lia.
  - apply andb_prop in H as [H3 H4]. apply N.leb_le in H3, H4.
    apply orb_true_intro. left. apply orb_true_intro. right.
    apply andb_true_intro. split; apply N.leb_le; lia.
Qed.

Lemma upper_hex_ok (hex : list N) : hex_ok hex -> hex_ok (upper ToUpperFull hex).
Proof.
  intros [Hne Hh]. rewrite (upper_hex ToUpperFull hex Hh). split.
  - destruct hex; [done | discriminate].
  - clear Hne. induction hex as [|c hex IH]; [done|].
    simpl in Hh |- *. apply andb_prop in Hh as [Hc Hh].
    rewrite (upper_char_hex c Hc). by apply IH.
Qed.

Lemma upper_idem (hex : list N) :
  hex_ok hex ->
  upper ToUpperFull (upper ToUpperFull hex) = upper ToUpperFull hex.
Proof.
  intros Hh. destruct (upper_hex_ok hex Hh) as [_ Hu].
  rewrite (upper_hex ToUpperFull _ Hu), (upper_hex ToUpperFull hex (proj2 Hh)).
  rewrite List.map_map. apply List.map_ext. apply upper_char_idem.
Qed.

(** X3: the decoder does not distinguish the case of the hexadecimal
    digits of a token: a text of tokens decodes to the same text when its
    digits are written in upper case. *)
Theorem decoder_ignores_hex_case (hexes : list (list N)) :
  Forall hex_ok hexes ->
  decrypt_webpage_example ToUpperFull font_map
    (List.concat (List.map token (List.map (upper ToUpperFull) hexes)))
  = decrypt_webpage_example ToUpperFull font_map
      (List.concat (List.map token hexes)).
Proof.
  intros H. unfold decrypt_webpage_example.
  rewrite !decrypt_tokens; [| done |].
  - cbn [app]. f_equal. clear -H.
    induction H as [|h hexes Hh _ IH]; [done|]. cbn [List.map].
    rewrite IH. f_equal. unfold substitute. by rewrite upper_idem.
  - clear -H. induction H as [|h hexes Hh _ IH]; simpl; constructor;
      [by apply upper_hex_ok | done].
Qed.

End decoder_more.

Lemma decoder_ignores_hex_case_witness :
  decrypt_webpage_example ascii_upper example_mapping (py "&#xE78C;&#xE562;")
  = decrypt_webpage_example ascii_upper example_mapping (py "&#xe78c;&#xe562;").
Proof.
  apply (decoder_ignores_hex_case ascii_upper example_mapping
           [py "e78c"; py "e562"]).
  repeat constructor; discriminate.
Defined.

(** ** The crawler's decryption helpers *)

Section helpers_more.

Import dongchedi.

Variable data_mapping : gmap N (list N).

Lemma change_price_loop_acc (s acc : list N) :
  change_price_loop data_mapping s acc
  = match change_price_loop data_mapping s [] with
    | inr r => inr (acc ++ r)
    | inl e => inl e
    end.
Proof.
  rewrite !change_price_loop_outcome. unfold outcome.
  by destruct (List.find _ s).
Qed.

Lemma change_sub_title_loop_acc (s acc : list N) :
  change_sub_title_loop data_mapping s acc
  = match change_sub_title_loop data_mapping s [] with
    | inr r => inr (acc ++ r)
    | inl e => inl e
    end.
Proof.
  rewrite !change_sub_title_loop_outcome. unfold outcome.
  by destruct (List.find _ s).
Qed.

Lemma change_price_loop_app (s1 s2 acc : list N) :
  change_price_loop data_mapping (s1 ++ s2) acc
  = match change_price_loop data_mapping s1 acc with
    | inr r => change_price_loop data_mapping s2 r
    | inl e => inl e
    end.
Proof.
  revert acc. induction s1 as [|c s1 IH]; intros acc; simpl; [done|].
  destruct (c =? 46)%N; [apply IH|].
  destruct (data_mapping !! c); [apply IH | done].
Qed.

Lemma change_sub_title_loop_app (s1 s2 acc : list N) :
  change_sub_title_loop data_mapping (s1 ++ s2) acc
  = match change_sub_title_loop data_mapping s1 acc with
    | inr r => change_sub_title_loop data_mapping s2 r
    | inl e => inl e
    end.
Proof.
  revert acc. induction s1 as [|c s1 IH]; intros acc; simpl; [done|].
  destruct ((c =? 46) || (c =? 124) || (c =? 32))%N; [apply IH|].
  destruct (data_mapping !! c); [apply IH | done].
Qed.

(** X4: both helpers decode a concatenation piece by piece: the result of
    s1 + s2 is the result of s1 followed by the result of s2, and the
    [KeyError] of s1 - or else of s2 - when one of them raises. *)
Theorem helpers_distribute_over_concatenation (s1 s2 : list N) :
  change_price (s1 ++ s2) data_mapping
  = match change_price s1 data_mapping with
    | inl e => inl e
    | inr r1 => match change_price s2 data_mapping with
                | inl e => inl e
                | inr r2 => inr (r1 ++ r2)
                end
    end
  /\
  change_sub_title (s1 ++ s2) data_mapping
  = match change_sub_title s1 data_mapping with
    | inl e => inl e
    | inr r1 => match change_sub_title s2 data_mapping with
                | inl e => inl e
                | inr r2 => inr (r1 ++ r2)
                end
    end.
Proof.
  split.
  - unfold change_price. rewrite change_price_loop_app.
    destruct (change_price_loop data_mapping s1 []) as [e|r1]; [done|].
    apply change_price_loop_acc.
  - unfold change_sub_title. rewrite change_sub_title_loop_app.
    destruct (change_sub_title_loop data_mapping s1 []) as [e|r1]; [done|].
    apply change_sub_title_loop_acc.
Qed.

(** X5: on a string without "|" and without a space the two helpers agree,
    results and errors alike; they differ only in that [change_price] looks
    these two characters up in the mapping. *)
Theorem helpers_agree_without_separators (s : list N) :
  124%N ∉ s -> 32%N ∉ s ->
  change_sub_title s data_mapping = change_price s data_mapping.
Proof.
  intros Hbar Hsp. unfold change_sub_title, change_price.
  generalize (@nil N). induction s as [|c s IH]; intros acc; simpl; [done|].
  apply not_elem_of_cons in Hbar as [Hc1 Hbar].
  apply not_elem_of_cons in Hsp as [Hc2 Hsp].
  destruct (N.eqb_spec c 124) as [->|_]; [done|].
  destruct (N.eqb_spec c 32) as [->|_]; [done|].
  rewrite !orb_false_r. destruct (c =? 46)%N; [by apply IH|].
  destruct (data_mapping !! c); [by apply IH | done].
Qed.

End helpers_more.

Lemma helpers_agree_without_separators_witness :
  dongchedi.change_sub_title (py "a.a") (<[97%N := py "1"]> ∅)
  = dongchedi.change_price (py "a.a") (<[97%N := py "1"]> ∅).
Proof.
  apply helpers_agree_without_separators; intros H; not_in_literal H.
Defined.

(** ** The rasteriser and its memo table *)

Section rasteriser_more.

Variable lib : Library.

(** The undecorated function reads nothing of the state but the files. *)
Lemma body_reads_files_only (k : key) (w w2 : World) :
  fs w2 = fs w ->
  convert_cmap_to_image_body lib k w2
  = (fst (convert_cmap_to_image_body lib k w),
     set_fs (fs (snd (convert_cmap_to_image_body lib k w))) w2).
Proof.
  intros Hfs. destruct k as [[c p] s]. unfold convert_cmap_to_image_body.
  rewrite Hfs.
  assert (Hid : set_fs (fs w) w2 = w2) by (rewrite <- Hfs; by destruct w2).
  destruct (negb (path_exists (fs w) p)); [cbn; by rewrite Hid|].
  destruct (c <? 0); [cbn; by rewrite Hid|].
  unfold bind, lift, ret, save.
  destruct (new_image lib _ 255) as [e|temp_img]; [cbn; by rewrite Hid|].
  destruct (truetype lib (fs w) p s) as [e|font]; [cbn; by rewrite Hid|].
  destruct (chr c) as [e|character]; [cbn; by rewrite Hid|].
  rewrite Hfs. destruct (write_file _ _ _) as [e|f]; cbn; [by rewrite Hid|done].
Qed.

(** X6: a call that raises is not memoized and leaves everything but the
    miss counter as it was, so the same call raises the same exception
    again and counts one more miss each time. *)
Theorem failed_call_is_repeated (k : key) (w w1 : World) (e : exn) :
  call lib k w = (inl e, w1) ->
  w1 = add_miss w /\ call lib k w1 = (inl e, add_miss w1).
Proof.
  intros Hcall.
  destruct (call_cases lib k w)
    as [(i & _ & Hr)|[(e' & Hget & Hr)|(t & f & _ & _ & Hr)]];
    rewrite Hr in Hcall; [done| |done].
  injection Hcall as -> <-. split; [done|].
  rewrite (call_miss lib k w Hget) in Hr.
  rewrite (call_miss lib k (add_miss w) Hget).
  rewrite (body_reads_files_only k (add_miss w) (add_miss (add_miss w)) eq_refl).
  destruct (convert_cmap_to_image_body lib k (add_miss w)) as [[e0|img] w'];
    [|done].
  injection Hr as -> ->. done.
Qed.

(** X7: the checks of the rasteriser come in a fixed order, and the first
    one that fails decides the exception: a missing font file before a
    negative code point, that before a canvas that cannot be made (a
    negative size, or a size that [Image.new] refuses), that before a font
    that does not load, and that before a code point that [chr] refuses
    ([ValueError] above 0x10FFFF, [OverflowError] beyond the range of a C
    int). None of these failures changes the state. *)
Theorem validation_order (cmap_code : Z) (font_path : list N) (img_size : Z)
    (w : World) :
  let body := convert_cmap_to_image_body lib (cmap_code, font_path, img_size) w in
  (path_exists (fs w) font_path = false ->
   body = (inl (FileNotFoundError font_path), w)) /\
  (path_exists (fs w) font_path = true ->
   (cmap_code < 0 ->
    body = (inl (ValueError (invalid_codepoint cmap_code)), w)) /\
   (0 <= cmap_code ->
    (img_size < 0 -> body = (inl (ValueError negative_image_size), w)) /\
    (0 <= img_size ->
     (forall e,
        Image_new_error lib (img_size * 2, img_size * 2) = Some e ->
        body = (inl e, w)) /\
     (Image_new_error lib (img_size * 2, img_size * 2) = None ->
      forall r, truetype lib (fs w) font_path img_size = r ->
      match r with
      | inl _ => body = (inl (ValueError cannot_load_font), w)
      | inr _ =>
          (1114111 < cmap_code <= 2147483647 ->
           body = (inl (ValueError chr_out_of_range), w)) /\
          (2147483647 < cmap_code -> body = (inl OverflowError, w))
      end)))).
Proof.
  cbv zeta. unfold convert_cmap_to_image_body. split; [by intros ->|].
  intros ->. cbn [negb]. split.
  - intros Hc. by destruct (Z.ltb_spec cmap_code 0); [|lia].
  - intros Hc. destruct (Z.ltb_spec cmap_code 0) as [|_]; [lia|].
    unfold bind, lift, new_image. cbn [fst snd]. split.
    + intros Hs. by destruct (Z.ltb_spec (img_size * 2) 0); [|lia].
    + intros Hs. destruct (Z.ltb_spec (img_size * 2) 0) as [|_]; [lia|].
      cbn [orb]. split; [by intros e ->|]. intros -> r Hr.
      rewrite Hr. unfold truetype in Hr.
      destruct r as [e|font].
      * destruct (read_file _ _); [by injection Hr as <-|].
        destruct (ImageFont_truetype_error _ _ _); [by injection Hr as <-|done].
      * unfold chr. split; intros Hbig.
        -- destruct (Z.ltb_spec cmap_code (-2147483648)) as [|_]; [lia|].
           destruct (Z.ltb_spec 2147483647 cmap_code) as [|_]; [lia|].
           cbn [orb]. destruct (Z.ltb_spec cmap_code 0) as [|_]; [lia|].
           by destruct (Z.ltb_spec 1114111 cmap_code); [|lia].
        -- destruct (Z.ltb_spec cmap_code (-2147483648)) as [|_]; [lia|].
           by destruct (Z.ltb_spec 2147483647 cmap_code); [|lia].
Qed.

Lemma cache_remove_length (k : key) (table : list (key * Image)) (img : Image) :
  cache_get k table = Some img ->
  S (length (cache_remove k table)) = length table.
Proof.
  induction table as [|[k1 v1] rest IH]; simpl; [done|].
  destruct (key_eqb k k1); [done|]. intros H. simpl. by rewrite IH.
Qed.

Lemma removelast_length {A} (l : list A) :
  length (removelast l) = Nat.pred (length l).
Proof.
  induction l as [|x l IH]; [done|]. destruct l as [|y l]; [done|].
  change (removelast (x :: y :: l)) with (x :: removelast (y :: l)).
  cbn [length] in IH |- *. by rewrite IH.
Qed.

Lemma call_bounded (k : key) (w : World) :
  (length (memo w) <= maxsize)%nat ->
  (length (memo (snd (call lib k w))) <= maxsize)%nat.
Proof.
  intros Hlen.
  destruct (call_cases lib k w)
    as [(img & Hget & ->)|[(e & _ & ->)|(t & f & _ & _ & ->)]]; simpl.
  - unfold cache_touch. simpl. by rewrite (cache_remove_length k _ img).
  - done.
  - unfold cache_store. destruct (Nat.leb_spec maxsize (length (memo w))).
    + simpl. rewrite removelast_length.
      unfold maxsize in *. lia.
    + simpl. lia.
Qed.

(** X8: the memo table never holds more than 128 bitmaps, whatever calls
    the process has made. *)
Theorem memo_is_bounded (w : World) :
  reachable lib w -> (length (memo w) <= 128)%nat.
Proof.
  induction 1 as [w Hw|w k _ IH|w w' _ IH Hm].
  - rewrite Hw. simpl. lia.
  - by apply call_bounded.
  - by rewrite Hm.
Qed.

Lemma call_stores (k : key) (w w1 : World) (img : Image) :
  call lib k w = (inr img, w1) -> cache_get k (memo w1) = Some img.
Proof.
  intros Hcall.
  destruct (call_cases lib k w)
    as [(i & Hget & Hr)|[(e & _ & He)|(t & f & _ & _ & Hr)]]; [|congruence|].
  - rewrite Hr in Hcall. injection Hcall as <- <-. simpl.
    by rewrite key_eqb_refl.
  - rewrite Hr in Hcall. injection Hcall as <- <-. simpl.
    unfold cache_store. destruct (maxsize <=? _)%nat; simpl;
      by rewrite key_eqb_refl.
Qed.

(** X9: the memo table is keyed by the arguments alone and is never
    checked against the files: once a call has returned a bitmap, the same
    call made next returns that bitmap whatever has happened to the files
    meanwhile - a replaced or deleted font file, a removed "./imgs" - and
    writes nothing. *)
Theorem memo_is_never_revalidated (k : key) (w w1 w2 : World) (img : Image) :
  call lib k w = (inr img, w1) ->
  memo w2 = memo w1 ->
  fst (call lib k w2) = inr img /\ fs (snd (call lib k w2)) = fs w2.
Proof.
  intros Hcall Hm. apply call_stores in Hcall. rewrite <- Hm in Hcall.
  by rewrite (call_hit lib k w2 img Hcall).
Qed.

End rasteriser_more.

(** ** The assembler *)

Section assembler_more.

Variable lib : Library.

Lemma uint_chars_inj (u v : Decimal.uint) : uint_chars u = uint_chars v -> u = v.
Proof.
  revert v. induction u; intros v; destruct v; simpl; intros H;
    try discriminate H; try reflexivity;
    injection H as H; f_equal; by apply IHu.
Qed.

Lemma format_int_inj (a b : Z) : format_int a = format_int b -> a = b.
Proof.
  unfold format_int. intros H. apply DecimalZ.to_int_inj.
  destruct (Z.to_int a) as [u|u], (Z.to_int b) as [v|v].
  - f_equal. by apply uint_chars_inj.
  - exfalso. pose proof (uint_chars_digits u) as Hd. rewrite H in Hd.
    apply Forall_cons in Hd as [Hd _]. discriminate Hd.
  - exfalso. pose proof (uint_chars_digits v) as Hd. rewrite <- H in Hd.
    apply Forall_cons in Hd as [Hd _]. discriminate Hd.
  - injection H as H. f_equal. by apply uint_chars_inj.
Qed.

(** Two texts that agree up to their first underscore. *)
Lemma split_at_underscore (x1 x2 r1 r2 : list N) :
  95%N ∉ x1 -> 95%N ∉ x2 ->
  x1 ++ 95%N :: r1 = x2 ++ 95%N :: r2 -> x1 = x2 /\ r1 = r2.
Proof.
  revert x2. induction x1 as [|c x1 IH]; intros x2 H1 H2 Heq.
  - destruct x2 as [|c2 x2]; [by injection Heq|].
    injection Heq as <- _. exfalso. apply H2. apply elem_of_cons. by left.
  - destruct x2 as [|c2 x2].
    + injection Heq as -> _. exfalso. apply H1. apply elem_of_cons. by left.
    + injection Heq as -> Heq.
      apply not_elem_of_cons in H1 as [_ H1].
      apply not_elem_of_cons in H2 as [_ H2].
      destruct (IH x2 H1 H2 Heq) as [-> ->]. done.
Qed.

Lemma file_name_no_slash_first (n : Z) (rest : list N) :
  startswith [47%N] (format_int n ++ 95%N :: rest) = false.
Proof.
  destruct (format_int n) as [|c x] eqn:Hf; [done|].
  assert (Hc : c ∈ format_int n) by (rewrite Hf; apply elem_of_cons; by left).
  apply format_int_plain in Hc as [Hc _]. cbn [app startswith].
  rewrite andb_true_r. apply N.eqb_neq. congruence.
Qed.

Lemma join_inj (d b1 b2 : list N) :
  startswith [47%N] b1 = false -> startswith [47%N] b2 = false ->
  join d b1 = join d b2 -> b1 = b2.
Proof.
  unfold join. intros -> ->. destruct d as [|c d]; [done|].
  destruct (List.last (c :: d) 0 =? 47)%N; intros H.
  - by apply app_inv_head in H.
  - apply app_inv_head in H. by injection H.
Qed.

(** X10: the name of a cache file determines its entry: two different
    (code point, glyph identifier) pairs never share a cache file. *)
Theorem cache_path_inj (d : list N) (c1 c2 : N) (g1 g2 : list N) :
  cache_path d c1 g1 = cache_path d c2 g2 -> c1 = c2 /\ g1 = g2.
Proof.
  unfold cache_path, ord. change (py "_") with [95%N]. cbn [app].
  intros H. apply join_inj in H; try apply file_name_no_slash_first.
  apply split_at_underscore in H as [Hc Hg].
  - split.
    + apply format_int_inj in Hc. by apply N2Z.inj in Hc.
    + by apply app_inv_tail in Hg.
  - intros Hin. by apply format_int_plain in Hin as [_ ?].
  - intros Hin. by apply format_int_plain in Hin as [_ ?].
Qed.

(** *** What one entry does to the state *)

Lemma cache_write_state (cache_dir : option (list N)) (cmap_code : Z)
    (glyph_name : list N) (image : Image) (w : World) :
  let w' := snd (cache_write lib cache_dir cmap_code glyph_name image w) in
  memo w' = memo w /\ hits w' = hits w /\ misses w' = misses w /\ log w' = log w /\
  (truthy cache_dir = None -> w' = w).
Proof.
  unfold cache_write. destruct (truthy cache_dir) as [d|]; [|done].
  unfold bind, lift. destruct (chr cmap_code) as [e|character]; [done|].
  destruct (negb _); [|done]. unfold save.
  by destruct (write_file _ _ _).
Qed.

Lemma call_state (k : key) (w : World) :
  let w' := snd (call lib k w) in
  log w' = log w /\ (hits w' + misses w' = S (hits w + misses w))%nat.
Proof.
  destruct (call_cases lib k w)
    as [(img & _ & ->)|[(e & _ & ->)|(t & f & _ & _ & ->)]]; simpl; split;
    try done; lia.
Qed.

Lemma try_entry_state (classification : list N -> exn + list N)
    (font_path : list N) (image_size : Z) (cache_dir : option (list N))
    (cmap_code : Z) (glyph_name : list N) (w : World) :
  let w' := snd (try_entry lib classification font_path image_size cache_dir
                           cmap_code glyph_name w) in
  log w' = log w /\ (hits w' + misses w' = S (hits w + misses w))%nat.
Proof.
  unfold try_entry, bind.
  change (convert_cmap_to_image lib cmap_code font_path image_size)
    with (call lib (cmap_code, font_path, image_size)).
  pose proof (call_state (cmap_code, font_path, image_size) w) as Hc.
  destruct (call lib (cmap_code, font_path, image_size) w) as [[e|image] w1];
    cbn [snd] in Hc |- *; [done|].
  pose proof (cache_write_state cache_dir cmap_code glyph_name image w1)
    as (_ & Hh & Hm & Hl & _).
  destruct (cache_write lib cache_dir cmap_code glyph_name image w1)
    as [[e|[]] w2]; cbn [snd] in Hh, Hm, Hl |- *; unfold lift; cbn [snd].
  all: rewrite Hl, Hh, Hm; done.
Qed.

Lemma progress_counters (show_progress : bool) (total_chars idx : nat) (w : World) :
  hits (progress show_progress total_chars idx w) = hits w /\
  misses (progress show_progress total_chars idx w) = misses w /\
  memo (progress show_progress total_chars idx w) = memo w.
Proof. unfold progress. by destruct (_ && _). Qed.

Lemma loop_calls (classification : list N -> exn + list N)
    (font_path : list N) (image_size : Z) (show_progress : bool)
    (cache_dir : option (list N)) (total_chars idx : nat)
    (items : list (Z * list N)) (st : gmap (list N) (list N) * World) :
  let w' := snd (loop lib classification font_path image_size show_progress
                      cache_dir total_chars idx items st) in
  (hits w' + misses w' = hits (snd st) + misses (snd st) + length items)%nat.
Proof.
  revert idx st. induction items as [|[c g] items IH]; intros idx [fm w];
    cbn [loop length snd]; [lia|].
  cbv zeta in IH. rewrite IH. unfold iteration.
  pose proof (try_entry_state classification font_path image_size cache_dir c g
                (progress show_progress total_chars idx w)) as [_ Hn].
  destruct (progress_counters show_progress total_chars idx w) as (Hh & Hm & _).
  rewrite Hh, Hm in Hn.
  destruct (try_entry _ _ _ _ _ _ _ _) as [[e|text] w1]; cbn [snd] in Hn |- *;
    cbn [emit hits misses]; lia.
Qed.

(** X11: the call renders each entry of the character map exactly once:
    when it returns, the memoized rasteriser has been called as many times
    as the character map has entries (each call counted as a hit or as a
    miss). *)
Theorem one_render_per_entry (font_path : list N) (image_size : Z)
    (show_progress use_cache : bool) (cache_dir : option (list N))
    (w w1 : World) (cmap : list (Z * list N))
    (classification : list N -> exn + list N) :
  prologue lib font_path cache_dir w = (inr (cmap, classification), w1) ->
  let w' := snd (extract_text_from_font lib font_path image_size show_progress
                                        use_cache cache_dir w) in
  (hits w' + misses w' = hits w + misses w + length cmap)%nat.
Proof.
  intros Hpro. cbv zeta. rewrite extract_unfold, Hpro. cbn [snd].
  pose proof (loop_calls classification font_path image_size show_progress
                cache_dir (length cmap) 0 cmap (∅, w1)) as Hl.
  cbv zeta in Hl. cbn [snd] in Hl.
  assert (Hw1 : hits w1 = hits w /\ misses w1 = misses w).
  { destruct (path_exists (fs w) font_path) eqn:Hex.
    - rewrite (prologue_unfold lib _ _ _ Hex) in Hpro.
      pose proof (prepare_cache_dir_frame cache_dir w) as [(_ & Hh & Hm & _) _].
      destruct (prepare_cache_dir cache_dir w) as [[e|[]] w0]; [done|].
      cbn [snd] in Hh, Hm.
      destruct (load_cmap lib (fs w0) font_path) as [e|cm]; [done|].
      destruct (DdddOcr lib) as [e|cl]; [done|].
      destruct cm; [|done]. by injection Hpro as _ _ <-.
    - unfold prologue in Hpro. by rewrite Hex in Hpro. }
  destruct Hw1 as [<- <-].
  destruct show_progress; cbn [emit hits misses]; lia.
Qed.

(** *** The log *)

Lemma loop_log (classification : list N -> exn + list N)
    (font_path : list N) (image_size : Z) (cache_dir : option (list N))
    (total_chars idx : nat) (items : list (Z * list N))
    (st : gmap (list N) (list N) * World) :
  exists failed,
    log (snd (loop lib classification font_path image_size false cache_dir
                   total_chars idx items st))
    = log (snd st) ++ (warning_of <$> failed) /\
    sublist (fst <$> failed) items.
Proof.
  revert idx st. induction items as [|[c g] items IH]; intros idx [fm w].
  - exists []. cbn. by rewrite app_nil_r.
  - cbn [loop]. unfold iteration. cbn [progress andb].
    pose proof (try_entry_state classification font_path image_size cache_dir
                  c g w) as [Hl _].
    destruct (try_entry _ _ _ _ _ _ _ _) as [[e|text] w1]; cbn [snd] in Hl.
    + destruct (IH (S idx) (<[g:=[]]> fm, emit (warning c g e) w1))
        as (failed & Hlog & Hsub).
      exists ((c, g, e) :: failed). cbn [snd] in Hlog |- *. rewrite Hlog.
      cbn [emit log]. rewrite Hl, <- app_assoc. split; [done|].
      rewrite fmap_cons. cbn [fst]. by apply sublist_skip.
    + destruct (IH (S idx) (<[g:=text]> fm, w1)) as (failed & Hlog & Hsub).
      exists failed. cbn [snd] in Hlog |- *. rewrite Hlog, Hl.
      split; [done|]. by apply sublist_cons.
Qed.

(** X12: without progress reporting the call logs warnings and nothing
    else: what it appends to the log is one warning for each of some
    entries of the character map, in the order of the map and at most one
    per entry. *)
Theorem only_warnings_are_logged (font_path : list N) (image_size : Z)
    (use_cache : bool) (cache_dir : option (list N))
    (w w1 : World) (cmap : list (Z * list N))
    (classification : list N -> exn + list N) :
  prologue lib font_path cache_dir w = (inr (cmap, classification), w1) ->
  exists failed,
    log (snd (extract_text_from_font lib font_path image_size false use_cache
                                     cache_dir w))
    = log w ++ (warning_of <$> failed) /\
    sublist (fst <$> failed) cmap.
Proof.
  intros Hpro. rewrite extract_unfold, Hpro. cbn [snd].
  destruct (loop_log classification font_path image_size cache_dir (length cmap)
              0 cmap (∅, w1)) as (failed & Hlog & Hsub).
  exists failed. split; [|done]. rewrite Hlog. cbn [snd]. f_equal.
  destruct (path_exists (fs w) font_path) eqn:Hex.
  - rewrite (prologue_unfold lib _ _ _ Hex) in Hpro.
    pose proof (prepare_cache_dir_frame cache_dir w) as [(_ & _ & _ & Hl) _].
    destruct (prepare_cache_dir cache_dir w) as [[e|[]] w0]; [done|].
    cbn [snd] in Hl.
    destruct (load_cmap lib (fs w0) font_path) as [e|cm]; [done|].
    destruct (DdddOcr lib) as [e|cl]; [done|].
    destruct cm; [|done]. by injection Hpro as _ _ <-.
  - unfold prologue in Hpro. by rewrite Hex in Hpro.
Qed.

(** *** Without the directory "./imgs" *)

Lemma call_without_imgs (k : key) (w : World) :
  cache_get k (memo w) = None ->
  fs w !! py "./imgs" <> Some Dir ->
  exists e, call lib k w = (inl e, add_miss w).
Proof.
  intros Hget Hdir.
  destruct (call_cases lib k w)
    as [(i & Hi & _)|[(e & _ & He)|(t & f & _ & Hw & _)]].
  - congruence.
  - by exists e.
  - exfalso. cbv zeta in Hw.
    destruct (write_file_needs_parent (fs w) (imgs_path (fst (fst k)))
                (png lib (finish lib (snd k) t))) as [e He].
    + rewrite dirname_imgs_path. discriminate.
    + by rewrite dirname_imgs_path.
    + congruence.
Qed.

Lemma loop_without_imgs (classification : list N -> exn + list N)
    (font_path : list N) (image_size : Z) (show_progress : bool)
    (cache_dir : option (list N)) (total_chars idx : nat)
    (items : list (Z * list N)) (font_map : gmap (list N) (list N)) (w : World) :
  memo w = [] -> fs w !! py "./imgs" <> Some Dir -> all_unrecognized font_map ->
  let st := loop lib classification font_path image_size show_progress
                 cache_dir total_chars idx items (font_map, w) in
  all_unrecognized (fst st) /\ memo (snd st) = [] /\ fs (snd st) = fs w.
Proof.
  revert idx font_map w. induction items as [|[c g] items IH];
    intros idx fm w Hm Hdir Hfm; [done|].
  cbn [loop]. unfold iteration.
  destruct (progress_counters show_progress total_chars idx w) as (_ & _ & Hpm).
  pose proof (progress_fs show_progress total_chars idx w) as Hpf.
  set (wp := progress show_progress total_chars idx w) in *.
  unfold try_entry, bind.
  change (convert_cmap_to_image lib c font_path image_size)
    with (call lib (c, font_path, image_size)).
  destruct (call_without_imgs (c, font_path, image_size) wp) as [e ->].
  { by rewrite Hpm, Hm. }
  { by rewrite Hpf. }
  destruct (IH (S idx) (<[g:=[]]> fm) (emit (warning c g e) (add_miss wp)))
    as (Hall & Hmemo & Hfs).
  - cbn. by rewrite Hpm.
  - cbn. by rewrite Hpf.
  - intros g' v. rewrite lookup_insert. case_decide; [by intros [= <-]|].
    apply Hfm.
  - cbv zeta. split; [done|]. split; [done|]. rewrite Hfs. cbn. exact Hpf.
Qed.

(** X13: in a fresh process whose working directory has no "./imgs", and
    with no cache directory asked for, no glyph is ever recognised: a call
    that returns gives the empty string for every glyph identifier,
    whatever the font and the classifier, and writes no file. *)
Theorem nothing_recognized_without_imgs (font_path : list N) (image_size : Z)
    (show_progress use_cache : bool) (cache_dir : option (list N)) (w w' : World)
    (font_map : gmap (list N) (list N)) :
  truthy cache_dir = None ->
  memo w = [] ->
  fs w !! py "./imgs" <> Some Dir ->
  extract_text_from_font lib font_path image_size show_progress use_cache
                         cache_dir w = (inr font_map, w') ->
  all_unrecognized font_map /\ fs w' = fs w.
Proof.
  intros Hcd Hm Hdir Hr. rewrite extract_unfold in Hr.
  destruct (prologue lib font_path cache_dir w) as [[e|[cmap cl]] w1] eqn:Hpro;
    [done|].
  assert (Hw1 : w1 = w).
  { destruct (path_exists (fs w) font_path) eqn:Hex.
    - rewrite (prologue_unfold lib _ _ _ Hex) in Hpro.
      unfold prepare_cache_dir in Hpro. rewrite Hcd in Hpro. cbn in Hpro.
      destruct (load_cmap lib (fs w) font_path) as [e|cm]; [done|].
      destruct (DdddOcr lib) as [e|cl']; [done|].
      destruct cm; [|done]. by injection Hpro as _ _ <-.
    - unfold prologue in Hpro. by rewrite Hex in Hpro. }
  subst w1.
  destruct (loop_without_imgs cl font_path image_size show_progress cache_dir
              (length cmap) 0 cmap ∅ w Hm Hdir) as (Hall & _ & Hfs).
  { intros g v Hg. by rewrite lookup_empty in Hg. }
  cbv zeta in Hr. injection Hr as <- <-. split; [done|].
  by destruct show_progress.
Qed.

(** *** Files *)

Lemma loop_frame_exact (classification : list N -> exn + list N)
    (font_path : list N) (image_size : Z) (show_progress : bool)
    (cache_dir : option (list N)) (total_chars idx : nat)
    (items : list (Z * list N)) (st : gmap (list N) (list N) * World)
    (p : list N) :
  truthy cache_dir = None ->
  (forall c, p <> imgs_path c) ->
  fs (snd (loop lib classification font_path image_size show_progress
                cache_dir total_chars idx items st)) !! p
  = fs (snd st) !! p.
Proof.
  intros Hcd Hne. revert idx st. induction items as [|[c g] items IH];
    intros idx [fm w]; [done|].
  cbn [loop]. rewrite IH. unfold iteration.
  pose proof (progress_fs show_progress total_chars idx w) as Hpf.
  set (wp := progress show_progress total_chars idx w) in *.
  unfold try_entry, bind.
  change (convert_cmap_to_image lib c font_path image_size)
    with (call lib (c, font_path, image_size)).
  pose proof (call_frame lib (c, font_path, image_size) wp p (Hne c)) as Hcall.
  destruct (call lib (c, font_path, image_size) wp) as [[e|image] w1];
    cbn [snd] in Hcall |- *; [cbn; by rewrite Hcall, Hpf|].
  pose proof (cache_write_state cache_dir c g image w1) as (_ & _ & _ & _ & Hid).
  specialize (Hid Hcd).
  destruct (cache_write lib cache_dir c g image w1) as [[e|[]] w2];
    cbn [snd] in Hid |- *; subst w2; unfold lift.
  - cbn. by rewrite Hcall, Hpf.
  - destruct (classification _); cbn; by rewrite Hcall, Hpf.
Qed.

Lemma imgs_path_inside (c : Z) : outside_imgs (imgs_path c) = false.
Proof.
  unfold outside_imgs, components. rewrite imgs_path_eq.
  change ([46; 47; 105; 109; 103; 115; 47]%N
          ++ format_int c ++ [46; 112; 110; 103]%N)
    with ([46%N] ++ 47%N :: ([105; 109; 103; 115]%N
          ++ 47%N :: (format_int c ++ [46; 112; 110; 103]%N))).
  rewrite !split_part by reflexivity.
  cbn [List.filter]. rewrite !andb_false_r. reflexivity.
Qed.

(** X14: the call never modifies or removes a file or directory that
    exists when it starts at a relative path that does not lead into
    "imgs" (no "..", first component other than "imgs"); and when no
    cache directory is asked for it creates nothing there either: every
    such path is exactly as it was. *)
Theorem only_imgs_files_are_touched (font_path : list N) (image_size : Z)
    (show_progress use_cache : bool) (cache_dir : option (list N)) (w : World)
    (p : list N) :
  outside_imgs p = true ->
  let w' := snd (extract_text_from_font lib font_path image_size show_progress
                                        use_cache cache_dir w) in
  (forall n, fs w !! p = Some n -> fs w' !! p = Some n) /\
  (truthy cache_dir = None -> fs w' !! p = fs w !! p).
Proof.
  intros Hout.
  assert (Hne : forall c, p <> imgs_path c).
  { intros c ->. by rewrite imgs_path_inside in Hout. }
  clear Hout. cbv zeta. split.
  - intros n Hp. by apply extract_frame.
  - intros Hcd. rewrite extract_unfold.
    destruct (prologue lib font_path cache_dir w) as [[e|[cmap cl]] w1] eqn:Hpro.
    + cbn [snd]. destruct (path_exists (fs w) font_path) eqn:Hex.
      * rewrite (prologue_unfold lib _ _ _ Hex) in Hpro.
        unfold prepare_cache_dir in Hpro. rewrite Hcd in Hpro. cbn in Hpro.
        destruct (load_cmap lib (fs w) font_path) as [e0|cm];
          [by injection Hpro as _ <-|].
        destruct (DdddOcr lib) as [e0|cl']; [by injection Hpro as _ <-|].
        destruct cm; [done | by injection Hpro as _ <-].
      * unfold prologue in Hpro. rewrite Hex in Hpro. by injection Hpro as _ <-.
    + assert (Hw1 : w1 = w).
      { destruct (path_exists (fs w) font_path) eqn:Hex.
        - rewrite (prologue_unfold lib _ _ _ Hex) in Hpro.
          unfold prepare_cache_dir in Hpro. rewrite Hcd in Hpro. cbn in Hpro.
          destruct (load_cmap lib (fs w) font_path) as [e|cm]; [done|].
          destruct (DdddOcr lib) as [e|cl']; [done|].
          destruct cm; [|done]. by injection Hpro as _ _ <-.
        - unfold prologue in Hpro. by rewrite Hex in Hpro. }
      subst w1. cbn [snd].
      pose proof (loop_frame_exact cl font_path image_size show_progress
                    cache_dir (length cmap) 0 cmap (∅, w) p Hcd Hne) as Hl.
      cbn [snd] in Hl. by destruct show_progress.
Qed.

End assembler_more.

(** ** The crawler's mapping *)

Section hex_facts.

Lemma hex_value_digit (c : N) :
  is_hex_digit c = true -> exists d, hex_value c = Some d /\ 0 <= d < 16.
Proof.
  unfold is_hex_digit, hex_value. intros H.
  destruct ((48 <=? c) && (c <=? 57))%N eqn:H1.
  { apply andb_prop in H1 as [Ha Hb]. apply N.leb_le in Ha, Hb.
    eexists. split; [reflexivity | lia]. }
  destruct ((97 <=? c) && (c <=? 102))%N eqn:H2.
  { apply andb_prop in H2 as [Ha Hb]. apply N.leb_le in Ha, Hb.
    eexists. split; [reflexivity | lia]. }
  destruct ((65 <=? c) && (c <=? 70))%N eqn:H3; [|done].
  apply andb_prop in H3 as [Ha Hb]. apply N.leb_le in Ha, Hb.
  eexists. split; [reflexivity | lia].
Qed.

Lemma hex_digit_not_special (c : N) :
  is_hex_digit c = true ->
  is_space c = false /\ c <> 43%N /\ c <> 45%N /\ c <> 95%N /\ c <> 120%N /\
  c <> 88%N.
Proof.
  unfold is_hex_digit, is_space. intros H.
  repeat split; try (intros ->; discriminate H).
  destruct (N.eqb_spec c 32) as [->|_]; [discriminate H|].
  rewrite orb_false_r. apply andb_false_iff.
  destruct (N.leb_spec 9 c) as [H9|]; [|by left].
  right. apply N.leb_gt.
  apply orb_prop in H as [H|H]; [apply orb_prop in H as [H|H]|];
    apply andb_prop in H as [Ha _]; apply N.leb_le in Ha; lia.
Qed.

Lemma upper_hex_is_hex (c : N) : is_upper_hex c = true -> is_hex_digit c = true.
Proof.
  unfold is_upper_hex, is_hex_digit. intros H.
  apply orb_prop in H as [-> | ->]; [done|]. by rewrite orb_true_r.
Qed.

Lemma scan16_hex (hex : list N) (acc : Z) (digits : nat) :
  forallb is_hex_digit hex = true ->
  (0 < digits + length hex)%nat ->
  scan16 hex acc false digits
  = Some (fold_left (fun a c => a * 16 + default 0 (hex_value c)) hex acc, []).
Proof.
  revert acc digits. induction hex as [|c hex IH]; intros acc digits Hh Hn.
  - cbn. destruct digits; [simpl in Hn; lia | done].
  - cbn [forallb] in Hh. apply andb_prop in Hh as [Hc Hh].
    destruct (hex_digit_not_special c Hc) as (_ & _ & _ & Hus & _).
    destruct (hex_value_digit c Hc) as (d & Hd & _).
    cbn [scan16 fold_left]. rewrite Hd.
    destruct (N.eqb_spec c 95) as [|_]; [done|].
    apply IH; [done | simpl; lia].
Qed.

(** The parser on a non-empty run of hexadecimal digits. *)
Lemma PyLong_FromString_hex (hex : list N) :
  hex_ok hex -> PyLong_FromString hex = Some (hex_number hex).
Proof.
  intros [Hne Hh]. destruct hex as [|c hex]; [done|].
  pose proof Hh as Hh'. cbn [forallb] in Hh'. apply andb_prop in Hh' as [Hc Hrest].
  destruct (hex_digit_not_special c Hc) as (Hsp & Hplus & Hminus & Hus & _).
  apply N.eqb_neq in Hplus, Hminus, Hus.
  unfold PyLong_FromString. cbn [lstrip_space]. rewrite Hsp, Hplus, Hminus.
  assert (Hprefix : match c :: hex with
                    | zero :: x :: rest =>
                        if ((zero =? 48) && ((x =? 120) || (x =? 88)))%N
                        then if startswith [95%N] rest then drop 1 rest else rest
                        else c :: hex
                    | _ => c :: hex
                    end = c :: hex).
  { destruct hex as [|x rest]; [done|].
    cbn [forallb] in Hrest. apply andb_prop in Hrest as [Hx _].
    destruct (hex_digit_not_special x Hx) as (_ & _ & _ & _ & Hx1 & Hx2).
    apply N.eqb_neq in Hx1, Hx2. by rewrite Hx1, Hx2, andb_false_r. }
  rewrite Hprefix. cbn [startswith]. rewrite N.eqb_sym, Hus. cbn [andb].
  rewrite (scan16_hex (c :: hex) 0 0 Hh) by (simpl; lia).
  cbn [lstrip_space]. unfold hex_number. by rewrite Z.mul_1_l.
Qed.

Lemma to_ascii_hex (is_space' : N -> bool) (decimal : N -> option N)
    (hex : list N) :
  forallb is_hex_digit hex = true -> to_ascii is_space' decimal hex = hex.
Proof.
  intros H. unfold to_ascii. by rewrite (hex_ascii hex H).
Qed.

(** [int(_, 16)] on a non-empty run of hexadecimal digits. *)
Lemma int16_hex (is_space' : N -> bool) (decimal : N -> option N)
    (hex : list N) :
  hex_ok hex -> int16 is_space' decimal hex = inr (hex_number hex).
Proof.
  intros Hh. unfold int16. rewrite to_ascii_hex by apply Hh.
  by rewrite PyLong_FromString_hex.
Qed.

End hex_facts.

Section numeral_facts.

Let step (a : Z) (c : N) : Z := a * 16 + default 0 (hex_value c).

Lemma fold_hex_acc (hex : list N) (acc : Z) :
  fold_left step hex acc
  = acc * 16 ^ Z.of_nat (length hex) + fold_left step hex 0.
Proof.
  revert acc. induction hex as [|c hex IH]; intros acc.
  - cbn. lia.
  - cbn [fold_left length]. rewrite IH, (IH (step 0 c)).
    rewrite Nat2Z.inj_succ, Z.pow_succ_r by lia. unfold step. lia.
Qed.

Lemma hex_number_bound (hex : list N) :
  forallb is_hex_digit hex = true ->
  0 <= hex_number hex < 16 ^ Z.of_nat (length hex).
Proof.
  unfold hex_number. fold step.
  induction hex as [|c hex IH]; intros Hh; [cbn; lia|].
  cbn [forallb] in Hh. apply andb_prop in Hh as [Hc Hh].
  destruct (hex_value_digit c Hc) as (d & Hd & Hr).
  cbn [fold_left length]. rewrite fold_hex_acc.
  rewrite Nat2Z.inj_succ, Z.pow_succ_r by lia.
  specialize (IH Hh). unfold step in *. rewrite Hd. cbn [default].
  change (id d) with d.
  revert IH. generalize (fold_left (fun (a : Z) (c : N) =>
                                      a * 16 + default 0 (hex_value c)) hex 0).
  generalize (16 ^ Z.of_nat (length hex)). intros P X IH.
  assert (Hm : d * P <= 15 * P) by (apply Z.mul_le_mono_nonneg_r; lia).
  assert (Hn : 0 <= d * P) by (apply Z.mul_nonneg_nonneg; lia).
  rewrite Z.mul_0_l, Z.add_0_l. lia.
Qed.

Lemma hex_value_upper_inj (c1 c2 : N) :
  is_upper_hex c1 = true -> is_upper_hex c2 = true ->
  hex_value c1 = hex_value c2 -> c1 = c2.
Proof.
  unfold is_upper_hex, hex_value. intros H1 H2.
  destruct ((48 <=? c1) && (c1 <=? 57))%N eqn:A1;
    destruct ((48 <=? c2) && (c2 <=? 57))%N eqn:A2;
    cbn [orb] in H1, H2.
  all: repeat match goal with
              | H : (_ && _)%bool = true |- _ =>
                  let Ha := fresh in let Hb := fresh in
                  apply andb_prop in H as [Ha Hb];
                  apply N.leb_le in Ha, Hb
              end.
  - intros [= Hv]. lia.
  - assert (Hl : ((97 <=? c2) && (c2 <=? 102))%N = false).
    { apply andb_false_iff. left. apply N.leb_gt. lia. }
    rewrite Hl. assert (Hu : ((65 <=? c2) && (c2 <=? 70))%N = true).
    { apply andb_true_intro. split; apply N.leb_le; lia. }
    rewrite Hu. intros [= Hv]. lia.
  - assert (Hl : ((97 <=? c1) && (c1 <=? 102))%N = false).
    { apply andb_false_iff. left. apply N.leb_gt. lia. }
    rewrite Hl. assert (Hu : ((65 <=? c1) && (c1 <=? 70))%N = true).
    { apply andb_true_intro. split; apply N.leb_le; lia. }
    rewrite Hu. intros [= Hv]. lia.
  - assert (Hl1 : ((97 <=? c1) && (c1 <=? 102))%N = false).
    { apply andb_false_iff. left. apply N.leb_gt. lia. }
    assert (Hl2 : ((97 <=? c2) && (c2 <=? 102))%N = false).
    { apply andb_false_iff. left. apply N.leb_gt. lia. }
    assert (Hu1 : ((65 <=? c1) && (c1 <=? 70))%N = true).
    { apply andb_true_intro. split; apply N.leb_le; lia. }
    assert (Hu2 : ((65 <=? c2) && (c2 <=? 70))%N = true).
    { apply andb_true_intro. split; apply N.leb_le; lia. }
    rewrite Hl1, Hl2, Hu1, Hu2. intros [= Hv]. lia.
Qed.

Lemma forallb_upper_hex (hex : list N) :
  forallb is_upper_hex hex = true -> forallb is_hex_digit hex = true.
Proof.
  induction hex as [|c hex IH]; [done|]. cbn [forallb]. intros H.
  apply andb_prop in H as [Hc Hh]. by rewrite (upper_hex_is_hex c Hc), IH.
Qed.

(** Upper-case numerals of one length that denote the same number are
    the same. *)
Lemma hex_number_inj (h1 h2 : list N) :
  forallb is_upper_hex h1 = true -> forallb is_upper_hex h2 = true ->
  length h1 = length h2 ->
  hex_number h1 = hex_number h2 -> h1 = h2.
Proof.
  unfold hex_number. fold step.
  revert h2. induction h1 as [|c1 h1 IH]; intros [|c2 h2] H1 H2 Hlen Heq;
    try done.
  cbn [forallb] in H1, H2. apply andb_prop in H1 as [Hc1 H1].
  apply andb_prop in H2 as [Hc2 H2]. injection Hlen as Hlen.
  cbn [fold_left] in Heq. rewrite (fold_hex_acc h1), (fold_hex_acc h2) in Heq.
  pose proof (hex_number_bound h1 (forallb_upper_hex h1 H1)) as B1.
  pose proof (hex_number_bound h2 (forallb_upper_hex h2 H2)) as B2.
  unfold hex_number in B1, B2. rewrite <- Hlen in *.
  destruct (hex_value_digit c1 (upper_hex_is_hex c1 Hc1)) as (d1 & Hd1 & R1).
  destruct (hex_value_digit c2 (upper_hex_is_hex c2 Hc2)) as (d2 & Hd2 & R2).
  unfold step in *. rewrite Hd1, Hd2 in Heq. cbn [default] in Heq.
  change (id d1) with d1 in Heq. change (id d2) with d2 in Heq.
  assert (Hpow : 0 < 16 ^ Z.of_nat (length h1)) by (apply Z.pow_pos_nonneg; lia).
  assert (Hd : d1 = d2) by nia. subst d2.
  f_equal.
  - apply hex_value_upper_inj; try done. congruence.
  - apply IH; try done. lia.
Qed.

Lemma startswith_app (prefix s : list N) :
  startswith prefix s = true -> s = prefix ++ drop (length prefix) s.
Proof.
  revert s. induction prefix as [|p prefix IH]; intros [|c s]; try done.
  cbn [startswith]. intros H. apply andb_prop in H as [Hc Hs].
  apply N.eqb_eq in Hc as ->. cbn. f_equal. by apply IH.
Qed.

Lemma uni_name_inv (key : list N) :
  uni_name key = true ->
  key = py "uni" ++ drop 3 key /\ length (drop 3 key) = 4%nat /\
  forallb is_upper_hex (drop 3 key) = true.
Proof.
  unfold uni_name. intros H. apply andb_prop in H as [H Hh].
  apply andb_prop in H as [Hp Hl]. apply Nat.eqb_eq in Hl.
  split; [|done]. by apply startswith_app in Hp.
Qed.

End numeral_facts.

Section mapping_facts.

Variable Py_UNICODE_ISSPACE : N -> bool.
Variable Py_UNICODE_TODECIMAL : N -> option N.

Lemma uni_name_parses (key : list N) :
  uni_name key = true ->
  int16 Py_UNICODE_ISSPACE Py_UNICODE_TODECIMAL (drop 3 key)
  = inr (hex_number (drop 3 key)) /\
  chr' (hex_number (drop 3 key)) = inr (uni_char key).
Proof.
  intros H. destruct (uni_name_inv key H) as (_ & Hlen & Hup).
  pose proof (forallb_upper_hex _ Hup) as Hh. split.
  - apply int16_hex. split; [|done]. intros Hnil. by rewrite Hnil in Hlen.
  - pose proof (hex_number_bound _ Hh) as Hb. rewrite Hlen in Hb.
    change (16 ^ Z.of_nat 4) with 65536 in Hb. unfold chr', chr, uni_char.
    destruct (Z.ltb_spec (hex_number (drop 3 key)) (-2147483648)) as [|_]; [lia|].
    destruct (Z.ltb_spec 2147483647 (hex_number (drop 3 key))) as [|_]; [lia|].
    cbn [orb].
    destruct (Z.ltb_spec (hex_number (drop 3 key)) 0) as [|_]; [lia|].
    by destruct (Z.ltb_spec 1114111 (hex_number (drop 3 key))) as [|_]; [lia|].
Qed.

Lemma uni_char_inj (k1 k2 : list N) :
  uni_name k1 = true -> uni_name k2 = true ->
  uni_char k1 = uni_char k2 -> k1 = k2.
Proof.
  intros H1 H2 Heq.
  destruct (uni_name_inv k1 H1) as (E1 & L1 & U1).
  destruct (uni_name_inv k2 H2) as (E2 & L2 & U2).
  rewrite E1, E2. f_equal. apply hex_number_inj; try done; [congruence|].
  pose proof (hex_number_bound _ (forallb_upper_hex _ U1)).
  pose proof (hex_number_bound _ (forallb_upper_hex _ U2)).
  unfold uni_char in Heq. apply Z2N.inj in Heq; lia.
Qed.

Lemma loop_rekeys (items : list (list N * list N)) (dm : gmap N (list N)) :
  Forall (fun kv => uni_name (fst kv) = true) items ->
  get_data_mapping_loop Py_UNICODE_ISSPACE Py_UNICODE_TODECIMAL items dm
  = inr (rekeyed items dm).
Proof.
  intros H. revert dm. induction H as [|[k v] items Hk _ IH]; intros dm; [done|].
  cbn [get_data_mapping_loop]. destruct (uni_name_parses k Hk) as [-> ->].
  apply IH.
Qed.

Lemma rekeyed_other (items : list (list N * list N)) (dm : gmap N (list N)) (c : N) :
  c ∉ (uni_char ∘ fst) <$> items -> rekeyed items dm !! c = dm !! c.
Proof.
  revert dm. induction items as [|[k v] items IH]; intros dm Hc; [done|].
  rewrite fmap_cons in Hc. apply not_elem_of_cons in Hc as [Hne Hc].
  unfold rekeyed in *. cbn [fold_left]. rewrite IH by done.
  by rewrite lookup_insert_ne.
Qed.

Lemma rekeyed_lookup (items : list (list N * list N)) (dm : gmap N (list N))
    (k v : list N) :
  NoDup ((uni_char ∘ fst) <$> items) -> (k, v) ∈ items ->
  rekeyed items dm !! uni_char k = Some v.
Proof.
  revert dm. induction items as [|[k1 v1] items IH]; intros dm Hnd Hin.
  - by apply elem_of_nil in Hin.
  - rewrite fmap_cons in Hnd. apply NoDup_cons in Hnd as [Hk1 Hnd].
    apply elem_of_cons in Hin as [[= -> ->]|Hin].
    + unfold rekeyed. cbn [fold_left]. fold (rekeyed items (<[uni_char k1:=v1]> dm)).
      rewrite rekeyed_other by done. apply lookup_insert_eq.
    + unfold rekeyed. cbn [fold_left]. by apply IH.
Qed.

Lemma rekeyed_size (items : list (list N * list N)) (dm : gmap N (list N)) :
  NoDup ((uni_char ∘ fst) <$> items) ->
  (forall c, c ∈ (uni_char ∘ fst) <$> items -> dm !! c = None) ->
  size (rekeyed items dm) = (size dm + length items)%nat.
Proof.
  revert dm. induction items as [|[k1 v1] items IH]; intros dm Hnd Hfresh.
  - cbn. lia.
  - rewrite fmap_cons in Hnd, Hfresh. apply NoDup_cons in Hnd as [Hk1 Hnd].
    unfold rekeyed. cbn [fold_left]. fold (rekeyed items (<[uni_char k1:=v1]> dm)).
    rewrite IH; [| done |].
    + rewrite map_size_insert_None; [cbn; lia|].
      apply Hfresh. apply elem_of_cons. by left.
    + intros c Hc. rewrite lookup_insert_ne.
      * apply Hfresh. apply elem_of_cons. by right.
      * intros <-. done.
Qed.

Lemma uni_chars_NoDup (items : list (list N * list N)) :
  NoDup items.*1 ->
  Forall (fun kv => uni_name (fst kv) = true) items ->
  NoDup ((uni_char ∘ fst) <$> items).
Proof.
  induction items as [|[k v] items IH]; intros Hnd Hu; [constructor|].
  change (NoDup (k :: items.*1)) in Hnd.
  change (NoDup (uni_char k :: ((uni_char ∘ fst) <$> items))).
  apply NoDup_cons in Hnd as [Hk Hnd].
  apply Forall_cons in Hu as [Hku Hu]. apply NoDup_cons. split; [|by apply IH].
  intros Hin. apply Hk. apply list_elem_of_fmap in Hin as ([k2 v2] & Heq & Hin2).
  cbn in Heq. rewrite Forall_forall in Hu.
  apply uni_char_inj in Heq; [| exact Hku | exact (Hu (k2, v2) Hin2)].
  subst k2. apply list_elem_of_fmap. by exists (k, v2).
Qed.

(** X15: when every glyph identifier of the mapping has the form
    "uniXXXX" (the prefix and four upper-case hexadecimal digits),
    [get_data_mapping] returns a mapping that sends the character U+XXXX
    to the text of "uniXXXX" for every entry, and no two entries fall on
    the same character: the result has as many entries as the input. *)
Theorem rekeying_is_faithful (items : list (list N * list N)) :
  NoDup items.*1 ->
  Forall (fun kv => uni_name (fst kv) = true) items ->
  exists data_mapping,
    get_data_mapping Py_UNICODE_ISSPACE Py_UNICODE_TODECIMAL items
    = inr data_mapping /\
    size data_mapping = length items /\
    (forall key value,
       (key, value) ∈ items -> data_mapping !! uni_char key = Some value).
Proof.
  intros Hnd Hu. pose proof (uni_chars_NoDup items Hnd Hu) as Hc.
  exists (rekeyed items ∅). split; [by apply loop_rekeys|]. split.
  - rewrite rekeyed_size; [by rewrite map_size_empty | done |].
    intros c _. apply lookup_empty.
  - intros k v Hin. by apply rekeyed_lookup.
Qed.

End mapping_facts.

Lemma rekeying_is_faithful_witness :
  exists data_mapping,
    get_data_mapping no_space no_decimal
      [(py "uniE78C", py "3"); (py "uniE562", py "5")]
    = inr data_mapping /\
    data_mapping !! 59276%N = Some (py "3") /\
    data_mapping !! 58722%N = Some (py "5").
Proof.
  destruct (rekeying_is_faithful no_space no_decimal
              [(py "uniE78C", py "3"); (py "uniE562", py "5")])
    as (m & Hm & _ & Hl).
  - apply NoDup_cons. split; [intros H; not_in_literal H|].
    apply NoDup_cons. split; [intros H; not_in_literal H | constructor].
  - repeat constructor.
  - exists m. split; [exact Hm|]. split.
    + apply (Hl (py "uniE78C") (py "3")). apply elem_of_cons. by left.
    + apply (Hl (py "uniE562") (py "5")). apply elem_of_cons. right.
      apply elem_of_cons. by left.
Defined.

Section literal_facts.

Lemma lstrip_space_split (s : list N) :
  exists spaces, s = spaces ++ lstrip_space s /\ Forall (fun c => is_space c = true) spaces.
Proof.
  induction s as [|c s (sp & Hs & Hsp)]; [by exists []|].
  cbn [lstrip_space]. destruct (is_space c) eqn:Hc.
  - exists (c :: sp). split; [cbn; by f_equal | by constructor].
  - by exists [].
Qed.

Lemma lstrip_space_nil (s : list N) :
  lstrip_space s = [] -> Forall (fun c => is_space c = true) s.
Proof.
  intros H. destruct (lstrip_space_split s) as (sp & Hs & Hsp).
  rewrite H, app_nil_r in Hs. by subst.
Qed.

Lemma hex_value_is_hex (c : N) (d : Z) : hex_value c = Some d -> is_hex_digit c = true.
Proof.
  unfold hex_value, is_hex_digit.
  destruct ((48 <=? c) && (c <=? 57))%N; [done|].
  destruct ((97 <=? c) && (c <=? 102))%N; [by rewrite orb_true_r|].
  by destruct ((65 <=? c) && (c <=? 70))%N.
Qed.

Lemma literal_hex (c : N) : is_hex_digit c = true -> literal_char c = true.
Proof. unfold literal_char. by intros ->. Qed.

Lemma literal_space (c : N) : is_space c = true -> literal_char c = true.
Proof. unfold literal_char. intros ->. by rewrite orb_true_r. Qed.

Lemma scan16_split (s : list N) (acc : Z) (p : bool) (n : nat) (v : Z)
    (rest : list N) :
  scan16 s acc p n = Some (v, rest) ->
  exists consumed,
    s = consumed ++ rest /\ Forall (fun c => literal_char c = true) consumed.
Proof.
  revert acc p n. induction s as [|c s IH]; intros acc p n.
  - cbn. destruct p; [done|]. destruct n; [done|]. intros [= <- <-]. by exists [].
  - cbn [scan16]. destruct (N.eqb_spec c 95) as [->|Hc].
    + destruct p; [done|]. intros H. destruct (IH _ _ _ H) as (cs & -> & Hcs).
      exists (95%N :: cs). split; [done|]. by constructor.
    + destruct (hex_value c) as [d|] eqn:Hd.
      * intros H. destruct (IH _ _ _ H) as (cs & -> & Hcs).
        exists (c :: cs). split; [done|]. constructor; [|done].
        apply literal_hex. by apply (hex_value_is_hex c d).
      * destruct p; [done|]. destruct n; [done|]. intros [= <- <-]. by exists [].
Qed.

Lemma scan16_nonempty (s : list N) (acc : Z) (p : bool) (v : Z) (rest : list N) :
  scan16 s acc p 0 = Some (v, rest) -> s <> [].
Proof. destruct s; [by destruct p | done]. Qed.

(** What [int(_, 16)] accepts is never empty and is made of hexadecimal
    digits, white space, underscores, signs and the letter x. *)
Lemma PyLong_FromString_accepts (s : list N) (n : Z) :
  PyLong_FromString s = Some n ->
  s <> [] /\ Forall (fun c => literal_char c = true) s.
Proof.
  unfold PyLong_FromString. destruct (lstrip_space_split s) as (sp & Hs & Hsp).
  set (b0 := lstrip_space s) in *.
  assert (Hsp' : Forall (fun c => literal_char c = true) sp).
  { eapply Forall_impl; [exact Hsp|]. apply literal_space. }
  (* the sign *)
  assert (Hsign : exists b1 sg,
             match b0 with
             | c :: rest =>
                 if (c =? 43)%N then (1, rest)
                 else if (c =? 45)%N then (-1, rest) else (1, b0)
             | [] => (1, b0)
             end = (sg, b1) /\
             (b1 <> [] -> b0 <> []) /\
             (Forall (fun c => literal_char c = true) b1 ->
              Forall (fun c => literal_char c = true) b0)).
  { destruct b0 as [|c rest]; [by exists [], 1|].
    destruct (N.eqb_spec c 43) as [->|_].
    { exists rest, 1. split; [done|]. split; [done|]. by constructor. }
    destruct (N.eqb_spec c 45) as [->|_].
    { exists rest, (-1). split; [done|]. split; [done|]. by constructor. }
    by exists (c :: rest), 1. }
  destruct Hsign as (b1 & sg & -> & Hne1 & Hall1).
  (* the prefix *)
  assert (Hprefix : exists b2,
             match b1 with
             | zero :: x :: rest =>
                 if ((zero =? 48) && ((x =? 120) || (x =? 88)))%N
                 then if startswith [95%N] rest then drop 1 rest else rest
                 else b1
             | _ => b1
             end = b2 /\
             (b2 <> [] -> b1 <> []) /\
             (Forall (fun c => literal_char c = true) b2 ->
              Forall (fun c => literal_char c = true) b1)).
  { destruct b1 as [|z [|x rest]]; [by exists [] | by eexists | ].
    destruct ((z =? 48) && ((x =? 120) || (x =? 88)))%N eqn:Hzx; [|by eexists].
    apply andb_prop in Hzx as [Hz Hx]. apply N.eqb_eq in Hz as ->.
    assert (Hxl : literal_char x = true).
    { apply orb_prop in Hx as [Hx|Hx]; apply N.eqb_eq in Hx as ->; done. }
    destruct rest as [|u rest].
    { exists []. repeat split; [done|]. intros _.
      constructor; [done|]. by constructor. }
    cbn [startswith]. destruct (N.eqb_spec 95 u) as [<-|_]; cbn [andb drop].
    - exists rest. repeat split; [done|]. intros H.
      constructor; [done|]. constructor; [done|]. by constructor.
    - exists (u :: rest). repeat split; [done|]. intros H.
      constructor; [done|]. by constructor. }
  destruct Hprefix as (b2 & -> & Hne2 & Hall2).
  destruct (startswith [95%N] b2); [done|].
  destruct (scan16 b2 0 false 0) as [[v rest]|] eqn:Hscan; [|done].
  destruct (lstrip_space rest) eqn:Hrest; [|done]. intros _.
  pose proof (scan16_nonempty b2 0 false v rest Hscan) as Hb2.
  destruct (scan16_split b2 0 false 0 v rest Hscan) as (cs & Hcs & Hlit).
  apply lstrip_space_nil in Hrest.
  assert (Hall : Forall (fun c => literal_char c = true) b0).
  { apply Hall1, Hall2. rewrite Hcs. apply Forall_app. split; [done|].
    eapply Forall_impl; [exact Hrest|]. apply literal_space. }
  split.
  - rewrite Hs. intros Heq. apply app_eq_nil in Heq as [_ Heq].
    apply Hne2, Hne1 in Hb2. by apply Hb2.
  - rewrite Hs. apply Forall_app. by split.
Qed.

Variable Py_UNICODE_ISSPACE : N -> bool.
Variable Py_UNICODE_TODECIMAL : N -> option N.

(** An ASCII character that no literal has survives the conversion of the
    string to ASCII, or the conversion stops before it and leaves "?". *)
Lemma to_ascii_keeps_bad (s : list N) (c : N) :
  c ∈ s -> (c < 127)%N -> literal_char c = false ->
  exists c', c' ∈ to_ascii Py_UNICODE_ISSPACE Py_UNICODE_TODECIMAL s /\
             literal_char c' = false.
Proof.
  intros Hin Hc Hbad. unfold to_ascii.
  destruct (forallb _ s); [by exists c|].
  induction s as [|ch rest IH]; [by apply elem_of_nil in Hin|].
  assert (Hrest : c ∈ rest ->
            forall x, exists c',
              c' ∈ x :: transform Py_UNICODE_ISSPACE Py_UNICODE_TODECIMAL rest /\
              literal_char c' = false).
  { intros Hr x. destruct (IH Hr) as (c' & Hc' & Hl). exists c'.
    split; [|done]. apply elem_of_cons. by right. }
  cbn [transform]. apply elem_of_cons in Hin as [->|Hin].
  - apply N.ltb_lt in Hc. rewrite Hc. exists ch. split; [|done].
    apply elem_of_cons. by left.
  - destruct (ch <? 127)%N; [by apply Hrest|].
    destruct (Py_UNICODE_ISSPACE ch); [by apply Hrest|].
    destruct (Py_UNICODE_TODECIMAL ch); [by apply Hrest|].
    exists 63%N. split; [|reflexivity]. apply elem_of_cons. by left.
Qed.

(** X16: [get_data_mapping] gives up on the whole mapping as soon as one
    key is not a hexadecimal literal after its first three characters: a
    key of three characters or fewer, or a key with an ASCII character
    past the third that is none of a hexadecimal digit, white space, an
    underscore, a sign or the letter x - such as ".notdef" or
    "glyph00001" - makes it raise, and no mapping is returned. *)
Theorem bad_glyph_name_aborts (items : list (list N * list N))
    (key value : list N) :
  (key, value) ∈ items ->
  (length key <= 3)%nat \/
  (exists c, c ∈ drop 3 key /\ (c < 127)%N /\ literal_char c = false) ->
  exists e,
    get_data_mapping Py_UNICODE_ISSPACE Py_UNICODE_TODECIMAL items = inl e.
Proof.
  intros Hin Hbad. unfold get_data_mapping. generalize (∅ : gmap N (list N)).
  assert (Hfail : exists e, int16 Py_UNICODE_ISSPACE Py_UNICODE_TODECIMAL
                                  (drop 3 key) = inl e).
  { unfold int16.
    destruct (PyLong_FromString _) as [n|] eqn:Hi; [|by eexists].
    apply PyLong_FromString_accepts in Hi as [Hne Hall]. exfalso.
    destruct Hbad as [Hlen|(c & Hc & Hascii & Hlit)].
    - apply Hne. by rewrite drop_ge.
    - destruct (to_ascii_keeps_bad _ c Hc Hascii Hlit) as (c' & Hc' & Hl').
      rewrite Forall_forall in Hall. specialize (Hall c' Hc'). congruence. }
  induction items as [|[k v] items IH]; intros dm;
    [by apply elem_of_nil in Hin|].
  cbn [get_data_mapping_loop].
  apply elem_of_cons in Hin as [[= <- <-]|Hin].
  - destruct Hfail as [e ->]. by exists e.
  - destruct (int16 _ _ (drop 3 k)) as [e|n]; [by exists e|].
    destruct (chr' n) as [e|c]; [by exists e|]. by apply IH.
Qed.

End literal_facts.

Lemma bad_glyph_name_aborts_witness :
  exists e,
    get_data_mapping no_space no_decimal
      [(py "uniE001", py "7"); (py ".notdef", [])] = inl e.
Proof.
  apply (bad_glyph_name_aborts no_space no_decimal _ (py ".notdef") []).
  - apply elem_of_cons. right. apply elem_of_cons. by left.
  - right. exists 116%N. split; [|split; reflexivity].
    apply elem_of_cons. by left.
Defined.

(** ** The further properties on the demo font *)

Lemma failed_call_is_repeated_witness :
  call (demo_lib ocr_seven) (57345, py "digits.ttf", 8) (add_miss bare_world)
  = (inl (FileNotFoundError (py "./imgs/57345.png")),
     add_miss (add_miss bare_world)).
Proof.
  apply (proj2 (failed_call_is_repeated (demo_lib ocr_seven)
                  (57345, py "digits.ttf", 8) bare_world (add_miss bare_world)
                  (FileNotFoundError (py "./imgs/57345.png")) eq_refl)).
Defined.

Lemma validation_order_witness :
  convert_cmap_to_image_body (demo_lib ocr_seven) (-1, py "missing.ttf", -1)
                             demo_world
  = (inl (FileNotFoundError (py "missing.ttf")), demo_world) /\
  convert_cmap_to_image_body (demo_lib ocr_seven) (-1, py "digits.ttf", -1)
                             demo_world
  = (inl (ValueError (invalid_codepoint (-1))), demo_world) /\
  convert_cmap_to_image_body (demo_lib ocr_seven)
                             (2147483648, py "digits.ttf", 1073741824) demo_world
  = (inl OverflowError, demo_world) /\
  convert_cmap_to_image_body (demo_lib ocr_seven) (2147483648, py "digits.ttf", 8)
                             demo_world
  = (inl OverflowError, demo_world).
Proof.
  split; [|split; [|split]].
  - apply (proj1 (validation_order (demo_lib ocr_seven) (-1) (py "missing.ttf")
                    (-1) demo_world)). reflexivity.
  - apply (proj1 (proj2 (validation_order (demo_lib ocr_seven) (-1)
                           (py "digits.ttf") (-1) demo_world) eq_refl)).
    reflexivity.
  - pose proof (validation_order (demo_lib ocr_seven) 2147483648
                  (py "digits.ttf") 1073741824 demo_world) as H.
    cbv zeta in H. destruct H as [_ H]. destruct (H eq_refl) as [_ H1].
    destruct (H1 ltac:(lia)) as [_ H2]. destruct (H2 ltac:(lia)) as [H3 _].
    apply H3. reflexivity.
  - pose proof (validation_order (demo_lib ocr_seven) 2147483648
                  (py "digits.ttf") 8 demo_world) as H.
    cbv zeta in H. destruct H as [_ H]. destruct (H eq_refl) as [_ H1].
    destruct (H1 ltac:(lia)) as [_ H2]. destruct (H2 ltac:(lia)) as [_ H3].
    specialize (H3 eq_refl _ eq_refl). cbv beta iota in H3.
    apply H3. lia.
Defined.

Lemma calls_reachable (lib : Library) (ks : list key) (w : World) :
  reachable lib w -> reachable lib (calls lib ks w).
Proof.
  revert w. induction ks as [|k ks IH]; intros w Hw; [done|].
  apply IH. by apply reachable_call.
Qed.

Lemma memo_is_bounded_witness :
  le (length (memo (calls (demo_lib ocr_seven)
                      ((57345, py "digits.ttf", 8) :: other_keys) demo_world)))
     128%nat.
Proof.
  apply (memo_is_bounded (demo_lib ocr_seven)).
  apply calls_reachable. by apply reachable_start.
Defined.

Lemma memo_is_never_revalidated_witness :
  exists img,
    fst (call (demo_lib ocr_seven) (57345, py "digits.ttf", 8) demo_world)
    = inr img /\
    fst (call (demo_lib ocr_seven) (57345, py "digits.ttf", 8)
           (set_fs ∅ (snd (call (demo_lib ocr_seven)
                             (57345, py "digits.ttf", 8) demo_world))))
    = inr img.
Proof.
  destruct (call (demo_lib ocr_seven) (57345, py "digits.ttf", 8) demo_world)
    as [[e|img] w1] eqn:Hcall; [vm_compute in Hcall; discriminate Hcall|].
  exists img. split; [reflexivity|].
  apply (memo_is_never_revalidated (demo_lib ocr_seven)
           (57345, py "digits.ttf", 8) demo_world w1 (set_fs ∅ w1) img Hcall
           eq_refl).
Defined.

Lemma cache_path_inj_witness :
  57345%N = 57345%N /\ py "uniE001" = py "uniE001".
Proof.
  apply (cache_path_inj (py "cache") 57345 57345 (py "uniE001") (py "uniE001")).
  reflexivity.
Defined.

Lemma one_render_per_entry_witness :
  let w' := snd (extract_text_from_font (demo_lib ocr_seven) (py "digits.ttf") 8
                                        false true None demo_world) in
  (hits w' + misses w' = 1)%nat.
Proof.
  apply (one_render_per_entry (demo_lib ocr_seven) (py "digits.ttf") 8 false true
           None demo_world demo_world [(57345, py "uniE001")]
           (fun _ => inr (py "7")) (demo_prologue _)).
Defined.

Lemma only_warnings_are_logged_witness :
  exists failed,
    log (snd (extract_text_from_font (demo_lib ocr_raising) (py "digits.ttf") 8
                                     false true None demo_world))
    = warning_of <$> failed /\
    sublist (fst <$> failed) [(57345, py "uniE001")].
Proof.
  apply (only_warnings_are_logged (demo_lib ocr_raising) (py "digits.ttf") 8 true
           None demo_world demo_world [(57345, py "uniE001")]
           (fun _ => inl (LibraryError 2)) (demo_prologue _)).
Defined.

Lemma nothing_recognized_without_imgs_witness :
  all_unrecognized {[py "uniE001" := []]} /\
  fs (snd (extract_text_from_font (demo_lib ocr_seven) (py "digits.ttf") 8 false
                                  true None bare_world))
  = fs bare_world.
Proof.
  apply (nothing_recognized_without_imgs (demo_lib ocr_seven) (py "digits.ttf") 8
           false true None bare_world).
  - reflexivity.
  - reflexivity.
  - by vm_compute.
  - by vm_compute.
Defined.

Lemma only_imgs_files_are_touched_witness :
  fs (snd (extract_text_from_font (demo_lib ocr_seven) (py "digits.ttf") 8 false
                                  true None demo_world)) !! py "digits.ttf"
  = Some (File [1%N]).
Proof.
  apply (proj1 (only_imgs_files_are_touched (demo_lib ocr_seven)
                  (py "digits.ttf") 8 false true None demo_world
                  (py "digits.ttf") eq_refl)).
  reflexivity.
Defined.

(** ** The two decoders together *)

Section decoders_together.

Import dongchedi.

Variable ToUpperFull : N -> list N.

Lemma upper_of_upper_hex (hex : list N) :
  forallb is_upper_hex hex = true -> upper ToUpperFull hex = hex.
Proof.
  intros H. rewrite (upper_hex ToUpperFull hex (forallb_upper_hex hex H)).
  induction hex as [|c hex IH]; [done|]. cbn [forallb] in H.
  apply andb_prop in H as [Hc Hh]. cbn [List.map].
  rewrite (IH Hh). f_equal. unfold is_upper_hex in Hc. unfold upper_char.
  destruct ((97 <=? c) && (c <=? 122))%N eqn:Hl; [|done].
  apply andb_prop in Hl as [H1 H2]. apply N.leb_le in H1, H2.
  apply orb_prop in Hc as [Hc|Hc]; apply andb_prop in Hc as [H3 H4];
    apply N.leb_le in H3, H4; lia.
Qed.

Lemma uni_name_hex_ok (key : list N) : uni_name key = true -> hex_ok (drop 3 key).
Proof.
  intros H. destruct (uni_name_inv key H) as (_ & Hlen & Hup). split.
  - intros Hnil. by rewrite Hnil in Hlen.
  - by apply forallb_upper_hex.
Qed.

Lemma substitute_uni_name (font_map : gmap (list N) (list N)) (key : list N) :
  uni_name key = true ->
  substitute ToUpperFull font_map (drop 3 key)
  = match font_map !! key with Some text => text | None => py "?" end.
Proof.
  intros H. destruct (uni_name_inv key H) as (Hkey & _ & Hup).
  unfold substitute. rewrite (upper_of_upper_hex _ Hup). by rewrite <- Hkey.
Qed.

(** X17: the crawler's decoder and the decoder of the font module read
    the same mapping the same way. For a font whose glyph identifiers all
    have the form "uniXXXX": on the glyphs of the font (other than
    "uni002E", the full stop, which the crawler keeps as it is)
    [change_price] applied to the characters U+XXXX gives the text that
    [decrypt_webpage_example] gives for the placeholders "&#xXXXX;"; on a
    glyph the font lacks they differ: the crawler raises [KeyError] where
    the font module's decoder writes "?". *)
Theorem decoders_agree (Py_UNICODE_ISSPACE : N -> bool)
    (Py_UNICODE_TODECIMAL : N -> option N)
    (items : list (list N * list N)) (data_mapping : gmap N (list N)) :
  NoDup items.*1 ->
  Forall (fun kv => uni_name (fst kv) = true) items ->
  get_data_mapping Py_UNICODE_ISSPACE Py_UNICODE_TODECIMAL items
  = inr data_mapping ->
  (forall keys,
     Forall (fun key => key ∈ items.*1 /\ uni_char key <> 46%N) keys ->
     change_price (uni_char <$> keys) data_mapping
     = inr (decrypt_webpage_example ToUpperFull (list_to_map items)
              (List.concat (List.map entity keys)))) /\
  (forall key,
     uni_name key = true -> key ∉ items.*1 -> uni_char key <> 46%N ->
     change_price [uni_char key] data_mapping = inl (KeyError (uni_char key)) /\
     decrypt_webpage_example ToUpperFull (list_to_map items) (entity key) = py "?").
Proof.
  intros Hnd Hu Hget. unfold get_data_mapping in Hget.
  rewrite (loop_rekeys _ _ items ∅ Hu) in Hget. injection Hget as <-.
  pose proof (uni_chars_NoDup items Hnd Hu) as Hc.
  rewrite Forall_forall in Hu. split.
  - intros keys Hkeys.
    assert (Hnames : Forall (fun key => uni_name key = true) keys).
    { eapply Forall_impl; [exact Hkeys|]. intros key [Hin _].
      apply list_elem_of_fmap in Hin as ([k v] & -> & Hin). exact (Hu _ Hin). }
    unfold decrypt_webpage_example, change_price.
    replace (List.map entity keys) with (List.map token (List.map (drop 3) keys))
      by (by rewrite List.map_map).
    rewrite decrypt_tokens.
    2:{ clear Hkeys. induction Hnames as [|key keys Hk _ IH]; constructor;
          [by apply uni_name_hex_ok | done]. }
    generalize (@nil N).
    induction Hkeys as [|key keys [Hin Hdot] _ IH]; intros acc.
    + cbn. by rewrite app_nil_r.
    + apply Forall_cons in Hnames as [Hk Hnames].
      apply list_elem_of_fmap in Hin as ([k v] & -> & Hin). cbn [fst] in *.
      rewrite fmap_cons. cbn [change_price_loop List.map List.concat].
      destruct (N.eqb_spec (uni_char k) 46) as [|_]; [done|].
      rewrite (rekeyed_lookup items ∅ k v Hc Hin).
      rewrite (IH Hnames). f_equal. rewrite <- app_assoc. f_equal. f_equal.
      rewrite (substitute_uni_name _ k Hk).
      by rewrite (elem_of_list_to_map_1 items k v Hnd Hin).
  - intros key Hk Hnot Hdot. split.
    + unfold change_price. cbn [change_price_loop].
      destruct (N.eqb_spec (uni_char key) 46) as [|_]; [done|].
      rewrite rekeyed_other; [by rewrite lookup_empty|].
      intros Hin. apply list_elem_of_fmap in Hin as ([k v] & Heq & Hin).
      cbn in Heq. apply uni_char_inj in Heq; [| done | exact (Hu _ Hin)].
      subst k. apply Hnot. apply list_elem_of_fmap. by exists (key, v).
    + unfold decrypt_webpage_example, entity.
      pose proof (decrypt_tokens ToUpperFull (list_to_map items) [drop 3 key] [])
        as Ht.
      cbn [List.map List.concat] in Ht. rewrite app_nil_r in Ht.
      rewrite Ht by (constructor; [by apply uni_name_hex_ok | constructor]).
      cbn [app]. rewrite app_nil_r, (substitute_uni_name _ key Hk).
      by rewrite (not_elem_of_list_to_map_1 items key Hnot).
Qed.

End decoders_together.

Lemma decoders_agree_witness :
  dongchedi.change_price [59276; 58722]%N
    (<[58722%N := py "5"]> (<[59276%N := py "3"]> ∅))
  = inr (decrypt_webpage_example ascii_upper
           (list_to_map [(py "uniE78C", py "3"); (py "uniE562", py "5")])
           (py "&#xE78C;&#xE562;")).
Proof.
  apply (proj1 (decoders_agree ascii_upper no_space no_decimal
                  [(py "uniE78C", py "3"); (py "uniE562", py "5")]
                  (<[58722%N := py "5"]> (<[59276%N := py "3"]> ∅))
                  ltac:(apply NoDup_cons; split; [intros H; not_in_literal H|];
                        apply NoDup_cons; split;
                          [intros H; not_in_literal H | constructor])
                  ltac:(repeat constructor)
                  eq_refl)
           [py "uniE78C"; py "uniE562"]).
  repeat constructor; intros H; discriminate H.
Defined.

(** ** The loop of [get_data_list] *)

Section page_facts.

Import dongchedi.

Variable J : Type.
Variable data_mapping : gmap N (list N).

Lemma change_price_loop_cases (s acc : list N) :
  match change_price_loop data_mapping s acc with
  | inr _ => forall c, c ∈ s -> c ∈ [46%N] \/ is_Some (data_mapping !! c)
  | inl _ => ~ forall c, c ∈ s -> c ∈ [46%N] \/ is_Some (data_mapping !! c)
  end.
Proof.
  revert acc. induction s as [|c s IH]; intros acc; cbn [change_price_loop].
  - intros c Hc. by apply elem_of_nil in Hc.
  - assert (Hstep : forall acc',
               c ∈ [46%N] \/ is_Some (data_mapping !! c) ->
               match change_price_loop data_mapping s acc' with
               | inr _ => forall c0, c0 ∈ c :: s ->
                                     c0 ∈ [46%N] \/ is_Some (data_mapping !! c0)
               | inl _ => ~ forall c0, c0 ∈ c :: s ->
                                       c0 ∈ [46%N] \/ is_Some (data_mapping !! c0)
               end).
    { intros acc' Hc. specialize (IH acc').
      destruct (change_price_loop data_mapping s acc').
      - intros Hall. apply IH. intros c0 Hc0. apply Hall, elem_of_cons. by right.
      - intros c0 Hc0. apply elem_of_cons in Hc0 as [->|Hc0]; [done | by apply IH]. }
    destruct (N.eqb_spec c 46) as [->|Hne].
    + apply Hstep. left. apply elem_of_cons. by left.
    + destruct (data_mapping !! c) as [v|] eqn:Hv.
      * apply Hstep. right. rewrite ?Hv. by eexists.
      * intros Hall. destruct (Hall c) as [Hc|[v' Hc]].
        -- apply elem_of_cons. by left.
        -- apply elem_of_cons in Hc as [->|Hc]; [done | by apply elem_of_nil in Hc].
        -- congruence.
Qed.

Lemma change_sub_title_loop_cases (s acc : list N) :
  match change_sub_title_loop data_mapping s acc with
  | inr _ => forall c, c ∈ s -> c ∈ [46; 124; 32]%N \/ is_Some (data_mapping !! c)
  | inl _ => ~ forall c, c ∈ s -> c ∈ [46; 124; 32]%N \/ is_Some (data_mapping !! c)
  end.
Proof.
  revert acc. induction s as [|c s IH]; intros acc; cbn [change_sub_title_loop].
  - intros c Hc. by apply elem_of_nil in Hc.
  - assert (Hstep : forall acc',
               c ∈ [46; 124; 32]%N \/ is_Some (data_mapping !! c) ->
               match change_sub_title_loop data_mapping s acc' with
               | inr _ => forall c0, c0 ∈ c :: s ->
                            c0 ∈ [46; 124; 32]%N \/ is_Some (data_mapping !! c0)
               | inl _ => ~ forall c0, c0 ∈ c :: s ->
                            c0 ∈ [46; 124; 32]%N \/ is_Some (data_mapping !! c0)
               end).
    { intros acc' Hc. specialize (IH acc').
      destruct (change_sub_title_loop data_mapping s acc').
      - intros Hall. apply IH. intros c0 Hc0. apply Hall, elem_of_cons. by right.
      - intros c0 Hc0. apply elem_of_cons in Hc0 as [->|Hc0]; [done | by apply IH]. }
    destruct ((c =? 46) || (c =? 124) || (c =? 32))%N eqn:Hkept.
    + apply Hstep. left.
      apply orb_prop in Hkept as [Hkept|Hkept];
        [apply orb_prop in Hkept as [Hkept|Hkept]|];
        apply N.eqb_eq in Hkept as ->; repeat constructor.
    + apply orb_false_elim in Hkept as [Hkept H32].
      apply orb_false_elim in Hkept as [H46 H124].
      apply N.eqb_neq in H46, H124, H32.
      destruct (data_mapping !! c) as [v|] eqn:Hv.
      * apply Hstep. right. rewrite ?Hv. by eexists.
      * intros Hall. destruct (Hall c) as [Hc|[v' Hc]].
        -- apply elem_of_cons. by left.
        -- repeat (apply elem_of_cons in Hc as [->|Hc]; [done|]).
           by apply elem_of_nil in Hc.
        -- congruence.
Qed.

Lemma change_price_decodable (s : option (list N)) :
  match s with
  | Some text =>
      match change_price text data_mapping with
      | inr _ => decodable data_mapping [46%N] s
      | inl _ => ~ decodable data_mapping [46%N] s
      end
  | None => ~ decodable data_mapping [46%N] s
  end.
Proof.
  destruct s as [text|]; [|by intros (t & Ht & _)].
  pose proof (change_price_loop_cases text []) as H. unfold change_price.
  destruct (change_price_loop data_mapping text []).
  - intros (t & [= <-] & Ht). by apply H.
  - by exists text.
Qed.

Lemma change_sub_title_decodable (s : option (list N)) :
  match s with
  | Some text =>
      match change_sub_title text data_mapping with
      | inr _ => decodable data_mapping [46; 124; 32]%N s
      | inl _ => ~ decodable data_mapping [46; 124; 32]%N s
      end
  | None => ~ decodable data_mapping [46; 124; 32]%N s
  end.
Proof.
  destruct s as [text|]; [|by intros (t & Ht & _)].
  pose proof (change_sub_title_loop_cases text []) as H. unfold change_sub_title.
  destruct (change_sub_title_loop data_mapping text []).
  - intros (t & [= <-] & Ht). by apply H.
  - by exists text.
Qed.

Lemma decoded_record_cases (data : sku (option J) (option (list N))) :
  match decoded_record J data_mapping data with
  | inr record => readable J data_mapping data /\ passed_on J data record
  | inl _ => ~ readable J data_mapping data
  end.
Proof.
  destruct data as [t st tc op sp].
  pose proof (change_sub_title_decodable st) as Hst.
  pose proof (change_price_decodable op) as Hop.
  pose proof (change_price_decodable sp) as Hsp.
  unfold decoded_record, readable, passed_on. cbn [title sub_title transfer_cnt
    official_price sh_price getitem].
  destruct t as [t|]; [|by intros ([? ?] & _)].
  destruct st as [st|]; [|by intros (_ & _ & ? & _)].
  cbn [getitem].
  destruct (change_sub_title st data_mapping); [by intros (_ & _ & ? & _)|].
  cbn [helper].
  destruct tc as [tc|]; [|by intros (_ & [? ?] & _)].
  destruct op as [op|]; [|by intros (_ & _ & _ & ? & _)].
  cbn [getitem].
  destruct (change_price op data_mapping); [by intros (_ & _ & _ & ? & _)|].
  cbn [helper].
  destruct sp as [sp|]; [|by intros (_ & _ & _ & _ & ?)].
  cbn [getitem].
  destruct (change_price sp data_mapping); [by intros (_ & _ & _ & _ & ?)|].
  cbn [helper title transfer_cnt]. by repeat split.
Qed.

Lemma get_data_list_loop_cases (records : list (sku (option J) (option (list N))))
    (data_list : list (sku J (list N))) :
  match get_data_list_loop J data_mapping records data_list with
  | inr result =>
      Forall (readable J data_mapping) records /\
      exists new, result = data_list ++ new /\ Forall2 (passed_on J) records new
  | inl _ => ~ Forall (readable J data_mapping) records
  end.
Proof.
  revert data_list. induction records as [|data rest IH]; intros data_list.
  - cbn. split; [constructor|]. exists []. split; [by rewrite app_nil_r|constructor].
  - cbn [get_data_list_loop]. pose proof (decoded_record_cases data) as Hd.
    destruct (decoded_record J data_mapping data) as [e|record].
    + intros Hall. by apply Forall_cons in Hall as [? _].
    + destruct Hd as [Hr Hp]. specialize (IH (data_list ++ [record])).
      destruct (get_data_list_loop J data_mapping rest (data_list ++ [record])).
      * intros Hall. by apply Forall_cons in Hall as [_ ?].
      * destruct IH as (Hall & new & -> & Hnew). split; [by constructor|].
        exists (record :: new). split; [by rewrite <- app_assoc|by constructor].
Qed.

(** X18: a page is decoded as a whole or not at all. The loop of
    [get_data_list] returns exactly when every record has its five keys
    and every character of its sub-title and of its two prices is one the
    helper keeps or one the mapping has; it then returns one record for
    each record of the page, in the order of the page, with the title and
    the transfer count passed on unchanged. One missing key or one
    character the mapping lacks, in any record, makes the call raise, and
    the records decoded before it are lost. *)
Theorem page_is_all_or_nothing (records : list (sku (option J) (option (list N)))) :
  match get_data_list_loop J data_mapping records [] with
  | inr data_list =>
      Forall (readable J data_mapping) records /\
      Forall2 (passed_on J) records data_list
  | inl _ => ~ Forall (readable J data_mapping) records
  end.
Proof.
  pose proof (get_data_list_loop_cases records []) as H.
  destruct (get_data_list_loop J data_mapping records []); [done|].
  by destruct H as (Hall & new & -> & Hnew).
Qed.

End page_facts.

(** ** [get_font_info] *)

Section font_info_facts.

Variable lib : Library.
Variable TTFont_names : list N -> exn + option (list NameRecord).

Lemma names_loop_last (names : list NameRecord) (acc info : gmap Z (list N))
    (id : Z) :
  names_loop names acc = inr info ->
  inr <$> info !! id
  = match last (unicode_values id names) with
    | Some value => Some value
    | None => inr <$> acc !! id
    end.
Proof.
  revert acc. induction names as [|r names IH]; intros acc; cbn [names_loop].
  - by intros [= <-].
  - unfold unicode_values in *. cbn [List.filter].
    destruct (isUnicode r) eqn:Hu; cbn [andb]; [|apply IH].
    destruct (toUnicode r) as [e|value] eqn:Hv; [done|]. intros Hloop.
    rewrite (IH _ Hloop). destruct (Z.eqb_spec (nameID r) id) as [->|Hne].
    + rewrite fmap_cons, last_cons, lookup_insert_eq, Hv.
      by destruct (last _).
    + by rewrite lookup_insert_ne.
Qed.

(** X19: [get_font_info] keeps, for each name identifier, the text of the
    last Unicode record of the name table that carries it: a later record
    overwrites an earlier one, records that are not Unicode never show,
    and an identifier without a Unicode record is absent from the result.
    A font without a name table gives the empty dictionary. *)
Theorem last_unicode_record_wins (f : gmap (list N) node) (font_path : list N)
    (font_info : gmap Z (list N)) (cmap : option (list (Z * list N))) :
  get_font_info lib TTFont_names f font_path = inr (font_info, cmap) ->
  exists data names,
    read_file f font_path = inr data /\
    TTFont_names data = inr names /\
    (names = None -> font_info = ∅) /\
    forall id, inr <$> font_info !! id = last (unicode_values id (default [] names)).
Proof.
  unfold get_font_info. destruct (read_file f font_path) as [e|data]; [done|].
  destruct (TTFont_names data) as [e|names] eqn:Hnames; [done|].
  destruct (names_loop (default [] names) ∅) as [e|info] eqn:Hloop; [done|].
  destruct (TTFont_getBestCmap lib data) as [e|c]; [done|].
  intros [= <- <-]. exists data, names.
  split; [done|]. split; [done|]. split.
  - intros ->. cbn in Hloop. by injection Hloop as <-.
  - intros id. rewrite (names_loop_last _ _ _ id Hloop), lookup_empty.
    by destruct (last _).
Qed.

(** X20: [get_font_info] and [extract_text_from_font] read the same
    character map: when both return for a font file, the character map of
    the first is not [None], and the keys of the mapping of the second are
    exactly its glyph identifiers. *)
Theorem info_cmap_is_the_extracted_one (font_path : list N) (image_size : Z)
    (show_progress use_cache : bool) (cache_dir : option (list N))
    (w w' : World) (font_info : gmap Z (list N))
    (cmap : option (list (Z * list N))) (font_map : gmap (list N) (list N)) :
  get_font_info lib TTFont_names (fs w) font_path = inr (font_info, cmap) ->
  extract_text_from_font lib font_path image_size show_progress use_cache
                         cache_dir w = (inr font_map, w') ->
  exists items, cmap = Some items /\ dom font_map = list_to_set items.*2.
Proof.
  unfold get_font_info, read_file.
  destruct (fs w !! norm font_path) as [[|data]|] eqn:Hfile; [done| |done].
  destruct (bool_decide (norm font_path = font_path)) eqn:Hspelled; [|done].
  destruct (TTFont_names data) as [e|names]; [done|].
  destruct (names_loop (default [] names) ∅) as [e|info]; [done|].
  destruct (TTFont_getBestCmap lib data) as [e|c] eqn:Hcmap; [done|].
  intros [= <- <-]. rewrite extract_unfold.
  destruct (prologue lib font_path cache_dir w) as [[e|[items cl]] w1] eqn:Hpro;
    [done|].
  intros [= <- <-]. exists items. split.
  - destruct (path_exists (fs w) font_path) eqn:Hex.
    2:{ unfold prologue in Hpro. by rewrite Hex in Hpro. }
    rewrite (prologue_unfold lib _ _ _ Hex) in Hpro.
    pose proof (prepare_cache_dir_frame cache_dir w) as [_ Hframe].
    specialize (Hframe _ _ Hfile).
    destruct (prepare_cache_dir cache_dir w) as [[e|[]] w0]; [done|].
    cbn [snd] in Hframe. unfold load_cmap, read_file in Hpro.
    rewrite Hframe, Hspelled, Hcmap in Hpro.
    destruct (DdddOcr lib); [done|]. destruct c; [|done].
    by injection Hpro as <- _ _.
  - cbn [fst]. rewrite loop_dom. cbn [fst]. by rewrite dom_empty_L, union_empty_l_L.
Qed.

End font_info_facts.

Lemma last_unicode_record_wins_witness :
  exists font_info cmap,
    get_font_info (demo_lib ocr_seven) demo_names demo_fs (py "digits.ttf")
    = inr (font_info, cmap) /\
    font_info !! 1 = Some (py "New") /\
    font_info !! 2 = None.
Proof.
  destruct (get_font_info (demo_lib ocr_seven) demo_names demo_fs
              (py "digits.ttf")) as [e|[font_info cmap]] eqn:Hinfo;
    [vm_compute in Hinfo; discriminate Hinfo|].
  exists font_info, cmap. split; [reflexivity|].
  destruct (last_unicode_record_wins (demo_lib ocr_seven) demo_names demo_fs
              (py "digits.ttf") font_info cmap Hinfo)
    as (data & names & Hdata & Hnames & _ & Hlast).
  injection Hnames as <-. split.
  - specialize (Hlast 1). cbn in Hlast.
    destruct (font_info !! 1) as [v|]; cbn in Hlast;
      [by injection Hlast as -> | discriminate Hlast].
  - specialize (Hlast 2). cbn in Hlast. by destruct (font_info !! 2).
Defined.

Lemma info_cmap_is_the_extracted_one_witness :
  exists font_map,
    fst (extract_text_from_font (demo_lib ocr_seven) (py "digits.ttf") 8
                                false true None demo_world) = inr font_map /\
    exists items,
      Some [(57345, py "uniE001")] = Some items /\
      dom font_map = list_to_set items.*2.
Proof.
  destruct (extract_text_from_font (demo_lib ocr_seven) (py "digits.ttf") 8
              false true None demo_world) as [[e|font_map] w'] eqn:Hex;
    [vm_compute in Hex; discriminate Hex|].
  exists font_map. split; [reflexivity|].
  apply (info_cmap_is_the_extracted_one (demo_lib ocr_seven) demo_names
           (py "digits.ttf") 8 false true None demo_world w'
           (<[1 := py "New"]> ∅) (Some [(57345, py "uniE001")]) font_map).
  - by vm_compute.
  - exact Hex.
Defined.

(** ** Progress reporting *)

Section progress_facts.

Variable lib : Library.

Lemma body_changes_files_only (k : key) (w : World) :
  snd (convert_cmap_to_image_body lib k w)
  = set_fs (fs (snd (convert_cmap_to_image_body lib k w))) w.
Proof.
  pose proof (body_reads_files_only lib k w w eq_refl) as H.
  destruct (convert_cmap_to_image_body lib k w) as [r w1]. by injection H.
Qed.

Lemma call_log (l : list log_record) (k : key) (w : World) :
  call lib k (with_log l w)
  = (fst (call lib k w), with_log l (snd (call lib k w))).
Proof.
  unfold call, lru_cache. cbn [with_log memo].
  destruct (cache_get k (memo w)) as [img|]; [done|].
  rewrite (body_reads_files_only lib k (add_miss w) (add_miss (with_log l w))
             eq_refl).
  pose proof (body_changes_files_only k (add_miss w)) as Hw.
  destruct (convert_cmap_to_image_body lib k (add_miss w)) as [[e|img] w1];
    cbn [fst snd] in Hw |- *; rewrite Hw; done.
Qed.

Lemma cache_write_log (l : list log_record) (cache_dir : option (list N))
    (cmap_code : Z) (glyph_name : list N) (image : Image) (w : World) :
  cache_write lib cache_dir cmap_code glyph_name image (with_log l w)
  = (fst (cache_write lib cache_dir cmap_code glyph_name image w),
     with_log l (snd (cache_write lib cache_dir cmap_code glyph_name image w))).
Proof.
  unfold cache_write. destruct (truthy cache_dir) as [d|]; [|done].
  unfold bind, lift. destruct (chr cmap_code) as [e|character]; [done|].
  cbn [with_log fs]. destruct (negb _); [|done]. unfold save. cbn [with_log fs].
  by destruct (write_file _ _ _).
Qed.

Lemma try_entry_log (l : list log_record)
    (classification : list N -> exn + list N) (font_path : list N)
    (image_size : Z) (cache_dir : option (list N)) (cmap_code : Z)
    (glyph_name : list N) (w : World) :
  try_entry lib classification font_path image_size cache_dir cmap_code
            glyph_name (with_log l w)
  = (fst (try_entry lib classification font_path image_size cache_dir cmap_code
                    glyph_name w),
     with_log l (snd (try_entry lib classification font_path image_size
                                cache_dir cmap_code glyph_name w))).
Proof.
  unfold try_entry, bind.
  change (convert_cmap_to_image lib cmap_code font_path image_size)
    with (call lib (cmap_code, font_path, image_size)).
  rewrite call_log.
  destruct (call lib (cmap_code, font_path, image_size) w) as [[e|image] w1];
    cbn [fst snd]; [done|].
  rewrite cache_write_log.
  by destruct (cache_write lib cache_dir cmap_code glyph_name image w1)
    as [[e|[]] w2].
Qed.

Lemma iteration_log (classification : list N -> exn + list N)
    (font_path : list N) (image_size : Z) (show_progress : bool)
    (cache_dir : option (list N)) (total_chars idx : nat) (item : Z * list N)
    (font_map : gmap (list N) (list N)) (l : list log_record) (w : World) :
  exists l',
    iteration lib classification font_path image_size show_progress cache_dir
              total_chars idx item (font_map, with_log l w)
    = (fst (iteration lib classification font_path image_size false cache_dir
                      total_chars idx item (font_map, w)),
       with_log l' (snd (iteration lib classification font_path image_size false
                                   cache_dir total_chars idx item
                                   (font_map, w)))).
Proof.
  destruct item as [c g]. unfold iteration.
  assert (Hp : exists l2, progress show_progress total_chars idx (with_log l w)
                          = with_log l2 w).
  { unfold progress. destruct (_ && _); [|by exists l]. by eexists. }
  destruct Hp as [l2 ->]. change (progress false total_chars idx w) with w.
  rewrite try_entry_log.
  destruct (try_entry lib classification font_path image_size cache_dir c g w)
    as [[e|text] w1]; cbn [fst snd]; by eexists.
Qed.

Lemma loop_log_only (classification : list N -> exn + list N)
    (font_path : list N) (image_size : Z) (show_progress : bool)
    (cache_dir : option (list N)) (total_chars idx : nat)
    (items : list (Z * list N)) (font_map : gmap (list N) (list N))
    (l : list log_record) (w : World) :
  exists l',
    loop lib classification font_path image_size show_progress cache_dir
         total_chars idx items (font_map, with_log l w)
    = (fst (loop lib classification font_path image_size false cache_dir
                 total_chars idx items (font_map, w)),
       with_log l' (snd (loop lib classification font_path image_size false
                              cache_dir total_chars idx items (font_map, w)))).
Proof.
  revert idx font_map l w.
  induction items as [|item items IH]; intros idx font_map l w; cbn [loop].
  - by exists l.
  - destruct (iteration_log classification font_path image_size show_progress
                cache_dir total_chars idx item font_map l w) as [l1 ->].
    destruct (iteration lib classification font_path image_size false cache_dir
                total_chars idx item (font_map, w)) as [fm1 w1]. cbn [fst snd].
    apply IH.
Qed.

(** X21: progress reporting changes the log and nothing else: with and
    without [show_progress] the call returns the same mapping or raises
    the same exception, and leaves the same files, the same memo table and
    the same counters. *)
Theorem progress_only_logs (font_path : list N) (image_size : Z)
    (use_cache : bool) (cache_dir : option (list N)) (w : World) :
  let shown := extract_text_from_font lib font_path image_size true use_cache
                                      cache_dir w in
  let quiet := extract_text_from_font lib font_path image_size false use_cache
                                      cache_dir w in
  fst shown = fst quiet /\
  fs (snd shown) = fs (snd quiet) /\ memo (snd shown) = memo (snd quiet) /\
  hits (snd shown) = hits (snd quiet) /\ misses (snd shown) = misses (snd quiet).
Proof.
  cbv zeta. rewrite !extract_unfold.
  destruct (prologue lib font_path cache_dir w) as [[e|[cmap cl]] w1]; [done|].
  cbv zeta.
  destruct (loop_log_only cl font_path image_size true cache_dir (length cmap) 0
              cmap ∅ (log w1) w1) as [l' Hl].
  assert (Hw1 : with_log (log w1) w1 = w1) by (by destruct w1).
  rewrite Hw1 in Hl. rewrite Hl. by cbn.
Qed.

End progress_facts.
